(** * Alarm clock service: occurrence calculator, records and scheduler

    A shallow embedding of [alarm_clock/models.py] and
    [alarm_clock/scheduler.py], of the player registry of
    [alarm_clock/players.py] and of the argument handling of
    [alarm_clock/__main__.py], followed by the properties of the
    specification that concern them and by further properties of the
    code.

    Conventions of the embedding

    - Python exceptions are explicit: a fallible computation returns an
      [outcome], either [Ok v] or [Raise e].
    - An aware [datetime] is the number of microseconds on the proleptic
      Gregorian time line, [toordinal(date) * 86400 * 10^6 + microseconds
      since midnight]; a UTC instant and a wall-clock reading of a zone are
      both such numbers, related by the zone's offset.
    - A [ZoneInfo] is the pair of functions CPython's [zoneinfo] exposes: the
      offset in force at a UTC instant ([fromutc]) and the offset assigned to
      a wall-clock reading ([utcoffset], with [fold = 0]).
    - A decoded JSON document is a [pyval]; a JSON object is a finite map
      from strings.
    - Objects that the scheduler mutates in place ([Alarm] instances and the
      dictionaries that refer to them) live in a heap indexed by object
      identity, so that aliasing is visible. *)

From Stdlib Require Import ZArith Strings.Ascii Floats.PrimFloat.
From stdpp Require Import gmap strings list fin_maps sorting pretty.

#[local] Set Warnings "-register-all".
#[local] Open Scope string_scope.
#[local] Open Scope Z_scope.

(* ===================================================================== *)
(** * Part I. Definitions *)
(* ===================================================================== *)

(** ** Exceptions and the outcome monad *)

Inductive exn : Type :=
  | ValueError
  | KeyError
  | TypeError
  | OverflowError
  | ZoneInfoNotFoundError
  | PlayerError
  | StorageError
  (** a reference to no object: no Python program holds one, and none
      arises from a well-formed heap *)
  | Unallocated.

Inductive outcome (A : Type) : Type :=
  | Ok (a : A)
  | Raise (e : exn).
Arguments Ok {A} a.
Arguments Raise {A} e.

#[global] Instance exn_eq_dec : EqDecision exn.
Proof. solve_decision. Defined.

#[global] Instance outcome_ret : MRet outcome := λ A a, Ok a.
#[global] Instance outcome_bind : MBind outcome := λ A B f m,
  match m with
  | Ok a => f a
  | Raise e => Raise e
  end.
#[global] Instance outcome_fmap : FMap outcome := λ A B f m,
  match m with
  | Ok a => Ok (f a)
  | Raise e => Raise e
  end.

(** [for x in xs: f(x)], stopping at the first exception. *)
Fixpoint mapM_outcome {A B : Type} (f : A → outcome B) (xs : list A) : outcome (list B) :=
  match xs with
  | [] => Ok []
  | x :: rest => y ← f x; ys ← mapM_outcome f rest; Ok (y :: ys)
  end.

(** ** The proleptic Gregorian calendar ([datetime.date]) *)

Record date : Type := mk_date { year : Z; month : Z; day : Z }.

#[global] Instance date_eq_dec : EqDecision date.
Proof. solve_decision. Defined.

Definition MINYEAR : Z := 1.
Definition MAXYEAR : Z := 9999.
Definition _MAXORDINAL : Z := 3652059.

Definition _is_leap (y : Z) : bool :=
  (y mod 4 =? 0) && (negb (y mod 100 =? 0) || (y mod 400 =? 0)).

Definition _DAYS_IN_MONTH (m : Z) : Z :=
  match m with
  | 1 => 31 | 2 => 28 | 3 => 31 | 4 => 30 | 5 => 31 | 6 => 30
  | 7 => 31 | 8 => 31 | 9 => 30 | 10 => 31 | 11 => 30 | 12 => 31
  | _ => 0
  end.

Definition _DAYS_BEFORE_MONTH (m : Z) : Z :=
  match m with
  | 1 => 0 | 2 => 31 | 3 => 59 | 4 => 90 | 5 => 120 | 6 => 151
  | 7 => 181 | 8 => 212 | 9 => 243 | 10 => 273 | 11 => 304 | 12 => 334
  | _ => 0
  end.

Definition _days_before_year (y : Z) : Z :=
  let y := y - 1 in y * 365 + y / 4 - y / 100 + y / 400.

Definition _days_in_month (y m : Z) : Z :=
  if (m =? 2) && _is_leap y then 29 else _DAYS_IN_MONTH m.

Definition _days_before_month (y m : Z) : Z :=
  _DAYS_BEFORE_MONTH m + (if (2 <? m) && _is_leap y then 1 else 0).

Definition _ymd2ord (y m d : Z) : Z :=
  _days_before_year y + _days_before_month y m + d.

Definition _DI400Y : Z := 146097.
Definition _DI100Y : Z := 36524.
Definition _DI4Y : Z := 1461.

Definition _ord2ymd (n : Z) : date :=
  let n := n - 1 in
  let n400 := n / _DI400Y in
  let n := n mod _DI400Y in
  let y := n400 * 400 + 1 in
  let n100 := n / _DI100Y in
  let n := n mod _DI100Y in
  let n4 := n / _DI4Y in
  let n := n mod _DI4Y in
  let n1 := n / 365 in
  let n := n mod 365 in
  let y := y + n100 * 100 + n4 * 4 + n1 in
  if (n1 =? 4) || (n100 =? 4) then mk_date (y - 1) 12 31
  else
    let leapyear := (n1 =? 3) && (negb (n4 =? 24) || (n100 =? 3)) in
    let m := Z.shiftr (n + 50) 5 in
    let preceding := _DAYS_BEFORE_MONTH m + (if (2 <? m) && leapyear then 1 else 0) in
    if n <? preceding then
      let m := m - 1 in
      let preceding :=
        preceding - (_DAYS_IN_MONTH m + (if (m =? 2) && leapyear then 1 else 0)) in
      mk_date y m (n - preceding + 1)
    else mk_date y m (n - preceding + 1).

(** The values a [date] object can hold. *)
Definition valid_date (d : date) : bool :=
  (MINYEAR <=? year d) && (year d <=? MAXYEAR)
  && (1 <=? month d) && (month d <=? 12)
  && (1 <=? day d) && (day d <=? _days_in_month (year d) (month d)).

Definition toordinal (d : date) : Z := _ymd2ord (year d) (month d) (day d).

(** [date.weekday()]: Monday is 0, Sunday is 6. *)
Definition weekday (d : date) : Z := (toordinal d + 6) mod 7.

(** [date + timedelta(days=k)]. *)
Definition date_add_days (d : date) (k : Z) : outcome date :=
  let o := toordinal d + k in
  if (0 <? o) && (o <=? _MAXORDINAL) then Ok (_ord2ymd o) else Raise OverflowError.

(** [d1 < d2]: the comparison of [(year, month, day)] triples. *)
Definition date_ltb (d1 d2 : date) : bool :=
  (year d1 <? year d2)
  || ((year d1 =? year d2)
      && ((month d1 <? month d2)
          || ((month d1 =? month d2) && (day d1 <? day d2)))).

(** *** [date.isoformat] and [date.fromisoformat] *)

Definition digit_char (n : Z) : ascii := ascii_of_nat (Z.to_nat (48 + n)).

Definition digit_val (c : ascii) : option Z :=
  let n := Z.of_nat (nat_of_ascii c) in
  if (48 <=? n) && (n <=? 57) then Some (n - 48) else None.

Definition pad2 (n : Z) : string :=
  String (digit_char (n / 10 mod 10)) (String (digit_char (n mod 10)) EmptyString).

Definition pad4 (n : Z) : string :=
  String (digit_char (n / 1000 mod 10)) (String (digit_char (n / 100 mod 10)) (pad2 n)).

(** ["%04d-%02d-%02d" % (year, month, day)]. *)
Definition isoformat (d : date) : string :=
  pad4 (year d) +:+ "-" +:+ pad2 (month d) +:+ "-" +:+ pad2 (day d).

Definition digits2 (a b : ascii) : option Z :=
  x ← digit_val a; y ← digit_val b; Some (10 * x + y).

Definition digits4 (a b c d : ascii) : option Z :=
  x ← digits2 a b; y ← digits2 c d; Some (100 * x + y).

(** The extended calendar format [YYYY-MM-DD], the one [isoformat] writes
    (CPython 3.11 and later also read the basic and the week formats, which
    no record written by this program contains). *)
Definition fromisoformat (s : string) : outcome date :=
  match s with
  | String y1 (String y2 (String y3 (String y4 (String "-"
      (String m1 (String m2 (String "-"
        (String d1 (String d2 EmptyString))))))))) =>
      match digits4 y1 y2 y3 y4, digits2 m1 m2, digits2 d1 d2 with
      | Some y, Some m, Some d =>
          if valid_date (mk_date y m d) then Ok (mk_date y m d) else Raise ValueError
      | _, _, _ => Raise ValueError
      end
  | _ => Raise ValueError
  end.

(** ** Instants, wall-clock readings and time zones *)

Definition US_PER_SECOND : Z := 1000000.
Definition US_PER_DAY : Z := 86400 * US_PER_SECOND.

(** The first and last microsecond a [datetime] can denote. *)
Definition DATETIME_MIN : Z := 1 * US_PER_DAY.
Definition DATETIME_MAX : Z := (_MAXORDINAL + 1) * US_PER_DAY - 1.

Definition check_datetime (us : Z) : outcome Z :=
  if (DATETIME_MIN <=? us) && (us <=? DATETIME_MAX) then Ok us else Raise OverflowError.

(** [datetime(y, m, d, hh, mm, ss, us)] on the time line. *)
Definition datetime (y m d hh mm ss us : Z) : Z :=
  _ymd2ord y m d * US_PER_DAY + ((hh * 60 + mm) * 60 + ss) * US_PER_SECOND + us.

(** [dt.date()] of a wall-clock reading. *)
Definition date_of (wall : Z) : date := _ord2ymd (wall / US_PER_DAY).

(** [dt + timedelta(microseconds=us)]. *)
Definition datetime_add (dt us : Z) : outcome Z := check_datetime (dt + us).

Record tzinfo : Type := mk_tzinfo {
  (** offset (in microseconds) in force at a UTC instant *)
  utcoffset_utc : Z → Z;
  (** offset assigned to a wall-clock reading of the zone *)
  utcoffset_wall : Z → Z
}.

Definition fixed_offset (offset : Z) : tzinfo :=
  {| utcoffset_utc := λ _, offset; utcoffset_wall := λ _, offset |}.

Definition UTC : tzinfo := fixed_offset 0.

(** [now.astimezone(tz)] for a UTC [now]: the wall-clock reading in [tz]. *)
Definition astimezone (tz : tzinfo) (utc : Z) : outcome Z :=
  check_datetime (utc + utcoffset_utc tz utc).

(** [local.astimezone(ZoneInfo("UTC"))] for a reading [local] of [tz]. *)
Definition astimezone_utc (tz : tzinfo) (wall : Z) : outcome Z :=
  check_datetime (wall - utcoffset_wall tz wall).

(** [time(hour, minute, second, tzinfo=tz)], as microseconds since midnight. *)
Definition time (hour minute second : Z) : outcome Z :=
  if (0 <=? hour) && (hour <=? 23) && (0 <=? minute) && (minute <=? 59)
     && (0 <=? second) && (second <=? 59)
  then Ok (((hour * 60 + minute) * 60 + second) * US_PER_SECOND)
  else Raise ValueError.

(** [datetime.combine(target_date, alarm_time)]: a wall-clock reading. *)
Definition datetime_combine (target_date : date) (alarm_time : Z) : Z :=
  toordinal target_date * US_PER_DAY + alarm_time.

(** The zone database behind [ZoneInfo(name)]. *)
Definition zone_db : Type := string → option tzinfo.

Definition ZoneInfo (db : zone_db) (name : string) : outcome tzinfo :=
  match db name with
  | Some tz => Ok tz
  | None => Raise ZoneInfoNotFoundError
  end.

(** A database that knows the zone ["UTC"] only. *)
Definition utc_only : zone_db :=
  λ name, if decide (name = "UTC") then Some UTC else None.

(** ** Python values read from JSON *)

Inductive pyval : Type :=
  | VNone
  | VBool (b : bool)
  | VInt (z : Z)
  | VFloat (f : float)
  | VStr (s : string)
  | VList (l : list pyval)
  | VDict (m : gmap string pyval).

(** The built-in conversions, on the values whose treatment is a matter of
    CPython's number and text formats rather than of this program: they are
    taken as given. *)
Record builtins : Type := mk_builtins {
  (** [str(v)] of a float, a list or a dict *)
  str_other : pyval → string;
  (** [int(s)] of a string, [int(f)] of a float *)
  int_of_str : string → outcome Z;
  int_of_float : float → outcome Z;
  (** [float(s)] of a string, [float(n)] of an integer *)
  float_of_str : string → outcome float;
  float_of_int : Z → outcome float;
  (** [dict(v).items()] of a value that is not a dict *)
  dict_items_other : pyval → outcome (list (pyval * pyval))
}.

(** [payload.get(key)] and [payload.get(key, default)]. *)
Definition py_get (payload : gmap string pyval) (key : string) : pyval :=
  default VNone (payload !! key).
Definition py_get_default (payload : gmap string pyval) (key : string) (d : pyval) : pyval :=
  default d (payload !! key).

(** [payload[key]]. *)
Definition py_getitem (payload : gmap string pyval) (key : string) : outcome pyval :=
  match payload !! key with
  | Some v => Ok v
  | None => Raise KeyError
  end.

Definition py_str (B : builtins) (v : pyval) : string :=
  match v with
  | VStr s => s
  | VNone => "None"
  | VBool true => "True"
  | VBool false => "False"
  | VInt z => pretty z
  | _ => str_other B v
  end.

Definition py_int (B : builtins) (v : pyval) : outcome Z :=
  match v with
  | VInt z => Ok z
  | VBool b => Ok (if b then 1 else 0)
  | VFloat f => int_of_float B f
  | VStr s => int_of_str B s
  | _ => Raise TypeError
  end.

Definition py_float (B : builtins) (v : pyval) : outcome float :=
  match v with
  | VFloat f => Ok f
  | VInt z => float_of_int B z
  | VBool b => Ok (if b then 1%float else 0%float)
  | VStr s => float_of_str B s
  | _ => Raise TypeError
  end.

(** Truth value testing. *)
Definition py_bool (v : pyval) : bool :=
  match v with
  | VNone => false
  | VBool b => b
  | VInt z => negb (z =? 0)
  | VFloat f => negb (PrimFloat.eqb f 0%float)
  | VStr s => negb (bool_decide (s = EmptyString))
  | VList l => negb (bool_decide (l = []))
  | VDict m => negb (bool_decide (m = ∅))
  end.

(** [v is None]. *)
Definition py_is_none (v : pyval) : bool :=
  match v with
  | VNone => true
  | _ => false
  end.

(** The characters of a string, each a string of length one. *)
Fixpoint chars (s : string) : list pyval :=
  match s with
  | EmptyString => []
  | String c rest => VStr (String c EmptyString) :: chars rest
  end.

(** [for value in v]: the elements of a list, the characters of a string,
    the keys of a dict. *)
Definition py_iter (v : pyval) : outcome (list pyval) :=
  match v with
  | VList l => Ok l
  | VStr s => Ok (chars s)
  | VDict m => Ok (VStr <$> (map_to_list m).*1)
  | _ => Raise TypeError
  end.

(** [dict(v).items()]. *)
Definition py_dict_items (B : builtins) (v : pyval) : outcome (list (pyval * pyval)) :=
  match v with
  | VDict m => Ok (prod_map VStr id <$> map_to_list m)
  | _ => dict_items_other B v
  end.

(** The string-keyed part of a dict given by its items; a later item
    replaces an earlier one with the same key. *)
Definition str_keyed (items : list (pyval * pyval)) : gmap string pyval :=
  foldl (λ acc kv, match kv.1 with VStr k => <[k := kv.2]> acc | _ => acc end) ∅ items.

(** [dict(v)], as far as string keys can observe it. *)
Definition py_dict (B : builtins) (v : pyval) : outcome (gmap string pyval) :=
  match v with
  | VDict m => Ok m
  | _ => items ← dict_items_other B v; Ok (str_keyed items)
  end.

(** ** [MusicSettings] *)

Module MusicSettings.

Record t : Type := mk {
  source : string;
  (** [Optional[str]] by annotation; [from_dict] stores whatever the
      record holds, so the field is a [pyval] ([VNone] for [None]) *)
  resource : pyval;
  tone_frequency_hz : Z;
  tone_duration_seconds : Z;
  extra : gmap string string
}.

Definition tone (frequency_hz duration_seconds : Z) : t :=
  {| source := "tone"; resource := VNone;
     tone_frequency_hz := frequency_hz;
     tone_duration_seconds := duration_seconds;
     extra := ∅ |}.

(** [MusicSettings.tone()] with its default arguments. *)
Definition tone_default : t := tone 440 30.

Definition spotify (uri : string) (duration_seconds : Z) : outcome t :=
  if bool_decide (uri = EmptyString) then Raise ValueError
  else Ok {| source := "spotify"; resource := VStr uri;
             tone_frequency_hz := 440;
             tone_duration_seconds := duration_seconds;
             extra := ∅ |}.

Definition app (command : string) (duration_seconds : Z)
    (extra : option (gmap string string)) : outcome t :=
  if bool_decide (command = EmptyString) then Raise ValueError
  else Ok {| source := "app"; resource := VStr command;
             tone_frequency_hz := 440;
             tone_duration_seconds := duration_seconds;
             extra := default ∅ extra |}.

Definition custom (source resource : string) (duration_seconds : Z)
    (extra : option (gmap string string)) : outcome t :=
  if bool_decide (source = EmptyString) then Raise ValueError
  else Ok {| source := source; resource := VStr resource;
             tone_frequency_hz := 440;
             tone_duration_seconds := duration_seconds;
             extra := default ∅ extra |}.

Definition to_dict (self : t) : gmap string pyval :=
  <["source" := VStr (source self)]>
  (<["resource" := resource self]>
  (<["tone_frequency_hz" := VInt (tone_frequency_hz self)]>
  (<["tone_duration_seconds" := VInt (tone_duration_seconds self)]>
  (<["extra" := VDict (VStr <$> extra self)]> ∅)))).

(** [{str(k): str(v) for k, v in items}]. *)
Definition str_items (B : builtins) (items : list (pyval * pyval)) : gmap string string :=
  foldl (λ acc kv, <[py_str B kv.1 := py_str B kv.2]> acc) ∅ items.

Definition from_dict (B : builtins) (payload : gmap string pyval) : outcome t :=
  let source := py_str B (py_get payload "source") in
  let resource := py_get payload "resource" in
  tone_frequency_hz ← py_int B (py_get_default payload "tone_frequency_hz" (VInt 440));
  tone_duration_seconds ← py_int B (py_get_default payload "tone_duration_seconds" (VInt 30));
  items ← py_dict_items B (py_get_default payload "extra" (VDict ∅));
  Ok {| source := source; resource := resource;
        tone_frequency_hz := tone_frequency_hz;
        tone_duration_seconds := tone_duration_seconds;
        extra := str_items B items |}.

End MusicSettings.

(** ** [Alarm] *)

(** The loop of [_normalize_days]: range check, first occurrences kept. *)
Fixpoint _normalize_days_loop (days seen normalized : list Z) : outcome (list Z) :=
  match days with
  | [] => Ok normalized
  | day :: rest =>
      if (day <? 0) || (6 <? day) then Raise ValueError
      else if bool_decide (day ∈ seen) then _normalize_days_loop rest seen normalized
      else _normalize_days_loop rest (day :: seen) (normalized ++ [day])
  end.

Definition sorted (l : list Z) : list Z := merge_sort Z.le l.

Definition _normalize_days (days : list Z) : outcome (list Z) :=
  match days with
  | [] => Ok []
  | _ => normalized ← _normalize_days_loop days [] []; Ok (sorted normalized)
  end.

(** The grace window of [next_occurrence]: [timedelta(seconds=0.5)]. *)
Definition GRACE : Z := 500000.

(** [min(days)] of a non-empty tuple. *)
Definition py_min (first : Z) (others : list Z) : Z := foldl Z.min first others.

Module Alarm.

Record t : Type := mk {
  id : string;
  label : string;
  hour : Z;
  minute : Z;
  second : Z;
  timezone : string;
  repeat_days : list Z;
  start_date : option date;
  music : MusicSettings.t;
  enabled : bool;
  volume : float
}.

Definition set_enabled (b : bool) (self : t) : t :=
  mk (id self) (label self) (hour self) (minute self) (second self) (timezone self)
     (repeat_days self) (start_date self) (music self) b (volume self).

(** [__post_init__]: validation, repeat-day normalisation, label default. *)
Definition __post_init__ (self : t) : outcome t :=
  if bool_decide (id self = EmptyString) then Raise ValueError
  else if negb ((0 <=? hour self) && (hour self <=? 23)
                && (0 <=? minute self) && (minute self <=? 59)
                && (0 <=? second self) && (second self <=? 59))
  then Raise ValueError
  else
    days ← _normalize_days (repeat_days self);
    if PrimFloat.leb (volume self) 0%float then Raise ValueError
    else
      Ok (mk (id self)
             (if bool_decide (label self = EmptyString) then id self else label self)
             (hour self) (minute self) (second self) (timezone self)
             days (start_date self) (music self) (enabled self) (volume self)).

(** [Alarm(...)]: the generated [__init__] followed by [__post_init__]. *)
Definition new (id label : string) (hour minute second : Z) (timezone : string)
    (repeat_days : list Z) (start_date : option date) (music : MusicSettings.t)
    (enabled : bool) (volume : float) : outcome t :=
  __post_init__ (mk id label hour minute second timezone repeat_days start_date
                    music enabled volume).

Definition to_dict (self : t) : gmap string pyval :=
  <["id" := VStr (id self)]>
  (<["label" := VStr (label self)]>
  (<["hour" := VInt (hour self)]>
  (<["minute" := VInt (minute self)]>
  (<["second" := VInt (second self)]>
  (<["timezone" := VStr (timezone self)]>
  (<["repeat_days" := VList (VInt <$> repeat_days self)]>
  (<["start_date" := match start_date self with
                     | Some d => VStr (isoformat d)
                     | None => VNone
                     end]>
  (<["music" := VDict (MusicSettings.to_dict (music self))]>
  (<["enabled" := VBool (enabled self)]>
  (<["volume" := VFloat (volume self)]> ∅)))))))))).

Definition from_dict (B : builtins) (payload : gmap string pyval) : outcome t :=
  let start_date_value := py_get payload "start_date" in
  start_date_parsed ←
    (if py_bool start_date_value then
       match start_date_value with
       | VStr s => Some <$> fromisoformat s
       | _ => Raise TypeError
       end
     else Ok None);
  id_value ← py_getitem payload "id";
  let id := py_str B id_value in
  let label := py_str B (py_get_default payload "label" id_value) in
  hour ← py_int B (py_get_default payload "hour" (VInt 0));
  minute ← py_int B (py_get_default payload "minute" (VInt 0));
  second ← py_int B (py_get_default payload "second" (VInt 0));
  let timezone := py_str B (py_get_default payload "timezone" (VStr "UTC")) in
  values ← py_iter (py_get_default payload "repeat_days" (VList []));
  repeat_days ← mapM_outcome (py_int B)
                  (List.filter (λ value, negb (py_is_none value)) values);
  music_payload ← py_dict B (py_get_default payload "music" (VDict ∅));
  music ← MusicSettings.from_dict B music_payload;
  let enabled := py_bool (py_get_default payload "enabled" (VBool true)) in
  volume ← py_float B (py_get_default payload "volume" (VFloat 1%float));
  new id label hour minute second timezone repeat_days start_date_parsed
      music enabled volume.

(** The local function [combine] of [next_occurrence]. *)
Definition combine (tz : tzinfo) (alarm_time : Z) (target_date : date) : outcome Z :=
  astimezone_utc tz (datetime_combine target_date alarm_time).

(** The loop [for offset in range(0, 7)] over the remaining offsets:
    [Ok (Some t)] when it returns [t], [Ok None] when it runs to its end. *)
Fixpoint scan (self : t) (tz : tzinfo) (alarm_time : Z) (today candidate_date : date)
    (now : Z) (offsets : list Z) : outcome (option Z) :=
  match offsets with
  | [] => Ok None
  | offset :: rest =>
      possible_date ← date_add_days today offset;
      if date_ltb possible_date candidate_date
      then scan self tz alarm_time today candidate_date now rest
      else if negb (bool_decide (weekday possible_date ∈ repeat_days self))
      then scan self tz alarm_time today candidate_date now rest
      else
        occurrence ← combine tz alarm_time possible_date;
        limit ← datetime_add now GRACE;
        if limit <? occurrence then Ok (Some occurrence)
        else scan self tz alarm_time today candidate_date now rest
  end.

Definition next_occurrence (db : zone_db) (self : t) (now : Z) : outcome (option Z) :=
  tz ← ZoneInfo db (timezone self);
  localized_now ← astimezone tz now;
  alarm_time ← time (hour self) (minute self) (second self);
  if negb (enabled self) then Ok None
  else
    let today := date_of localized_now in
    let candidate_date := default today (start_date self) in
    if match start_date self with
       | Some start => date_ltb start today && bool_decide (repeat_days self = [])
       | None => false
       end
    then Ok None
    else
      match repeat_days self with
      | first :: others =>
          found ← scan self tz alarm_time today candidate_date now (seqZ 0 7);
          match found with
          | Some occurrence => Ok (Some occurrence)
          | None =>
              let next_day := py_min first others in
              let today_idx := weekday today in
              let delta :=
                if (next_day - today_idx) mod 7 =? 0 then 7
                else (next_day - today_idx) mod 7 in
              possible_date ← date_add_days today delta;
              Some <$> combine tz alarm_time possible_date
          end
      | [] =>
          occurrence ← combine tz alarm_time candidate_date;
          limit ← datetime_add now GRACE;
          if occurrence <=? limit then
            if bool_decide (is_Some (start_date self)) then Ok None
            else
              tomorrow ← date_add_days today 1;
              Some <$> combine tz alarm_time tomorrow
          else Ok (Some occurrence)
      end.

End Alarm.

(** ** Insertion-ordered dictionaries keyed by strings *)

Section dict.
Context {V : Type}.

(** [d.get(k)]. *)
Fixpoint dict_get (k : string) (d : list (string * V)) : option V :=
  match d with
  | [] => None
  | (k', v) :: rest => if decide (k' = k) then Some v else dict_get k rest
  end.

(** [d[k] = v]: the value is replaced where the key stands, or the item
    is appended. *)
Fixpoint dict_set (k : string) (v : V) (d : list (string * V)) : list (string * V) :=
  match d with
  | [] => [(k, v)]
  | (k', v') :: rest =>
      if decide (k' = k) then (k, v) :: rest else (k', v') :: dict_set k v rest
  end.

(** [d.pop(k, None)], the dictionary that remains. *)
Definition dict_pop (k : string) (d : list (string * V)) : list (string * V) :=
  filter (λ kv, kv.1 ≠ k) d.

Definition dict_keys (d : list (string * V)) : list string := d.*1.
Definition dict_values (d : list (string * V)) : list V := d.*2.
End dict.

(** ** The scheduler *)

(** The collaborators of a scheduler: the zone database, the store behind
    the [AlarmStore] protocol (a state machine whose [save] may fail) and
    the player registry. *)
Record environment : Type := mk_environment {
  zones : zone_db;
  store : Type;
  load : store → store * outcome (list Alarm.t);
  save : store → list Alarm.t → store * outcome unit;
  play : Alarm.t → outcome unit
}.

Abbreviation loc := nat.

(** Where a timer task stands in [_run_alarm]: about to re-read its alarm at
    the top of the loop, or suspended in [sleep]/[play] holding the alarm
    object it read. *)
Inductive task_pc : Type :=
  | LoopTop
  | Waiting (alarm : loc) (next_time : Z).

(** An [asyncio.Task] running [_run_alarm(alarm_id)]. *)
Inductive task_status : Type :=
  | Pending (pc : task_pc)
  | Finished
  | Failed (e : exn).

Record task : Type := mk_task { task_alarm_id : string; status : task_status }.

(** Granularity. Every operation of [AlarmScheduler] holds [self._lock]
    from its first statement to its last; it is one transition of the
    model, and what it awaits inside (the store, a cancelled task) is part
    of that transition. A timer task takes no lock; it runs from one
    suspension point of [_run_alarm] to the next in one step ([task_step]),
    and the instant it reads from the clock is an argument of the step.
    How long a task sleeps is not modelled: a step may be taken at any
    time. *)

Module Scheduler.
Section scheduler.
Context (E : environment).

(** The scheduler's fields, and the objects they refer to. *)
Record t : Type := mk {
  (** the [Alarm] instances, by identity *)
  alarm_objs : gmap loc Alarm.t;
  (** the dict objects that map alarm ids to [Alarm] instances *)
  dict_objs : gmap loc (list (string * loc));
  (** the tasks created so far *)
  task_objs : gmap loc task;
  _store : store E;
  (** [self._alarms]: a reference to a dict object *)
  _alarms : loc;
  (** [self._tasks] *)
  _tasks : list (string * loc);
  _started : bool;
  (** the argument of every [save] call made so far, latest first *)
  save_log : list (list Alarm.t)
}.

Definition with_alarm_objs (f : gmap loc Alarm.t → gmap loc Alarm.t) (s : t) : t :=
  mk (f (alarm_objs s)) (dict_objs s) (task_objs s) (_store s) (_alarms s) (_tasks s)
     (_started s) (save_log s).
Definition with_dict_objs
    (f : gmap loc (list (string * loc)) → gmap loc (list (string * loc))) (s : t) : t :=
  mk (alarm_objs s) (f (dict_objs s)) (task_objs s) (_store s) (_alarms s) (_tasks s)
     (_started s) (save_log s).
Definition with_task_objs (f : gmap loc task → gmap loc task) (s : t) : t :=
  mk (alarm_objs s) (dict_objs s) (f (task_objs s)) (_store s) (_alarms s) (_tasks s)
     (_started s) (save_log s).
Definition with_store (st : store E) (saved : option (list Alarm.t)) (s : t) : t :=
  mk (alarm_objs s) (dict_objs s) (task_objs s) st (_alarms s) (_tasks s)
     (_started s) (from_option (λ a, a :: save_log s) (save_log s) saved).
Definition with_alarms (l : loc) (s : t) : t :=
  mk (alarm_objs s) (dict_objs s) (task_objs s) (_store s) l (_tasks s)
     (_started s) (save_log s).
Definition with_tasks (f : list (string * loc) → list (string * loc)) (s : t) : t :=
  mk (alarm_objs s) (dict_objs s) (task_objs s) (_store s) (_alarms s) (f (_tasks s))
     (_started s) (save_log s).
Definition with_started (b : bool) (s : t) : t :=
  mk (alarm_objs s) (dict_objs s) (task_objs s) (_store s) (_alarms s) (_tasks s)
     b (save_log s).

(** [AlarmScheduler(store, players)]: the live mapping is a new, empty
    dict. *)
Definition __init__ (st : store E) : t :=
  mk ∅ {[ 0%nat := [] ]} ∅ st 0%nat [] false [].

(** *** Programs: state transformers that may raise

    An exception leaves the changes made before it in place. *)
Definition prog (A : Type) : Type := t → t * outcome A.

Definition ret {A : Type} (a : A) : prog A := λ s, (s, Ok a).
Definition bind {A B : Type} (m : prog A) (f : A → prog B) : prog B := λ s,
  match m s with
  | (s', Ok a) => f a s'
  | (s', Raise e) => (s', Raise e)
  end.
Definition raise {A : Type} (e : exn) : prog A := λ s, (s, Raise e).
Definition gets {A : Type} (f : t → A) : prog A := λ s, (s, Ok (f s)).
Definition modify (f : t → t) : prog unit := λ s, (f s, Ok ()).
Definition act {A : Type} (f : t → t * outcome A) : prog A := f.

Fixpoint for_each {A : Type} (f : A → prog unit) (xs : list A) : prog unit :=
  match xs with
  | [] => ret ()
  | x :: rest => bind (f x) (λ _, for_each f rest)
  end.

Fixpoint map_each {A B : Type} (f : A → prog B) (xs : list A) : prog (list B) :=
  match xs with
  | [] => ret []
  | x :: rest => bind (f x) (λ y, bind (map_each f rest) (λ ys, ret (y :: ys)))
  end.

#[local] Instance prog_ret : MRet prog := @ret.
#[local] Instance prog_bind : MBind prog := λ A B f m, bind m f.

(** *** Objects *)

(** The dict object [self._alarms] refers to. *)
Definition live (s : t) : list (string * loc) := default [] (dict_objs s !! _alarms s).

(** In-place update of the dict object [self._alarms] refers to. *)
Definition update_live (f : list (string * loc) → list (string * loc)) : prog unit :=
  modify (λ s, with_dict_objs <[_alarms s := f (live s)]> s).

(** Reading the fields of an [Alarm] instance. *)
Definition deref (alarm : loc) : prog Alarm.t := λ s,
  match alarm_objs s !! alarm with
  | Some a => (s, Ok a)
  | None => (s, Raise Unallocated)
  end.

(** [alarm.enabled = b]. *)
Definition assign_enabled (alarm : loc) (b : bool) : prog unit :=
  modify (with_alarm_objs (alter (Alarm.set_enabled b) alarm)).

(** A new [Alarm] instance holding [a]. *)
Definition new_alarm (a : Alarm.t) : prog loc := λ s,
  let alarm := fresh (dom (alarm_objs s)) in
  (with_alarm_objs <[alarm := a]> s, Ok alarm).

(** A new dict object. *)
Definition new_dict (d : list (string * loc)) : prog loc := λ s,
  let l := fresh (dom (dict_objs s)) in
  (with_dict_objs <[l := d]> s, Ok l).

(** [self._alarms = d] for a newly built dict [d]. *)
Definition rebind_alarms (d : list (string * loc)) : prog unit :=
  l ← new_dict d;
  modify (with_alarms l).

(** *** The collaborators *)

(** [await self._store.save(self._alarms.values())]. *)
Definition store_save : prog unit :=
  d ← gets live;
  alarms ← map_each deref (dict_values d);
  act (λ s, let '(st, r) := save E (_store s) alarms in
            (with_store st (Some alarms) s, r)).

(** [await self._store.load()]. *)
Definition store_load : prog (list Alarm.t) := λ s,
  let '(st, r) := load E (_store s) in (with_store st None s, r).

(** [await self._players.play(alarm)]. *)
Definition players_play (alarm : loc) : prog unit :=
  a ← deref alarm;
  act (λ s, (s, play E a)).

(** *** Tasks *)

(** [self._tasks[alarm_id] = asyncio.create_task(self._run_alarm(alarm_id))]. *)
Definition spawn (alarm_id : string) : prog unit := λ s,
  let task := fresh (dom (task_objs s)) in
  (with_tasks (dict_set alarm_id task)
     (with_task_objs <[task := mk_task alarm_id (Pending LoopTop)]> s), Ok ()).

(** [task.cancel()]: a pending task receives [CancelledError] at its
    suspension point, which [_run_alarm] turns into a return. *)
Definition cancel_task (task : loc) : prog unit :=
  modify (with_task_objs (alter (λ k,
    match status k with
    | Pending _ => mk_task (task_alarm_id k) Finished
    | _ => k
    end) task)).

(** [with contextlib.suppress(asyncio.CancelledError): await task]: the
    exception of a task that failed is raised again. *)
Definition await_task (task : loc) : prog unit := λ s,
  match status <$> task_objs s !! task with
  | Some (Failed e) => (s, Raise e)
  | _ => (s, Ok ())
  end.

Definition _cancel (alarm_id : string) : prog unit :=
  tasks ← gets _tasks;
  match dict_get alarm_id tasks with
  | Some task =>
      modify (with_tasks (dict_pop alarm_id));;
      cancel_task task;;
      await_task task
  | None => ret ()
  end.

Definition _reschedule (alarm_id : string) : prog unit :=
  _cancel alarm_id;;
  d ← gets live;
  match dict_get alarm_id d with
  | Some alarm =>
      a ← deref alarm;
      started ← gets _started;
      if started && Alarm.enabled a then spawn alarm_id else ret ()
  | None => raise KeyError
  end.

(** The body of the loop of [start]:
    [if alarm.enabled: self._tasks[alarm.id] = asyncio.create_task(...)]. *)
Definition spawn_if_enabled (alarm : loc) : prog unit :=
  a ← deref alarm;
  if Alarm.enabled a then spawn (Alarm.id a) else ret ().

(** *** The operations *)

Definition start : prog unit :=
  started ← gets _started;
  if (started : bool) then ret ()
  else
    alarms ← store_load;
    objs ← map_each new_alarm alarms;
    rebind_alarms (foldl (λ d ao, dict_set (Alarm.id ao.1) ao.2 d) [] (zip alarms objs));;
    modify (with_started true);;
    for_each spawn_if_enabled objs.

Definition stop : prog unit :=
  tasks ← gets (λ s, dict_values (_tasks s));
  for_each cancel_task tasks;;
  for_each await_task tasks;;
  modify (with_tasks (λ _, []));;
  modify (with_started false).

Definition add_alarm (alarm : loc) : prog unit :=
  a ← deref alarm;
  d ← gets live;
  if bool_decide (is_Some (dict_get (Alarm.id a) d)) then raise ValueError
  else
    update_live (dict_set (Alarm.id a) alarm);;
    store_save;;
    started ← gets _started;
    a ← deref alarm;
    if started && Alarm.enabled a then spawn (Alarm.id a) else ret ().

Definition update_alarm (alarm : loc) : prog unit :=
  a ← deref alarm;
  d ← gets live;
  if bool_decide (is_Some (dict_get (Alarm.id a) d)) then
    update_live (dict_set (Alarm.id a) alarm);;
    store_save;;
    _reschedule (Alarm.id a)
  else raise KeyError.

Definition remove_alarm (alarm_id : string) : prog unit :=
  d ← gets live;
  if bool_decide (is_Some (dict_get alarm_id d)) then
    update_live (dict_pop alarm_id);;
    store_save;;
    _cancel alarm_id
  else raise KeyError.

Definition enable (alarm_id : string) : prog unit :=
  d ← gets live;
  match dict_get alarm_id d with
  | None => raise KeyError
  | Some alarm =>
      a ← deref alarm;
      if Alarm.enabled a then ret ()
      else
        assign_enabled alarm true;;
        store_save;;
        started ← gets _started;
        if (started : bool) then spawn alarm_id else ret ()
  end.

Definition disable (alarm_id : string) : prog unit :=
  d ← gets live;
  match dict_get alarm_id d with
  | None => raise KeyError
  | Some alarm =>
      a ← deref alarm;
      if negb (Alarm.enabled a) then ret ()
      else
        assign_enabled alarm false;;
        store_save;;
        _cancel alarm_id
  end.

Definition trigger_now (alarm_id : string) : prog unit :=
  d ← gets live;
  match dict_get alarm_id d with
  | None => raise KeyError
  | Some alarm => players_play alarm
  end.

(** [dict(self._alarms)]: a new dict object with the same items. *)
Definition snapshot : prog loc :=
  d ← gets live;
  new_dict d.

(** *** The timer task [_run_alarm]

    A task runs between two suspension points at a time. What it raises
    is kept in the task; nothing reaches the scheduler's caller. *)

(** From the top of the loop to the [sleep]: [Some pc] when the task
    suspends at [pc], [None] when it returns. *)
Definition _run_alarm_top (alarm_id : string) (now_utc : Z) : prog (option task_pc) :=
  d ← gets live;
  match dict_get alarm_id d with
  | None => ret None
  | Some alarm =>
      a ← deref alarm;
      if negb (Alarm.enabled a) then ret None
      else
        next_time ← act (λ s, (s, Alarm.next_occurrence (zones E) a now_utc));
        match next_time with
        | None =>
            assign_enabled alarm false;;
            store_save;;
            ret None
        | Some next_time => ret (Some (Waiting alarm next_time))
        end
  end.

(** From the end of the [sleep] to the top of the loop. *)
Definition _run_alarm_fire (alarm : loc) : prog (option task_pc) :=
  players_play alarm;;
  a ← deref alarm;
  if bool_decide (Alarm.repeat_days a = []) then
    assign_enabled alarm false;;
    store_save;;
    ret None
  else ret (Some LoopTop).

Definition set_status (task : loc) (st : task_status) (s : t) : t :=
  with_task_objs (alter (λ k, mk_task (task_alarm_id k) st) task) s.

(** One step of the task [task], taken at the instant [now_utc]. *)
Definition task_step (task : loc) (now_utc : Z) (s : t) : t :=
  match task_objs s !! task with
  | Some (mk_task alarm_id (Pending pc)) =>
      let '(s', r) :=
        match pc with
        | LoopTop => _run_alarm_top alarm_id now_utc s
        | Waiting alarm _ => _run_alarm_fire alarm s
        end in
      match r with
      | Ok (Some pc') => set_status task (Pending pc') s'
      | Ok None => set_status task Finished s'
      | Raise e => set_status task (Failed e) s'
      end
  | _ => s
  end.

(** *** Runs *)

(** What a caller or the event loop may do next. *)
Inductive op : Type :=
  | Start
  | Stop
  | NewAlarm (a : Alarm.t)
  | AddAlarm (alarm : loc)
  | UpdateAlarm (alarm : loc)
  | RemoveAlarm (alarm_id : string)
  | Enable (alarm_id : string)
  | Disable (alarm_id : string)
  | TriggerNow (alarm_id : string)
  | Snapshot
  | TaskStep (task : loc) (now_utc : Z).

Definition run_op (o : op) : prog unit :=
  match o with
  | Start => start
  | Stop => stop
  | NewAlarm a => new_alarm a;; ret ()
  | AddAlarm alarm => add_alarm alarm
  | UpdateAlarm alarm => update_alarm alarm
  | RemoveAlarm alarm_id => remove_alarm alarm_id
  | Enable alarm_id => enable alarm_id
  | Disable alarm_id => disable alarm_id
  | TriggerNow alarm_id => trigger_now alarm_id
  | Snapshot => snapshot;; ret ()
  | TaskStep task now_utc => modify (task_step task now_utc)
  end.

(** The state after a sequence of operations, whatever each returned. *)
Definition exec (ops : list op) (s : t) : t := foldl (λ s o, (run_op o s).1) s ops.

(** A run in which every operation returned normally. *)
Inductive clean_run (s : t) : t → Prop :=
  | clean_nil : clean_run s s
  | clean_step o s' s'' :
      clean_run s s' → run_op o s' = (s'', Ok ()) → clean_run s s''.

(** *** Invariants *)

(** Every reference held by the live mapping is to an [Alarm] instance
    whose id is the key it stands under. *)
Definition wf (s : t) : Prop :=
  is_Some (dict_objs s !! _alarms s)
  ∧ ∀ key alarm, (key, alarm) ∈ live s →
      ∃ a, alarm_objs s !! alarm = Some a ∧ Alarm.id a = key.

(** [d[key].enabled], read through the dict object [d]. *)
Definition read_enabled (s : t) (d : loc) (key : string) : option bool :=
  items ← dict_objs s !! d;
  alarm ← dict_get key items;
  Alarm.enabled <$> alarm_objs s !! alarm.

(** The relationship between the two mappings as the specification words
    it: while started, task keys are alarm keys, and an alarm has a task
    entry exactly when it is enabled. *)
Definition tasks_match_enabled (s : t) : Prop :=
  _started s = true →
  (∀ key, is_Some (dict_get key (_tasks s)) → is_Some (dict_get key (live s)))
  ∧ (∀ key alarm a, dict_get key (live s) = Some alarm →
       alarm_objs s !! alarm = Some a →
       (Alarm.enabled a = true ↔ is_Some (dict_get key (_tasks s)))).

(** The relationship the scheduler maintains: no task entry while
    stopped, task keys are alarm keys, and while started every enabled
    alarm has a task entry. *)
Definition tasks_cover_enabled (s : t) : Prop :=
  (_started s = false → ∀ key, dict_get key (_tasks s) = None)
  ∧ (∀ key, is_Some (dict_get key (_tasks s)) → is_Some (dict_get key (live s)))
  ∧ (_started s = true →
     ∀ key alarm a, dict_get key (live s) = Some alarm →
       alarm_objs s !! alarm = Some a →
       Alarm.enabled a = true → is_Some (dict_get key (_tasks s))).

End scheduler.
End Scheduler.

Arguments Scheduler.alarm_objs {E}.
Arguments Scheduler.dict_objs {E}.
Arguments Scheduler.task_objs {E}.
Arguments Scheduler._store {E}.
Arguments Scheduler._alarms {E}.
Arguments Scheduler._tasks {E}.
Arguments Scheduler._started {E}.
Arguments Scheduler.save_log {E}.
Arguments Scheduler.with_alarm_objs {E}.
Arguments Scheduler.with_dict_objs {E}.
Arguments Scheduler.with_task_objs {E}.
Arguments Scheduler.with_store {E}.
Arguments Scheduler.with_alarms {E}.
Arguments Scheduler.with_tasks {E}.
Arguments Scheduler.with_started {E}.
Arguments Scheduler.ret {E A}.
Arguments Scheduler.bind {E A B}.
Arguments Scheduler.raise {E A}.
Arguments Scheduler.gets {E A}.
Arguments Scheduler.modify {E}.
Arguments Scheduler.act {E A}.
Arguments Scheduler.for_each {E A}.
Arguments Scheduler.map_each {E A B}.
Arguments Scheduler.live {E}.
Arguments Scheduler.update_live {E}.
Arguments Scheduler.deref {E}.
Arguments Scheduler.assign_enabled {E}.
Arguments Scheduler.new_alarm {E}.
Arguments Scheduler.new_dict {E}.
Arguments Scheduler.rebind_alarms {E}.
Arguments Scheduler.store_save {E}.
Arguments Scheduler.store_load {E}.
Arguments Scheduler.players_play {E}.
Arguments Scheduler.spawn {E}.
Arguments Scheduler.spawn_if_enabled {E}.
Arguments Scheduler.cancel_task {E}.
Arguments Scheduler.await_task {E}.
Arguments Scheduler._cancel {E}.
Arguments Scheduler._reschedule {E}.
Arguments Scheduler.start {E}.
Arguments Scheduler.stop {E}.
Arguments Scheduler.add_alarm {E}.
Arguments Scheduler.update_alarm {E}.
Arguments Scheduler.remove_alarm {E}.
Arguments Scheduler.enable {E}.
Arguments Scheduler.disable {E}.
Arguments Scheduler.trigger_now {E}.
Arguments Scheduler.snapshot {E}.
Arguments Scheduler._run_alarm_top {E}.
Arguments Scheduler._run_alarm_fire {E}.
Arguments Scheduler.set_status {E}.
Arguments Scheduler.task_step {E}.
Arguments Scheduler.run_op {E}.
Arguments Scheduler.exec {E}.
Arguments Scheduler.clean_run {E}.
Arguments Scheduler.wf {E}.
Arguments Scheduler.read_enabled {E}.
Arguments Scheduler.tasks_match_enabled {E}.
Arguments Scheduler.tasks_cover_enabled {E}.

(** ** Validity of records *)

Fixpoint increasing (l : list Z) : bool :=
  match l with
  | x :: rest =>
      match rest with
      | y :: _ => (x <? y) && increasing rest
      | [] => true
      end
  | [] => true
  end.

(** Weekday indexes in range, in ascending order, without repetition. *)
Definition normalized_days (days : list Z) : bool :=
  forallb (λ d, (0 <=? d) && (d <=? 6)) days && increasing days.

(** The values an [Alarm] instance holds once constructed. *)
Definition valid_alarm (a : Alarm.t) : bool :=
  negb (bool_decide (Alarm.id a = EmptyString))
  && negb (bool_decide (Alarm.label a = EmptyString))
  && (0 <=? Alarm.hour a) && (Alarm.hour a <=? 23)
  && (0 <=? Alarm.minute a) && (Alarm.minute a <=? 59)
  && (0 <=? Alarm.second a) && (Alarm.second a <=? 59)
  && normalized_days (Alarm.repeat_days a)
  && from_option valid_date true (Alarm.start_date a)
  && negb (PrimFloat.leb (Alarm.volume a) 0%float).

(** The alarm's time of day, in microseconds since local midnight. *)
Definition local_time (a : Alarm.t) : Z :=
  ((Alarm.hour a * 60 + Alarm.minute a) * 60 + Alarm.second a) * US_PER_SECOND.

(** ** Concrete collaborators and records *)

(** Conversions that accept nothing beyond the documented field types. *)
Definition strict_builtins : builtins :=
  {| str_other := λ _, "?";
     int_of_str := λ _, Raise ValueError;
     int_of_float := λ _, Raise ValueError;
     float_of_str := λ _, Raise ValueError;
     float_of_int := λ _, Raise OverflowError;
     dict_items_other := λ _, Raise TypeError |}.

(** A store that keeps the alarms it was last given. *)
Definition memory_env : environment :=
  {| zones := utc_only;
     store := list Alarm.t;
     load := λ st, (st, Ok st);
     save := λ _ alarms, (alarms, Ok ());
     play := λ _, Ok () |}.

(** A store whose [save] fails and writes nothing. *)
Definition failing_env : environment :=
  {| zones := utc_only;
     store := list Alarm.t;
     load := λ st, (st, Ok st);
     save := λ st _, (st, Raise StorageError);
     play := λ _, Ok () |}.

Definition example_alarm (id : string) (hour minute second : Z) (repeat_days : list Z)
    (start_date : option date) (enabled : bool) : Alarm.t :=
  Alarm.mk id id hour minute second "UTC" repeat_days start_date
    MusicSettings.tone_default enabled 1%float.

(** One-shot alarms of the test suite, and a disabled one. *)
Definition morning : Alarm.t := example_alarm "morning" 9 30 0 [] None true.
Definition morning_off : Alarm.t := example_alarm "morning" 9 30 0 [] None false.
Definition doctor : Alarm.t :=
  example_alarm "doctor" 7 0 0 [] (Some (mk_date 2024 1 1)) true.

(** The repeating alarm of the test suite: Tuesdays and Thursdays at 07:30. *)
Definition gym : Alarm.t := example_alarm "gym" 7 30 0 [1; 3] None true.

(** Repeating alarms: every Tuesday at midnight, and every Tuesday at 07:30
    from 20 January 2024 on. *)
Definition tuesday_midnight : Alarm.t := example_alarm "tuesday" 0 0 0 [1] None true.
Definition tuesday_from_20th : Alarm.t :=
  example_alarm "tuesday" 7 30 0 [1] (Some (mk_date 2024 1 20)) true.

(** An alarm with a start date and source-specific parameters. *)
Definition radio : Alarm.t :=
  Alarm.mk "radio" "Morning radio" 6 45 0 "UTC" [0; 2; 4] (Some (mk_date 2024 2 29))
    (MusicSettings.mk "app" (VStr "radio-player") 440 120
       (<["station" := "jazz"]> (<["volume" := "low"]> ∅)))
    true 1%float.

(** The smallest record [from_dict] accepts, and the alarm it decodes to. *)
Definition minimal_record : gmap string pyval := {[ "id" := VStr "wake" ]}.
Definition minimal_alarm : Alarm.t :=
  Alarm.mk "wake" "wake" 0 0 0 "UTC" [] None
    (MusicSettings.mk "None" VNone 440 30 ∅) true 1%float.

(** ** Relations between states used in the proofs *)

Definition same_alarms {E : environment} (s s' : Scheduler.t E) : Prop :=
  Scheduler.alarm_objs s' = Scheduler.alarm_objs s
  ∧ Scheduler.dict_objs s' = Scheduler.dict_objs s
  ∧ Scheduler._alarms s' = Scheduler._alarms s
  ∧ Scheduler._started s' = Scheduler._started s.

Definition only_disables {E : environment} (s s' : Scheduler.t E) : Prop :=
  Scheduler.dict_objs s' = Scheduler.dict_objs s
  ∧ Scheduler._alarms s' = Scheduler._alarms s
  ∧ Scheduler._tasks s' = Scheduler._tasks s
  ∧ Scheduler._started s' = Scheduler._started s
  ∧ ∀ l, Scheduler.alarm_objs s' !! l = Scheduler.alarm_objs s !! l
         ∨ ∃ a, Scheduler.alarm_objs s !! l = Some a
                ∧ Scheduler.alarm_objs s' !! l = Some (Alarm.set_enabled false a).

(** The dict object [r] holds [d] and is not the live mapping. *)
Definition frozen {E : environment} (r : loc) (d : list (string * loc))
    (s : Scheduler.t E) : Prop :=
  r ≠ Scheduler._alarms s ∧ Scheduler.dict_objs s !! r = Some d.

(** [m] keeps [I], whatever it returns or raises. *)
Definition preserves {E : environment} {A : Type} (I : Scheduler.t E → Prop)
    (m : Scheduler.prog E A) : Prop :=
  ∀ s, I s → I (m s).1.

(** Whether every operation of a run returns normally. *)
Fixpoint all_ok {E : environment} (ops : list Scheduler.op) (s : Scheduler.t E) : bool :=
  match ops with
  | [] => true
  | o :: rest =>
      match Scheduler.run_op o s with
      | (s', Ok _) => all_ok rest s'
      | (_, Raise _) => false
      end
  end.

(** ** Concrete scheduler states *)

(** A scheduler over the failing store, and an alarm object not yet added. *)
Definition failing_before : Scheduler.t failing_env :=
  Scheduler.exec [Scheduler.NewAlarm morning] (Scheduler.__init__ failing_env []).

(** A live mapping that holds ["morning"], and a second object with that id. *)
Definition duplicate_before : Scheduler.t memory_env :=
  Scheduler.exec
    [Scheduler.NewAlarm morning; Scheduler.AddAlarm 0%nat; Scheduler.NewAlarm morning_off]
    (Scheduler.__init__ memory_env []).

(** The scenario of the test suite: a started scheduler, a one-shot alarm
    two seconds ahead, its timer task computing the occurrence and then
    firing. *)
Definition wake : Alarm.t := example_alarm "wake" 10 0 2 [] None true.
Definition wake_run : list Scheduler.op :=
  [Scheduler.Start; Scheduler.NewAlarm wake; Scheduler.AddAlarm 0%nat;
   Scheduler.TaskStep 0%nat (datetime 2024 1 1 10 0 0 0)].
Definition wake_waiting : Scheduler.t memory_env :=
  Scheduler.exec wake_run (Scheduler.__init__ memory_env []).
Definition wake_fired : Scheduler.t memory_env :=
  Scheduler.task_step 0%nat (datetime 2024 1 1 10 0 2 0) wake_waiting.

(** The update scenario: a one-shot alarm for 07:30 is scheduled on Monday
    2024-01-01 at 06:00, then replaced by an alarm with the same id that
    repeats on Tuesdays, whose new task computes its occurrence. *)
Definition gym_once : Alarm.t := example_alarm "gym" 7 30 0 [] None true.
Definition gym_tuesdays : Alarm.t := example_alarm "gym" 7 30 0 [1] None true.
Definition update_run : list Scheduler.op :=
  [Scheduler.Start; Scheduler.NewAlarm gym_once; Scheduler.AddAlarm 0%nat;
   Scheduler.TaskStep 0%nat (datetime 2024 1 1 6 0 0 0);
   Scheduler.NewAlarm gym_tuesdays; Scheduler.UpdateAlarm 1%nat;
   Scheduler.TaskStep 1%nat (datetime 2024 1 1 6 0 1 0)].
Definition after_update : Scheduler.t memory_env :=
  Scheduler.exec update_run (Scheduler.__init__ memory_env []).

(** A started scheduler holding the disabled alarm ["morning"]. *)
Definition holding_morning_off : Scheduler.t memory_env :=
  Scheduler.exec
    [Scheduler.Start; Scheduler.NewAlarm morning_off; Scheduler.AddAlarm 0%nat]
    (Scheduler.__init__ memory_env []).

(** ** The player registry ([players.py]) *)

(** A player acts on the world outside the program (the sound device, the
    processes it launches), of some type [W], and may raise. *)
Module PlayerRegistry.
Section registry.
Context (W : Type).

(** [BasePlayer.play(alarm, settings)]. *)
Definition BasePlayer : Type := Alarm.t → MusicSettings.t → W → W * outcome unit.

(** The field [players]: a dict from music sources to players. *)
Definition t : Type := list (string * BasePlayer).

Definition register (source : string) (player : BasePlayer) (self : t) : t :=
  dict_set source player self.

Definition play (self : t) (alarm : Alarm.t) (w : W) : W * outcome unit :=
  let settings := Alarm.music alarm in
  match dict_get (MusicSettings.source settings) self with
  | None => (w, Raise PlayerError)
  | Some player => player alarm settings w
  end.
End registry.
End PlayerRegistry.

Arguments PlayerRegistry.register {W}.
Arguments PlayerRegistry.play {W}.

(** ** The command line ([__main__.py]) *)

Module Cli.

(** What a function of the command line does: it returns, it leaves the
    program with [SystemExit(message)], or it raises an exception. *)
Inductive result (A : Type) : Type :=
  | Returns (a : A)
  | SystemExit (message : string)
  | Raises (e : exn).
Arguments Returns {A} a.
Arguments SystemExit {A} message.
Arguments Raises {A} e.

#[global] Instance result_ret : MRet result := λ A a, Returns a.
#[global] Instance result_bind : MBind result := λ A B f m,
  match m with
  | Returns a => f a
  | SystemExit message => SystemExit message
  | Raises e => Raises e
  end.

(** A call of a function of [models.py]. *)
Definition call {A : Type} (m : outcome A) : result A :=
  match m with
  | Ok a => Returns a
  | Raise e => Raises e
  end.

Definition DAY_ALIASES : list (string * Z) :=
  [("mon", 0); ("monday", 0);
   ("tue", 1); ("tuesday", 1);
   ("wed", 2); ("wednesday", 2);
   ("thu", 3); ("thursday", 3);
   ("fri", 4); ("friday", 4);
   ("sat", 5); ("saturday", 5);
   ("sun", 6); ("sunday", 6)].

(** [str.strip] and [str.lower], which work on Unicode text: they are
    taken as given. *)
Record text : Type := mk_text {
  str_strip : string → string;
  str_lower : string → string
}.

Fixpoint parse_repeat_days (T : text) (values : list string) : result (list Z) :=
  match values with
  | [] => Returns []
  | value :: rest =>
      let key := str_lower T (str_strip T value) in
      match dict_get key DAY_ALIASES with
      | None => SystemExit ("Unknown weekday: " +:+ value)
      | Some day => days ← parse_repeat_days T rest; Returns (day :: days)
      end
  end.

(** The three players of the command line, in the order of registration. *)
Definition build_registry {W : Type}
    (TonePlayer SpotifyPlayer AppLauncherPlayer : PlayerRegistry.BasePlayer W)
    : PlayerRegistry.t W :=
  PlayerRegistry.register "app" AppLauncherPlayer
    (PlayerRegistry.register "spotify" SpotifyPlayer
       (PlayerRegistry.register "tone" TonePlayer [])).

(** The [argparse.Namespace] of the [add] command. *)
Record Namespace : Type := mk_Namespace {
  id : string;
  label : option string;
  hour : Z;
  minute : Z;
  second : Z;
  timezone : string;
  repeat : option (list string);
  start_date : option string;
  music_source : string;
  music_resource : option string;
  frequency : Z;
  duration : Z;
  volume : float;
  disabled : bool
}.

(** [value or default] for an optional string: [None] and the empty
    string are false. *)
Definition str_or (value : option string) (d : string) : string :=
  match value with
  | Some s => if bool_decide (s = EmptyString) then d else s
  | None => d
  end.

Definition create_alarm_from_args (T : text) (args : Namespace) : result Alarm.t :=
  repeat_days ← parse_repeat_days T (default [] (repeat args));
  music ←
    (if bool_decide (music_source args = "tone") then
       Returns (MusicSettings.tone (frequency args) (duration args))
     else if bool_decide (music_source args = "spotify") then
       if bool_decide (str_or (music_resource args) EmptyString = EmptyString)
       then SystemExit "--music-resource is required for Spotify alarms"
       else call (MusicSettings.spotify (str_or (music_resource args) EmptyString)
                    (duration args))
     else if bool_decide (music_source args = "app") then
       if bool_decide (str_or (music_resource args) EmptyString = EmptyString)
       then SystemExit "--music-resource must point to an application or URI"
       else call (MusicSettings.app (str_or (music_resource args) EmptyString)
                    (duration args) None)
     else call (MusicSettings.custom (music_source args)
                  (str_or (music_resource args) EmptyString) (duration args) None));
  start_date ←
    (if bool_decide (str_or (start_date args) EmptyString = EmptyString)
     then Returns None
     else call (Some <$> fromisoformat (str_or (start_date args) EmptyString)));
  call (Alarm.new (id args) (str_or (label args) (id args)) (hour args) (minute args)
          (second args) (timezone args) repeat_days start_date music
          (negb (disabled args)) (volume args)).

End Cli.

(** [str.strip] and [str.lower] on ASCII text. *)
Definition ascii_lower (c : ascii) : ascii :=
  let n := nat_of_ascii c in
  if (65 <=? n)%nat && (n <=? 90)%nat then ascii_of_nat (n + 32) else c.
Definition ascii_space (c : ascii) : bool :=
  let n := nat_of_ascii c in
  ((9 <=? n)%nat && (n <=? 13)%nat) || ((28 <=? n)%nat && (n <=? 32)%nat).
Fixpoint lstrip (s : string) : string :=
  match s with
  | String c rest => if ascii_space c then lstrip rest else s
  | EmptyString => EmptyString
  end.
Fixpoint lower (s : string) : string :=
  match s with
  | String c rest => String (ascii_lower c) (lower rest)
  | EmptyString => EmptyString
  end.
Definition ascii_text : Cli.text :=
  {| Cli.str_strip := λ s, String.rev (lstrip (String.rev (lstrip s)));
     Cli.str_lower := lower |}.

(** The command line [add gym --hour 7 --minute 30 --repeat Tue " thu "
    --music-source radio --music-resource jazz]. *)
Definition gym_args : Cli.Namespace :=
  {| Cli.id := "gym"; Cli.label := None; Cli.hour := 7; Cli.minute := 30; Cli.second := 0;
     Cli.timezone := "UTC"; Cli.repeat := Some ["Tue"; " thu "]; Cli.start_date := None;
     Cli.music_source := "radio"; Cli.music_resource := Some "jazz";
     Cli.frequency := 440; Cli.duration := 30; Cli.volume := 1%float;
     Cli.disabled := false |}.
Definition gym_radio : Alarm.t :=
  Alarm.mk "gym" "gym" 7 30 0 "UTC" [1; 3] None
    (MusicSettings.mk "radio" (VStr "jazz") 440 30 ∅) true 1%float.

(** Players that do nothing but count the alarms they played. *)
Definition counting_player : PlayerRegistry.BasePlayer nat :=
  λ _ _ played, (S played, Ok ()).

(** ** Definitions used in the proofs of the further properties *)

(** The month and the day [_ord2ymd] finds from the day of the year. *)
Definition month_day (leapyear : bool) (n : Z) : Z * Z :=
  let m := Z.shiftr (n + 50) 5 in
  let preceding := _DAYS_BEFORE_MONTH m + (if (2 <? m) && leapyear then 1 else 0) in
  if n <? preceding then
    let m := m - 1 in
    let preceding :=
      preceding - (_DAYS_IN_MONTH m + (if (m =? 2) && leapyear then 1 else 0)) in
    (m, n - preceding + 1)
  else (m, n - preceding + 1).

Definition month_day_check (leapyear : bool) (n : Z) : bool :=
  let '(m, d) := month_day leapyear n in
  negb (n <? 365 + (if leapyear then 1 else 0))
  || ((1 <=? m) && (m <=? 12) && (1 <=? d)
      && (d <=? _DAYS_IN_MONTH m + (if (m =? 2) && leapyear then 1 else 0))
      && (_DAYS_BEFORE_MONTH m + (if (2 <? m) && leapyear then 1 else 0) + d =? n + 1)).

(** The alarms the live mapping holds, in the order of [self._alarms.values()]. *)
Definition live_alarms {E : environment} (s : Scheduler.t E) : list Alarm.t :=
  omap (λ alarm, Scheduler.alarm_objs s !! alarm) (dict_values (Scheduler.live s)).

(** The live mapping is keyed by the ids of the alarms it holds, each key
    once. *)
Definition keyed_by_id {E : environment} (s : Scheduler.t E) : Prop :=
  Scheduler.wf s ∧ NoDup (dict_keys (Scheduler.live s)).

(** A registry without players: every [play] raises [PlayerError]. *)
Definition silent_env : environment :=
  {| zones := utc_only;
     store := list Alarm.t;
     load := λ st, (st, Ok st);
     save := λ _ alarms, (alarms, Ok ());
     play := λ _, Raise PlayerError |}.

(** What [task.cancel()] and the [await] that follows leave of a task. *)
Definition cancelled (k : task) : task :=
  match status k with
  | Pending _ => mk_task (task_alarm_id k) Finished
  | _ => k
  end.

(** The one-shot scenario over the registry without players. *)
Definition wake_waiting_silent : Scheduler.t silent_env :=
  Scheduler.exec wake_run (Scheduler.__init__ silent_env []).

(** An alarm in a zone the database does not know. *)
Definition olympus : Alarm.t :=
  Alarm.mk "olympus" "olympus" 7 0 0 "Mars/Olympus" [] None MusicSettings.tone_default
    true 1%float.
Definition olympus_added : Scheduler.t memory_env :=
  Scheduler.exec
    [Scheduler.Start; Scheduler.NewAlarm olympus; Scheduler.AddAlarm 0%nat]
    (Scheduler.__init__ memory_env []).

(** [self._alarms] updated in place by [f]; the state after
    [await self._store.save(self._alarms.values())] and what that call
    returns, when every alarm of the live mapping is allocated. *)
Definition with_live {E : environment} (f : list (string * loc) → list (string * loc))
    (s : Scheduler.t E) : Scheduler.t E :=
  Scheduler.with_dict_objs <[Scheduler._alarms s := f (Scheduler.live s)]> s.
Definition saved {E : environment} (s : Scheduler.t E) : Scheduler.t E :=
  Scheduler.with_store (save E (Scheduler._store s) (live_alarms s)).1
    (Some (live_alarms s)) s.
Definition save_result {E : environment} (s : Scheduler.t E) : outcome unit :=
  (save E (Scheduler._store s) (live_alarms s)).2.

(** The state after [self._tasks[alarm_id] = asyncio.create_task(...)]. *)
Definition spawned {E : environment} (alarm_id : string) (s : Scheduler.t E)
    : Scheduler.t E :=
  (Scheduler.spawn alarm_id s).1.

(** The state after [await self._cancel(alarm_id)]. *)
Definition cancelled_in {E : environment} (alarm_id : string) (s : Scheduler.t E)
    : Scheduler.t E :=
  match dict_get alarm_id (Scheduler._tasks s) with
  | None => s
  | Some task =>
      Scheduler.with_task_objs (alter cancelled task)
        (Scheduler.with_tasks (dict_pop alarm_id) s)
  end.

(** The update scenario just before [update_alarm]: the one-shot alarm is
    scheduled, and the alarm that is to replace it exists. *)
Definition update_ready : Scheduler.t memory_env :=
  Scheduler.exec (take 5 update_run) (Scheduler.__init__ memory_env []).

(** A started scheduler and an alarm object that is not yet added. *)
Definition wake_ready : Scheduler.t memory_env :=
  Scheduler.exec [Scheduler.Start; Scheduler.NewAlarm wake]
    (Scheduler.__init__ memory_env []).

(** The alarm a pending timer task of [alarm_id] stands for: the alarm
    under that id in the live mapping, enabled, and the very object the
    task holds while it waits. *)
Definition alarm_ok {E : environment} (s : Scheduler.t E) (alarm_id : string)
    (pc : task_pc) : Prop :=
  ∃ alarm a,
    dict_get alarm_id (Scheduler.live s) = Some alarm
    ∧ Scheduler.alarm_objs s !! alarm = Some a
    ∧ Alarm.enabled a = true
    ∧ match pc with
      | Waiting held _ => held = alarm
      | LoopTop => True
      end.

(** Every pending timer task is the task registered under its id in the
    task mapping of a started scheduler. *)
Definition registered {E : environment} (s : Scheduler.t E) : Prop :=
  ∀ task alarm_id pc,
    Scheduler.task_objs s !! task = Some (mk_task alarm_id (Pending pc)) →
    Scheduler._started s = true ∧ dict_get alarm_id (Scheduler._tasks s) = Some task.

Definition tasks_track_enabled {E : environment} (s : Scheduler.t E) : Prop :=
  ∀ task alarm_id pc,
    Scheduler.task_objs s !! task = Some (mk_task alarm_id (Pending pc)) →
    (Scheduler._started s = true ∧ dict_get alarm_id (Scheduler._tasks s) = Some task)
    ∧ alarm_ok s alarm_id pc.

(** The store of a stopped scheduler holds alarms of distinct ids. *)
Definition unique_load {E : environment} (s : Scheduler.t E) : Prop :=
  ∀ st alarms,
    Scheduler._started s = false →
    load E (Scheduler._store s) = (st, Ok alarms) → NoDup (Alarm.id <$> alarms).

(** A run in which every operation returned normally and every [start]
    found alarms of distinct ids in the store. *)
Inductive orderly_run {E : environment} (s : Scheduler.t E) : Scheduler.t E → Prop :=
  | orderly_nil : orderly_run s s
  | orderly_step o s' s'' :
      orderly_run s s' →
      (o = Scheduler.Start → unique_load s') →
      Scheduler.run_op o s' = (s'', Ok ()) →
      orderly_run s s''.

(* ===================================================================== *)
(** * Part II. Properties *)
(* ===================================================================== *)

(** ** The occurrence calculator *)

Lemma time_of_valid_alarm (a : Alarm.t) :
  valid_alarm a = true →
  time (Alarm.hour a) (Alarm.minute a) (Alarm.second a) = Ok (local_time a).
Proof.
  unfold valid_alarm, time, local_time. intros Hv.
  repeat (apply andb_prop in Hv as [Hv ?]).
  by repeat (rewrite (proj2 (andb_true_iff _ _)); [|split; try done]).
Qed.

Section one_shot.
Context (db : zone_db) (a : Alarm.t) (now : Z) (tz : tzinfo) (localized_now limit : Z).
Hypothesis a_valid : valid_alarm a = true.
Hypothesis a_once : Alarm.repeat_days a = [].
Hypothesis a_zone : db (Alarm.timezone a) = Some tz.
Hypothesis now_local : astimezone tz now = Ok localized_now.

Lemma next_occurrence_once_unfold :
  Alarm.next_occurrence db a now =
  if negb (Alarm.enabled a) then Ok None
  else
    let today := date_of localized_now in
    if match Alarm.start_date a with
       | Some start => date_ltb start today
       | None => false
       end
    then Ok None
    else
      occurrence ← Alarm.combine tz (local_time a) (default today (Alarm.start_date a));
      limit ← datetime_add now GRACE;
      if occurrence <=? limit then
        if bool_decide (is_Some (Alarm.start_date a)) then Ok None
        else
          tomorrow ← date_add_days today 1;
          Some <$> Alarm.combine tz (local_time a) tomorrow
      else Ok (Some occurrence).
Proof.
  unfold Alarm.next_occurrence, ZoneInfo.
  rewrite a_zone. cbn [mbind outcome_bind].
  rewrite now_local. cbn [mbind outcome_bind].
  rewrite (time_of_valid_alarm a a_valid). cbn [mbind outcome_bind].
  rewrite a_once. cbv zeta.
  destruct (Alarm.enabled a); cbn [negb]; [|reflexivity].
  destruct (Alarm.start_date a) as [start|]; [|reflexivity].
  rewrite (bool_decide_eq_true_2 (@nil Z = [])), andb_true_r by done.
  reflexivity.
Qed.

(** C1, as amended: an enabled one-shot alarm without start date gives
    today's local alarm time (as a UTC instant) when that lies more than
    the grace window after [now], and tomorrow's otherwise. *)
Theorem once_without_start_date :
  Alarm.enabled a = true →
  Alarm.start_date a = None →
  datetime_add now GRACE = Ok limit →
  (∀ t, Alarm.combine tz (local_time a) (date_of localized_now) = Ok t →
        limit < t →
        Alarm.next_occurrence db a now = Ok (Some t))
  ∧ (∀ t tomorrow t',
        Alarm.combine tz (local_time a) (date_of localized_now) = Ok t →
        t ≤ limit →
        date_add_days (date_of localized_now) 1 = Ok tomorrow →
        Alarm.combine tz (local_time a) tomorrow = Ok t' →
        Alarm.next_occurrence db a now = Ok (Some t')).
Proof.
  intros Hen Hstart Hlimit.
  rewrite next_occurrence_once_unfold, Hen, Hstart.
  cbv zeta. cbn [negb from_option id].
  rewrite (bool_decide_eq_false_2 (is_Some None)) by (by intros [? ?]).
  split.
  - intros t -> Hlt. cbn [mbind outcome_bind]. rewrite Hlimit. cbn [mbind outcome_bind].
    destruct (Z.leb_spec t limit); [lia|reflexivity].
  - intros t tomorrow t' -> Hle -> Ht'.
    cbn [mbind outcome_bind]. rewrite Hlimit. cbn [mbind outcome_bind].
    destruct (Z.leb_spec t limit); [|lia]. rewrite Ht'. reflexivity.
Qed.

(** C4: a one-shot alarm whose start date lies before the local date of
    [now] has no next occurrence, and neither has one whose start date's
    instant is not after [now + 0.5s]: it does not roll to the next day. *)
Theorem once_with_past_start_date (start : date) :
  Alarm.start_date a = Some start →
  (date_ltb start (date_of localized_now) = true →
     Alarm.next_occurrence db a now = Ok None)
  ∧ (∀ t, Alarm.combine tz (local_time a) start = Ok t →
          datetime_add now GRACE = Ok limit →
          t ≤ limit →
          Alarm.next_occurrence db a now = Ok None).
Proof.
  intros Hstart. rewrite next_occurrence_once_unfold, Hstart.
  cbv zeta. cbn [from_option id].
  rewrite (bool_decide_eq_true_2 (is_Some (Some start))) by eauto.
  split.
  - intros ->. destruct (Alarm.enabled a); reflexivity.
  - intros t -> -> Hle. cbn [mbind outcome_bind].
    destruct (Z.leb_spec t limit); [|lia].
    destruct (Alarm.enabled a), (date_ltb start (date_of localized_now)); reflexivity.
Qed.
End one_shot.

Lemma once_without_start_date_witness :
  Alarm.next_occurrence utc_only morning (datetime 2024 1 1 8 0 0 0)
    = Ok (Some (datetime 2024 1 1 9 30 0 0))
  ∧ Alarm.next_occurrence utc_only morning (datetime 2024 1 1 10 0 0 0)
    = Ok (Some (datetime 2024 1 2 9 30 0 0)).
Proof.
  split.
  - refine (proj1 (once_without_start_date utc_only morning
                     (datetime 2024 1 1 8 0 0 0) UTC
                     (datetime 2024 1 1 8 0 0 0) (datetime 2024 1 1 8 0 0 500000)
                     _ _ _ _ _ _ _) (datetime 2024 1 1 9 30 0 0) _ _);
      vm_compute; reflexivity.
  - refine (proj2 (once_without_start_date utc_only morning
                     (datetime 2024 1 1 10 0 0 0) UTC
                     (datetime 2024 1 1 10 0 0 0) (datetime 2024 1 1 10 0 0 500000)
                     _ _ _ _ _ _ _)
                  (datetime 2024 1 1 9 30 0 0) (mk_date 2024 1 2)
                  (datetime 2024 1 2 9 30 0 0) _ _ _ _);
      vm_compute; (reflexivity || discriminate).
Defined.

(** C1 as stated fails for a disabled alarm: at 08:00 the alarm set for
    09:30 has today's instant more than the grace window ahead, and the
    calculator answers [None]. *)
Lemma disabled_once_has_no_occurrence :
  Alarm.repeat_days morning_off = []
  ∧ Alarm.start_date morning_off = None
  ∧ date_of <$> astimezone UTC (datetime 2024 1 1 8 0 0 0) = Ok (mk_date 2024 1 1)
  ∧ Alarm.combine UTC (local_time morning_off) (mk_date 2024 1 1)
    = Ok (datetime 2024 1 1 9 30 0 0)
  ∧ datetime 2024 1 1 8 0 0 0 + GRACE < datetime 2024 1 1 9 30 0 0
  ∧ Alarm.next_occurrence utc_only morning_off (datetime 2024 1 1 8 0 0 0) = Ok None.
Proof. repeat split; vm_compute; reflexivity. Qed.

Lemma once_with_past_start_date_witness :
  Alarm.next_occurrence utc_only doctor (datetime 2024 1 2 8 0 0 0) = Ok None
  ∧ Alarm.next_occurrence utc_only doctor (datetime 2024 1 1 7 0 0 0) = Ok None.
Proof.
  split.
  - refine (proj1 (once_with_past_start_date utc_only doctor
                     (datetime 2024 1 2 8 0 0 0) UTC
                     (datetime 2024 1 2 8 0 0 0) 0 _ _ _ _ (mk_date 2024 1 1) _) _);
      vm_compute; reflexivity.
  - refine (proj2 (once_with_past_start_date utc_only doctor
                     (datetime 2024 1 1 7 0 0 0) UTC
                     (datetime 2024 1 1 7 0 0 0) (datetime 2024 1 1 7 0 0 500000)
                     _ _ _ _ (mk_date 2024 1 1) _)
                  (datetime 2024 1 1 7 0 0 0) _ _ _);
      vm_compute; (reflexivity || discriminate).
Defined.

(** C2 (defect in the code): on Monday 2024-01-01 at 23:59:59.7 UTC the
    alarm for Tuesdays at midnight is rejected by the seven-day scan (it is
    not after [now + 0.5s]) and then returned by the fallback all the same:
    the result is only 0.3 seconds after [now]. *)
Lemma repeating_fallback_inside_grace :
  Alarm.next_occurrence utc_only tuesday_midnight (datetime 2024 1 1 23 59 59 700000)
    = Ok (Some (datetime 2024 1 2 0 0 0 0))
  ∧ Alarm.scan tuesday_midnight UTC (local_time tuesday_midnight)
      (mk_date 2024 1 1) (mk_date 2024 1 1) (datetime 2024 1 1 23 59 59 700000) (seqZ 0 7)
    = Ok None
  ∧ datetime 2024 1 2 0 0 0 0 < datetime 2024 1 1 23 59 59 700000 + GRACE.
Proof. repeat split; vm_compute; reflexivity. Qed.

(** C3 (defect in the code): on Monday 2024-01-01 the alarm for Tuesdays at
    07:30 with start date 2024-01-20 finds no date in the seven-day scan,
    and the fallback returns Tuesday 2024-01-02, before the start date. *)
Lemma repeating_fallback_before_start_date :
  Alarm.next_occurrence utc_only tuesday_from_20th (datetime 2024 1 1 6 0 0 0)
    = Ok (Some (datetime 2024 1 2 7 30 0 0))
  ∧ date_of <$> astimezone UTC (datetime 2024 1 2 7 30 0 0) = Ok (mk_date 2024 1 2)
  ∧ date_ltb (mk_date 2024 1 2) (mk_date 2024 1 20) = true.
Proof. repeat split; vm_compute; reflexivity. Qed.

(** ** Records: encoding and decoding *)

Lemma bind_Ok {A B : Type} (m : outcome A) (f : A → outcome B) (b : B) :
  m ≫= f = Ok b → ∃ a, m = Ok a ∧ f a = Ok b.
Proof. destruct m as [a|e]; simpl; [eauto|done]. Qed.

Lemma fmap_Ok {A B : Type} (m : outcome A) (f : A → B) (b : B) :
  f <$> m = Ok b → ∃ a, m = Ok a ∧ b = f a.
Proof. destruct m as [a|e]; simpl; [|done]. intros [= <-]. eauto. Qed.

(** *** Dates as text *)

Lemma digit_val_char (n : Z) : 0 ≤ n ≤ 9 → digit_val (digit_char n) = Some n.
Proof.
  intros Hn.
  assert (n = 0 ∨ n = 1 ∨ n = 2 ∨ n = 3 ∨ n = 4 ∨ n = 5 ∨ n = 6 ∨ n = 7 ∨ n = 8 ∨ n = 9)
    as Hcases by lia.
  repeat (destruct Hcases as [->|Hcases]; [reflexivity|]).
  by subst.
Qed.

Lemma digits2_pad (n : Z) :
  0 ≤ n ≤ 99 → digits2 (digit_char (n / 10 mod 10)) (digit_char (n mod 10)) = Some n.
Proof.
  intros Hn. unfold digits2.
  rewrite !digit_val_char by (Z.div_mod_to_equations; lia). simpl.
  f_equal. Z.div_mod_to_equations. lia.
Qed.

Lemma digits4_pad (n : Z) :
  0 ≤ n ≤ 9999 →
  digits4 (digit_char (n / 1000 mod 10)) (digit_char (n / 100 mod 10))
          (digit_char (n / 10 mod 10)) (digit_char (n mod 10)) = Some n.
Proof.
  intros Hn. unfold digits4, digits2.
  rewrite !digit_val_char by (Z.div_mod_to_equations; lia). simpl.
  f_equal. Z.div_mod_to_equations. lia.
Qed.

Lemma valid_date_bounds (d : date) :
  valid_date d = true →
  1 ≤ year d ≤ 9999 ∧ 1 ≤ month d ≤ 12 ∧ 1 ≤ day d ≤ 31.
Proof.
  unfold valid_date, MINYEAR, MAXYEAR, _days_in_month. intros Hv.
  repeat (apply andb_prop in Hv as [Hv ?]).
  assert (_DAYS_IN_MONTH (month d) ≤ 31).
  { unfold _DAYS_IN_MONTH. repeat case_match; lia. }
  destruct ((month d =? 2) && _is_leap (year d)); lia.
Qed.

(** [date.fromisoformat(d.isoformat()) == d]. *)
Lemma fromisoformat_isoformat (d : date) :
  valid_date d = true → fromisoformat (isoformat d) = Ok d.
Proof.
  intros Hv. destruct (valid_date_bounds d Hv) as (Hy & Hm & Hd).
  destruct d as [y m dd]. simpl in *.
  unfold isoformat, pad4, pad2. simpl.
  rewrite digits4_pad, !digits2_pad by lia.
  by rewrite Hv.
Qed.

Lemma isoformat_truthy (d : date) : py_bool (VStr (isoformat d)) = true.
Proof. reflexivity. Qed.

(** *** Repeat days *)

Lemma increasing_cons (x : Z) (l : list Z) :
  increasing (x :: l) = true → Forall (Z.lt x) l ∧ increasing l = true.
Proof.
  revert x. induction l as [|y l IH]; intros x; [by split|].
  simpl. intros [Hxy Hl]%andb_prop. split; [|done].
  apply IH in Hl as [Hl _].
  constructor; [lia|]. eapply Forall_impl; [done|]. simpl. lia.
Qed.

Lemma increasing_sorted (l : list Z) : increasing l = true → Sorted Z.le l.
Proof.
  induction l as [|x l IH]; [constructor|].
  intros [Hx Hl]%increasing_cons. constructor; [auto|].
  destruct Hx; constructor. lia.
Qed.

Lemma increasing_NoDup (l : list Z) : increasing l = true → NoDup l.
Proof.
  induction l as [|x l IH]; [constructor|].
  intros [Hx Hl]%increasing_cons. constructor; [|auto].
  intros Hin. rewrite Forall_forall in Hx. specialize (Hx x Hin). lia.
Qed.

Lemma sorted_increasing (l : list Z) : increasing l = true → sorted l = l.
Proof.
  intros Hl. unfold sorted.
  apply (Sorted_unique Z.le); [apply _ .. | | |].
  - apply Sorted_merge_sort, _.
  - by apply increasing_sorted.
  - apply merge_sort_Permutation.
Qed.

Lemma _normalize_days_loop_fresh (days seen normalized : list Z) :
  Forall (λ d, 0 ≤ d ≤ 6) days → NoDup days → (∀ d, d ∈ days → d ∉ seen) →
  _normalize_days_loop days seen normalized = Ok (normalized ++ days)%list.
Proof.
  revert seen normalized.
  induction days as [|d days IH]; intros seen normalized Hrange Hnd Hseen; simpl.
  { by rewrite app_nil_r. }
  inversion_clear Hrange as [|?? Hd Hrange'].
  inversion_clear Hnd as [|?? Hd' Hnd'].
  destruct (Z.ltb_spec d 0); [lia|]. destruct (Z.ltb_spec 6 d); [lia|]. simpl.
  rewrite bool_decide_eq_false_2 by (apply Hseen; left).
  rewrite IH, <- app_assoc; [done..|].
  intros x Hx [->|Hin]%elem_of_cons; [done|].
  apply (Hseen x); [by right|done].
Qed.

(** Normalising normalised repeat days changes nothing. *)
Lemma _normalize_days_normalized (days : list Z) :
  normalized_days days = true → _normalize_days days = Ok days.
Proof.
  unfold normalized_days. intros [Hrange Hinc]%andb_prop.
  destruct days as [|d days]; [done|].
  unfold _normalize_days.
  rewrite _normalize_days_loop_fresh; simpl.
  - by rewrite sorted_increasing.
  - apply Forall_forall. intros x Hx%list_elem_of_In.
    rewrite forallb_forall in Hrange. specialize (Hrange x Hx). lia.
  - by apply increasing_NoDup.
  - intros x _. apply not_elem_of_nil.
Qed.

(** *** Round trips *)

Section records.
Context (B : builtins).

Lemma mapM_py_int_ints (l : list Z) :
  mapM_outcome (py_int B) (List.filter (λ value, negb (py_is_none value)) (VInt <$> l))
  = Ok l.
Proof.
  induction l as [|x l IH]; [done|].
  rewrite fmap_cons. cbn [List.filter negb py_is_none mapM_outcome py_int mbind outcome_bind].
  by rewrite IH.
Qed.

Lemma str_items_foldr (items : list (pyval * pyval)) :
  MusicSettings.str_items B items
  = foldr (λ kv acc, <[py_str B kv.1 := py_str B kv.2]> acc) ∅ (reverse items).
Proof.
  unfold MusicSettings.str_items. generalize (∅ : gmap string string).
  induction items as [|kv items IH]; intros acc; simpl; [done|].
  by rewrite IH, reverse_cons, foldr_app.
Qed.

Lemma str_items_list_to_map (l : list (string * pyval)) :
  foldr (λ kv acc, <[py_str B kv.1 := py_str B kv.2]> acc) (∅ : gmap string string)
        (prod_map VStr id <$> l)
  = list_to_map (prod_map id (py_str B) <$> l).
Proof.
  induction l as [|[k v] l IH]; [done|].
  rewrite !fmap_cons. cbn [foldr]. rewrite IH. done.
Qed.

(** The comprehension over the items of a string-keyed dict maps [str]
    over its values. *)
Lemma str_items_dict (m : gmap string pyval) :
  MusicSettings.str_items B (prod_map VStr id <$> map_to_list m) = py_str B <$> m.
Proof.
  rewrite str_items_foldr, <- fmap_reverse, str_items_list_to_map.
  rewrite list_to_map_fmap. f_equal.
  rewrite <- (list_to_map_to_list m) at 2.
  symmetry. apply list_to_map_proper.
  - apply NoDup_fst_map_to_list.
  - symmetry. apply reverse_Permutation.
Qed.

Lemma music_to_dict_lookup (m : MusicSettings.t) :
  let d := MusicSettings.to_dict m in
  d !! "source" = Some (VStr (MusicSettings.source m))
  ∧ d !! "resource" = Some (MusicSettings.resource m)
  ∧ d !! "tone_frequency_hz" = Some (VInt (MusicSettings.tone_frequency_hz m))
  ∧ d !! "tone_duration_seconds" = Some (VInt (MusicSettings.tone_duration_seconds m))
  ∧ d !! "extra" = Some (VDict (VStr <$> MusicSettings.extra m)).
Proof.
  unfold MusicSettings.to_dict.
  repeat split; repeat (rewrite lookup_insert_ne by done); apply lookup_insert_eq.
Qed.

Lemma music_roundtrip (m : MusicSettings.t) :
  MusicSettings.from_dict B (MusicSettings.to_dict m) = Ok m.
Proof.
  destruct (music_to_dict_lookup m) as (Hs & Hr & Hf & Hd & He).
  unfold MusicSettings.from_dict, py_get, py_get_default.
  rewrite Hs, Hr, Hf, Hd, He.
  cbn [from_option id py_int py_str py_dict_items mbind outcome_bind].
  rewrite str_items_dict, <- map_fmap_compose.
  rewrite (map_fmap_id (MusicSettings.extra m)).
  by destruct m.
Qed.

Lemma alarm_to_dict_lookup (a : Alarm.t) :
  let d := Alarm.to_dict a in
  d !! "id" = Some (VStr (Alarm.id a))
  ∧ d !! "label" = Some (VStr (Alarm.label a))
  ∧ d !! "hour" = Some (VInt (Alarm.hour a))
  ∧ d !! "minute" = Some (VInt (Alarm.minute a))
  ∧ d !! "second" = Some (VInt (Alarm.second a))
  ∧ d !! "timezone" = Some (VStr (Alarm.timezone a))
  ∧ d !! "repeat_days" = Some (VList (VInt <$> Alarm.repeat_days a))
  ∧ d !! "start_date" = Some (match Alarm.start_date a with
                              | Some d => VStr (isoformat d)
                              | None => VNone
                              end)
  ∧ d !! "music" = Some (VDict (MusicSettings.to_dict (Alarm.music a)))
  ∧ d !! "enabled" = Some (VBool (Alarm.enabled a))
  ∧ d !! "volume" = Some (VFloat (Alarm.volume a)).
Proof.
  unfold Alarm.to_dict.
  repeat split; repeat (rewrite lookup_insert_ne by done); apply lookup_insert_eq.
Qed.

(** A valid alarm passes [__post_init__] unchanged. *)
Lemma post_init_valid (a : Alarm.t) :
  valid_alarm a = true → Alarm.__post_init__ a = Ok a.
Proof.
  unfold valid_alarm, Alarm.__post_init__. intros Hv.
  repeat (apply andb_prop in Hv as [Hv ?]).
  destruct (bool_decide (Alarm.id a = EmptyString)); [done|].
  destruct (bool_decide (Alarm.label a = EmptyString)); [done|].
  destruct (PrimFloat.leb (Alarm.volume a) 0); [done|].
  rewrite _normalize_days_normalized by done.
  repeat match goal with H : (_ <=? _) = true |- _ => rewrite H; clear H end.
  by destruct a.
Qed.

(** C5: decoding the record an alarm encodes to gives the alarm back,
    field by field ([Alarm.from_dict(a.to_dict()) == a]), whatever its
    [extra] map and start date. *)
Theorem alarm_roundtrip (a : Alarm.t) :
  valid_alarm a = true → Alarm.from_dict B (Alarm.to_dict a) = Ok a.
Proof.
  intros Hv.
  destruct (alarm_to_dict_lookup a)
    as (Hid & Hlabel & Hhour & Hminute & Hsecond & Hzone & Hdays & Hstart
        & Hmusic & Hen & Hvol).
  unfold Alarm.from_dict, py_get, py_get_default, py_getitem.
  rewrite Hid, Hlabel, Hhour, Hminute, Hsecond, Hzone, Hdays, Hstart, Hmusic, Hen, Hvol.
  cbn [from_option id py_int py_str py_float py_iter py_dict mbind outcome_bind].
  assert ((if py_bool match Alarm.start_date a with
                      | Some d => VStr (isoformat d)
                      | None => VNone
                      end
           then match match Alarm.start_date a with
                      | Some d => VStr (isoformat d)
                      | None => VNone
                      end with
                | VStr s => Some <$> fromisoformat s
                | _ => Raise TypeError
                end
           else Ok None) = Ok (Alarm.start_date a)) as ->.
  { destruct (Alarm.start_date a) as [d|] eqn:Hd; [|done].
    rewrite isoformat_truthy, fromisoformat_isoformat; [done|].
    unfold valid_alarm in Hv. rewrite Hd in Hv.
    repeat (apply andb_prop in Hv as [Hv ?]). done. }
  cbn [mbind outcome_bind].
  rewrite mapM_py_int_ints. cbn [mbind outcome_bind].
  rewrite music_roundtrip. cbn [mbind outcome_bind py_bool].
  unfold Alarm.new. destruct a. exact (post_init_valid _ Hv).
Qed.

(** *** Defaults *)

Lemma post_init_fields (r a : Alarm.t) :
  Alarm.__post_init__ r = Ok a →
  Alarm.id a = Alarm.id r
  ∧ Alarm.label a
    = (if bool_decide (Alarm.label r = EmptyString) then Alarm.id r else Alarm.label r)
  ∧ Alarm.second a = Alarm.second r
  ∧ Alarm.timezone a = Alarm.timezone r
  ∧ _normalize_days (Alarm.repeat_days r) = Ok (Alarm.repeat_days a)
  ∧ Alarm.music a = Alarm.music r
  ∧ Alarm.enabled a = Alarm.enabled r
  ∧ Alarm.volume a = Alarm.volume r.
Proof.
  unfold Alarm.__post_init__.
  destruct (bool_decide _); [done|]. destruct (negb _); [done|].
  intros (days & Hdays & H)%bind_Ok.
  destruct (PrimFloat.leb _ _); [done|].
  injection H as <-. by rewrite Hdays.
Qed.

Lemma music_from_dict_defaults (payload : gmap string pyval) (m : MusicSettings.t) :
  MusicSettings.from_dict B payload = Ok m →
  (payload !! "tone_frequency_hz" = None → MusicSettings.tone_frequency_hz m = 440)
  ∧ (payload !! "tone_duration_seconds" = None → MusicSettings.tone_duration_seconds m = 30).
Proof.
  unfold MusicSettings.from_dict, py_get_default.
  intros (freq & Hfreq & H)%bind_Ok.
  apply bind_Ok in H as (duration & Hduration & H).
  apply bind_Ok in H as (items & _ & H).
  injection H as <-. cbn [MusicSettings.tone_frequency_hz MusicSettings.tone_duration_seconds].
  split; intros Habsent; rewrite Habsent in *; simpl in *; congruence.
Qed.

(** C9: a field absent from a decoded record takes its documented default:
    [second = 0], [timezone = "UTC"], [repeat_days = ()], [enabled = True],
    [volume = 1.0], the label defaults to the id, and in the music settings
    [tone_frequency_hz = 440] and [tone_duration_seconds = 30]. *)
Theorem from_dict_defaults (payload : gmap string pyval) (a : Alarm.t) :
  Alarm.from_dict B payload = Ok a →
  (payload !! "second" = None → Alarm.second a = 0)
  ∧ (payload !! "timezone" = None → Alarm.timezone a = "UTC")
  ∧ (payload !! "repeat_days" = None → Alarm.repeat_days a = [])
  ∧ (payload !! "enabled" = None → Alarm.enabled a = true)
  ∧ (payload !! "volume" = None → Alarm.volume a = 1%float)
  ∧ (payload !! "label" = None → Alarm.label a = Alarm.id a)
  ∧ (∀ music_payload,
       py_dict B (py_get_default payload "music" (VDict ∅)) = Ok music_payload →
       (music_payload !! "tone_frequency_hz" = None →
          MusicSettings.tone_frequency_hz (Alarm.music a) = 440)
       ∧ (music_payload !! "tone_duration_seconds" = None →
            MusicSettings.tone_duration_seconds (Alarm.music a) = 30)).
Proof.
  unfold Alarm.from_dict, Alarm.new, py_get_default.
  intros (start & _ & H)%bind_Ok.
  apply bind_Ok in H as (id_value & _ & H).
  apply bind_Ok in H as (hour & _ & H).
  apply bind_Ok in H as (minute & _ & H).
  apply bind_Ok in H as (second & Hsecond & H).
  apply bind_Ok in H as (values & Hvalues & H).
  apply bind_Ok in H as (days & Hdays & H).
  apply bind_Ok in H as (music_payload & Hpayload & H).
  apply bind_Ok in H as (music & Hmusic & H).
  apply bind_Ok in H as (volume & Hvolume & H).
  apply post_init_fields in H
    as (Hid & Hlabel & Hsec & Hzone & Hnorm & Hmus & Hen & Hvol).
  cbn [Alarm.id Alarm.label Alarm.second Alarm.timezone Alarm.repeat_days
       Alarm.music Alarm.enabled Alarm.volume] in *.
  repeat split.
  - intros Habsent. rewrite Habsent in Hsecond. simpl in Hsecond. congruence.
  - intros Habsent. rewrite Habsent in Hzone. done.
  - intros Habsent. rewrite Habsent in Hvalues. simpl in Hvalues.
    injection Hvalues as <-. simpl in Hdays. injection Hdays as <-.
    simpl in Hnorm. congruence.
  - intros Habsent. rewrite Habsent in Hen. done.
  - intros Habsent. rewrite Habsent in Hvolume. simpl in Hvolume. congruence.
  - intros Habsent. rewrite Habsent in Hlabel. simpl in Hlabel.
    rewrite Hlabel, Hid. by destruct (bool_decide _).
  - rewrite Hmus. rewrite H in Hpayload. injection Hpayload as ->.
    by apply (music_from_dict_defaults music_payload).
  - rewrite Hmus. rewrite H in Hpayload. injection Hpayload as ->.
    by apply (music_from_dict_defaults music_payload).
Qed.
End records.

Lemma alarm_roundtrip_witness :
  Alarm.from_dict strict_builtins (Alarm.to_dict radio) = Ok radio.
Proof. apply alarm_roundtrip. vm_compute. reflexivity. Defined.

Lemma from_dict_defaults_witness :
  Alarm.from_dict strict_builtins minimal_record = Ok minimal_alarm
  ∧ Alarm.second minimal_alarm = 0
  ∧ Alarm.timezone minimal_alarm = "UTC"
  ∧ Alarm.repeat_days minimal_alarm = []
  ∧ Alarm.enabled minimal_alarm = true
  ∧ Alarm.volume minimal_alarm = 1%float
  ∧ Alarm.label minimal_alarm = Alarm.id minimal_alarm
  ∧ MusicSettings.tone_frequency_hz (Alarm.music minimal_alarm) = 440
  ∧ MusicSettings.tone_duration_seconds (Alarm.music minimal_alarm) = 30.
Proof.
  assert (Alarm.from_dict strict_builtins minimal_record = Ok minimal_alarm) as Hdecode
    by (vm_compute; reflexivity).
  split; [exact Hdecode|].
  destruct (from_dict_defaults strict_builtins minimal_record minimal_alarm Hdecode)
    as (Hsecond & Hzone & Hdays & Hen & Hvol & Hlabel & Hmusic).
  destruct (Hmusic ∅ ltac:(vm_compute; reflexivity)) as [Hfreq Hduration].
  split; [apply Hsecond; vm_compute; reflexivity|].
  split; [apply Hzone; vm_compute; reflexivity|].
  split; [apply Hdays; vm_compute; reflexivity|].
  split; [apply Hen; vm_compute; reflexivity|].
  split; [apply Hvol; vm_compute; reflexivity|].
  split; [apply Hlabel; vm_compute; reflexivity|].
  split; [apply Hfreq | apply Hduration]; vm_compute; reflexivity.
Defined.

(** ** Dictionaries *)

Section dict_facts.
Context {V : Type}.
Implicit Types (d : list (string * V)) (k : string) (v : V).

Lemma dict_get_set_eq k v d : dict_get k (dict_set k v d) = Some v.
Proof.
  induction d as [|[k' v'] d IH]; simpl.
  - by rewrite decide_True.
  - destruct (decide (k' = k)); simpl; [by rewrite decide_True|].
    by rewrite decide_False.
Qed.

Lemma dict_get_set_ne k k' v d : k ≠ k' → dict_get k' (dict_set k v d) = dict_get k' d.
Proof.
  intros Hne. induction d as [|[k'' v'] d IH]; simpl.
  - by rewrite decide_False.
  - destruct (decide (k'' = k)) as [->|]; simpl.
    + by rewrite !decide_False.
    + by rewrite IH.
Qed.

Lemma dict_get_set k k' v d :
  dict_get k' (dict_set k v d) = if decide (k = k') then Some v else dict_get k' d.
Proof.
  destruct (decide (k = k')) as [->|]; [apply dict_get_set_eq|by apply dict_get_set_ne].
Qed.

Lemma dict_get_pop k k' d :
  dict_get k' (dict_pop k d) = if decide (k = k') then None else dict_get k' d.
Proof.
  unfold dict_pop. induction d as [|[k'' v'] d IH]; simpl.
  - by destruct (decide (k = k')).
  - rewrite filter_cons. simpl. destruct (decide (k'' ≠ k)) as [Hne|Heq]; simpl.
    + rewrite IH. destruct (decide (k = k')), (decide (k'' = k')); congruence.
    + apply dec_stable in Heq as ->. rewrite IH.
      destruct (decide (k = k')); [done|congruence].
Qed.

Lemma dict_get_elem k v d : dict_get k d = Some v → (k, v) ∈ d.
Proof.
  induction d as [|[k' v'] d IH]; simpl; [done|].
  destruct (decide (k' = k)) as [->|].
  - intros [= ->]. left.
  - intros Hd. right. auto.
Qed.

Lemma elem_of_dict_set k v k' v' d :
  (k', v') ∈ dict_set k v d → (k', v') = (k, v) ∨ (k', v') ∈ d.
Proof.
  induction d as [|[k'' v''] d IH]; simpl.
  - intros ->%list_elem_of_singleton. by left.
  - destruct (decide (k'' = k)) as [->|].
    + intros [->|Hin]%elem_of_cons; [by left|]. right. by right.
    + intros [->|Hin]%elem_of_cons; [right; left|].
      destruct (IH Hin); [by left|]. right. by right.
Qed.

Lemma elem_of_dict_pop k k' v' d : (k', v') ∈ dict_pop k d → (k', v') ∈ d.
Proof. unfold dict_pop. by intros [_ ?]%list_elem_of_filter. Qed.

Lemma elem_of_dict_values v d : v ∈ dict_values d → ∃ k, (k, v) ∈ d.
Proof.
  unfold dict_values. intros ([k v''] & -> & Hin)%list_elem_of_fmap. by exists k.
Qed.
End dict_facts.

(** ** The scheduler *)

Section scheduler_facts.
Import Scheduler.
Context {E : environment}.
Implicit Types (s : t E) (alarm task : loc) (key alarm_id : string).

Ltac run := unfold mbind, prog_bind, bind, gets, modify, ret, raise, act.

Lemma same_alarms_live s s' : same_alarms s s' → live s' = live s.
Proof. intros (_ & Hd & Ha & _). unfold live. by rewrite Hd, Ha. Qed.

Lemma same_alarms_refl s : same_alarms s s.
Proof. by repeat split. Qed.

Lemma same_alarms_trans s1 s2 s3 :
  same_alarms s1 s2 → same_alarms s2 s3 → same_alarms s1 s3.
Proof. intros (?&?&?&?) (?&?&?&?). repeat split; congruence. Qed.

Lemma map_each_deref_state (ls : list loc) s : (map_each deref ls s).1 = s.
Proof.
  induction ls as [|l ls IH]; [done|]. simpl. run. unfold deref at 1.
  destruct (alarm_objs s !! l); [|done].
  destruct (map_each deref ls s) as [s' [alarms|e]] eqn:Heq; simpl in *; by subst.
Qed.

Lemma map_each_deref_allocated (ls : list loc) s :
  Forall (λ l, is_Some (alarm_objs s !! l)) ls →
  ∃ alarms, map_each deref ls s = (s, Ok alarms).
Proof.
  induction 1 as [|l ls [a Ha] _ [alarms IH]]; [by eexists|].
  exists (a :: alarms). simpl. run. unfold deref at 1. by rewrite Ha, IH.
Qed.

(** What [store_save] changes: the store and the log. *)
Lemma store_save_same s s' r :
  store_save s = (s', r) → same_alarms s s' ∧ _tasks s' = _tasks s ∧ task_objs s' = task_objs s.
Proof.
  unfold store_save. run.
  pose proof (map_each_deref_state (dict_values (live s)) s) as Hs.
  destruct (map_each deref (dict_values (live s)) s) as [s1 [alarms|e]]; simpl in Hs; subst s1.
  - destruct (save E (_store s) alarms) as [st r']. intros [= <- <-]. by repeat split.
  - intros [= <- <-]. by repeat split.
Qed.

(** When every alarm of the live mapping is allocated, [store_save] calls
    the store and returns what it returns. *)
Lemma store_save_calls s :
  Forall (λ l, is_Some (alarm_objs s !! l)) (dict_values (live s)) →
  ∃ alarms, store_save s
    = (with_store (save E (_store s) alarms).1 (Some alarms) s, (save E (_store s) alarms).2).
Proof.
  intros [alarms Halarms]%map_each_deref_allocated. exists alarms.
  unfold store_save. run. rewrite Halarms.
  by destruct (save E (_store s) alarms).
Qed.

Lemma spawn_eq alarm_id s :
  spawn alarm_id s
  = (with_tasks (dict_set alarm_id (fresh (dom (task_objs s))))
       (with_task_objs <[fresh (dom (task_objs s)) := mk_task alarm_id (Pending LoopTop)]> s),
     Ok ()).
Proof. reflexivity. Qed.

Lemma _cancel_effect alarm_id s s' r :
  _cancel alarm_id s = (s', r) →
  same_alarms s s'
  ∧ ∀ key, dict_get key (_tasks s')
           = if decide (alarm_id = key) then None else dict_get key (_tasks s).
Proof.
  unfold _cancel. run.
  destruct (dict_get alarm_id (_tasks s)) as [task|] eqn:Htask.
  - unfold cancel_task, await_task. run. simpl.
    destruct (status <$> _) as [[| |e]|]; intros [= <- <-];
      (split; [by repeat split|]); intros key; simpl; apply dict_get_pop.
  - intros [= <- <-]. split; [by repeat split|].
    intros key. destruct (decide (alarm_id = key)); congruence.
Qed.

Lemma wf_allocated s :
  wf s → Forall (λ l, is_Some (alarm_objs s !! l)) (dict_values (live s)).
Proof.
  intros [_ Hwf]. apply Forall_forall. intros l [k Hk]%elem_of_dict_values.
  destruct (Hwf k l Hk) as (a & Ha & _). eauto.
Qed.

(** C8: adding an alarm whose id is already in the live mapping raises
    [ValueError] (the duplicate-id error) and leaves the whole state as it
    was: the live mapping, the store, and the log of [save] calls. *)
Theorem add_alarm_duplicate s alarm a :
  alarm_objs s !! alarm = Some a →
  is_Some (dict_get (Alarm.id a) (live s)) →
  add_alarm alarm s = (s, Raise ValueError).
Proof.
  intros Ha Hin. unfold add_alarm. run. unfold deref. rewrite Ha.
  by rewrite bool_decide_eq_true_2.
Qed.

Lemma live_update (f : list (string * loc) → list (string * loc)) s :
  live (with_dict_objs <[_alarms s := f (live s)]> s) = f (live s).
Proof. unfold live at 1. simpl. by rewrite lookup_insert_eq. Qed.

Lemma store_save_fails s e :
  Forall (λ l, is_Some (alarm_objs s !! l)) (dict_values (live s)) →
  (∀ alarms, (save E (_store s) alarms).2 = Raise e) →
  ∃ st alarms, store_save s = (with_store st (Some alarms) s, Raise e).
Proof.
  intros [alarms Heq]%store_save_calls Hfail.
  exists (save E (_store s) alarms).1, alarms. by rewrite Heq, Hfail.
Qed.

Lemma allocated_dict_set s k alarm :
  wf s → is_Some (alarm_objs s !! alarm) →
  Forall (λ l, is_Some (alarm_objs s !! l)) (dict_values (dict_set k alarm (live s))).
Proof.
  intros [_ Hwf] Halarm. apply Forall_forall.
  intros l [k' [[= -> ->]|Hk]%elem_of_dict_set]%elem_of_dict_values; [done|].
  destruct (Hwf k' l Hk) as (a & Ha & _). eauto.
Qed.

Lemma allocated_dict_pop s k :
  wf s → Forall (λ l, is_Some (alarm_objs s !! l)) (dict_values (dict_pop k (live s))).
Proof.
  intros [_ Hwf]. apply Forall_forall.
  intros l [k' Hk%elem_of_dict_pop]%elem_of_dict_values.
  destruct (Hwf k' l Hk) as (a & Ha & _). eauto.
Qed.

Section failing_save.
Context (s : t E) (e : exn).
Hypothesis s_wf : wf s.
Hypothesis save_fails : ∀ alarms, (save E (_store s) alarms).2 = Raise e.

Lemma add_alarm_save_fails alarm a :
  alarm_objs s !! alarm = Some a →
  dict_get (Alarm.id a) (live s) = None →
  ∃ s', add_alarm alarm s = (s', Raise e)
        ∧ live s' = dict_set (Alarm.id a) alarm (live s)
        ∧ _tasks s' = _tasks s ∧ task_objs s' = task_objs s.
Proof.
  intros Ha Hfree. unfold add_alarm. run. unfold deref at 1. rewrite Ha, Hfree.
  rewrite bool_decide_eq_false_2 by (by intros [? ?]).
  unfold update_live. run.
  destruct (store_save_fails
              (with_dict_objs <[_alarms s := dict_set (Alarm.id a) alarm (live s)]> s) e)
    as (st & alarms & ->); [|done|].
  { rewrite live_update. cbn [alarm_objs with_dict_objs]. apply allocated_dict_set; eauto. }
  eexists. split; [done|]. split; [|done]. apply live_update.
Qed.

Lemma update_alarm_save_fails alarm a :
  alarm_objs s !! alarm = Some a →
  is_Some (dict_get (Alarm.id a) (live s)) →
  ∃ s', update_alarm alarm s = (s', Raise e)
        ∧ live s' = dict_set (Alarm.id a) alarm (live s)
        ∧ _tasks s' = _tasks s ∧ task_objs s' = task_objs s.
Proof.
  intros Ha Hin. unfold update_alarm. run. unfold deref at 1. rewrite Ha.
  rewrite bool_decide_eq_true_2 by done.
  unfold update_live. run.
  destruct (store_save_fails
              (with_dict_objs <[_alarms s := dict_set (Alarm.id a) alarm (live s)]> s) e)
    as (st & alarms & ->); [|done|].
  { rewrite live_update. cbn [alarm_objs with_dict_objs]. apply allocated_dict_set; eauto. }
  eexists. split; [done|]. split; [|done]. apply live_update.
Qed.

Lemma remove_alarm_save_fails alarm_id :
  is_Some (dict_get alarm_id (live s)) →
  ∃ s', remove_alarm alarm_id s = (s', Raise e)
        ∧ live s' = dict_pop alarm_id (live s)
        ∧ _tasks s' = _tasks s ∧ task_objs s' = task_objs s.
Proof.
  intros Hin. unfold remove_alarm. run.
  rewrite bool_decide_eq_true_2 by done.
  unfold update_live. run.
  destruct (store_save_fails
              (with_dict_objs <[_alarms s := dict_pop alarm_id (live s)]> s) e)
    as (st & alarms & ->); [|done|].
  { rewrite live_update. cbn [alarm_objs with_dict_objs]. by apply allocated_dict_pop. }
  eexists. split; [done|]. split; [|done]. apply live_update.
Qed.

Lemma assign_enabled_save_fails alarm b :
  ∃ st alarms,
    store_save (with_alarm_objs (alter (Alarm.set_enabled b) alarm) s)
    = (with_store st (Some alarms) (with_alarm_objs (alter (Alarm.set_enabled b) alarm) s),
       Raise e).
Proof.
  apply store_save_fails; [|done].
  apply Forall_forall. intros l Hl. simpl.
  apply (proj1 (Forall_forall _ _) (wf_allocated s s_wf)) in Hl as [a Ha].
  rewrite lookup_alter. case_decide; subst; rewrite Ha; simpl; eauto.
Qed.

Lemma enable_save_fails alarm_id alarm a :
  dict_get alarm_id (live s) = Some alarm →
  alarm_objs s !! alarm = Some a →
  Alarm.enabled a = false →
  ∃ s', enable alarm_id s = (s', Raise e)
        ∧ alarm_objs s' !! alarm = Some (Alarm.set_enabled true a)
        ∧ _tasks s' = _tasks s ∧ task_objs s' = task_objs s.
Proof.
  intros Hget Ha Hoff. unfold enable. run. rewrite Hget.
  unfold deref at 1. rewrite Ha, Hoff.
  unfold assign_enabled. run.
  destruct (assign_enabled_save_fails alarm true) as (st & alarms & ->).
  eexists. split; [done|]. split; [|done]. simpl.
  by rewrite lookup_alter_eq, Ha.
Qed.

Lemma disable_save_fails alarm_id alarm a :
  dict_get alarm_id (live s) = Some alarm →
  alarm_objs s !! alarm = Some a →
  Alarm.enabled a = true →
  ∃ s', disable alarm_id s = (s', Raise e)
        ∧ alarm_objs s' !! alarm = Some (Alarm.set_enabled false a)
        ∧ _tasks s' = _tasks s ∧ task_objs s' = task_objs s.
Proof.
  intros Hget Ha Hon. unfold disable. run. rewrite Hget.
  unfold deref at 1. rewrite Ha, Hon. cbn [negb].
  unfold assign_enabled. run.
  destruct (assign_enabled_save_fails alarm false) as (st & alarms & ->).
  eexists. split; [done|]. split; [|done]. simpl.
  by rewrite lookup_alter_eq, Ha.
Qed.

(** C6, as amended: when the store's [save] fails, each mutating
    operation raises the store's error and neither starts nor cancels a
    timer task, but the change it made to the live state stays: the entry
    is inserted, replaced or removed, the [enabled] flag is flipped. *)
Theorem failed_save_keeps_the_change :
  (∀ alarm a,
     alarm_objs s !! alarm = Some a → dict_get (Alarm.id a) (live s) = None →
     ∃ s', add_alarm alarm s = (s', Raise e)
           ∧ live s' = dict_set (Alarm.id a) alarm (live s)
           ∧ _tasks s' = _tasks s ∧ task_objs s' = task_objs s)
  ∧ (∀ alarm a,
       alarm_objs s !! alarm = Some a → is_Some (dict_get (Alarm.id a) (live s)) →
       ∃ s', update_alarm alarm s = (s', Raise e)
             ∧ live s' = dict_set (Alarm.id a) alarm (live s)
             ∧ _tasks s' = _tasks s ∧ task_objs s' = task_objs s)
  ∧ (∀ alarm_id,
       is_Some (dict_get alarm_id (live s)) →
       ∃ s', remove_alarm alarm_id s = (s', Raise e)
             ∧ live s' = dict_pop alarm_id (live s)
             ∧ _tasks s' = _tasks s ∧ task_objs s' = task_objs s)
  ∧ (∀ alarm_id alarm a,
       dict_get alarm_id (live s) = Some alarm → alarm_objs s !! alarm = Some a →
       Alarm.enabled a = false →
       ∃ s', enable alarm_id s = (s', Raise e)
             ∧ alarm_objs s' !! alarm = Some (Alarm.set_enabled true a)
             ∧ _tasks s' = _tasks s ∧ task_objs s' = task_objs s)
  ∧ (∀ alarm_id alarm a,
       dict_get alarm_id (live s) = Some alarm → alarm_objs s !! alarm = Some a →
       Alarm.enabled a = true →
       ∃ s', disable alarm_id s = (s', Raise e)
             ∧ alarm_objs s' !! alarm = Some (Alarm.set_enabled false a)
             ∧ _tasks s' = _tasks s ∧ task_objs s' = task_objs s).
Proof.
  split; [exact add_alarm_save_fails|].
  split; [exact update_alarm_save_fails|].
  split; [exact remove_alarm_save_fails|].
  split; [exact enable_save_fails|exact disable_save_fails].
Qed.
End failing_save.

Lemma maybe_spawn_effect (b : bool) alarm_id s s' :
  (if b then spawn alarm_id else ret ()) s = (s', Ok ()) →
  same_alarms s s'
  ∧ ∃ task, ∀ key, dict_get key (_tasks s')
      = if b && bool_decide (alarm_id = key) then Some task else dict_get key (_tasks s).
Proof.
  destruct b.
  - rewrite spawn_eq. intros [= <-]. split; [by repeat split|].
    eexists. intros key. simpl. rewrite dict_get_set.
    by destruct (decide (alarm_id = key)), (bool_decide_reflect (alarm_id = key)).
  - intros [= <-]. split; [by repeat split|]. by exists 0%nat.
Qed.

Lemma live_new_dict s d :
  is_Some (dict_objs s !! _alarms s) →
  live (with_dict_objs <[fresh (dom (dict_objs s)) := d]> s) = live s.
Proof.
  intros Hsome. unfold live. simpl. rewrite lookup_insert_ne; [done|].
  intros Heq. apply (is_fresh (dom (dict_objs s))). rewrite Heq.
  by apply elem_of_dom.
Qed.

Lemma same_alarms_wf s s' : same_alarms s s' → wf s → wf s'.
Proof.
  intros Hsame [Hsome Hwf]. pose proof (same_alarms_live _ _ Hsame) as Hlive.
  destruct Hsame as (Hobjs & Hdicts & Halarms & _).
  split; [by rewrite Hdicts, Halarms|].
  intros key alarm. rewrite Hlive, Hobjs. auto.
Qed.

Lemma only_disables_refl s : only_disables s s.
Proof. repeat split; auto. Qed.

Lemma store_save_disables s0 s s' r :
  only_disables s0 s → store_save s = (s', r) → only_disables s0 s'.
Proof.
  intros (Hd & Ha & Ht & Hs & Hobjs) (Hsame & Htasks & _)%store_save_same.
  destruct Hsame as (Hobjs' & Hd' & Ha' & Hs').
  repeat split; try congruence. intros l. rewrite Hobjs'. apply Hobjs.
Qed.

Lemma assign_disabled_disables s alarm :
  only_disables s (with_alarm_objs (alter (Alarm.set_enabled false) alarm) s).
Proof.
  repeat split; try done. intros l. simpl. rewrite lookup_alter.
  case_decide as Hl; [|by left]. rewrite <- Hl.
  destruct (alarm_objs s !! alarm) as [a|]; [right; eauto|by left].
Qed.

Lemma _run_alarm_top_disables alarm_id now_utc s :
  only_disables s (_run_alarm_top alarm_id now_utc s).1.
Proof.
  unfold _run_alarm_top. run.
  destruct (dict_get alarm_id (live s)) as [alarm|]; [|apply only_disables_refl].
  unfold deref. destruct (alarm_objs s !! alarm) as [a|]; [|apply only_disables_refl].
  destruct (Alarm.enabled a); cbn [negb]; [|apply only_disables_refl].
  destruct (Alarm.next_occurrence (zones E) a now_utc) as [[t|]|e];
    try apply only_disables_refl.
  unfold assign_enabled. run.
  destruct (store_save _) as [s1 [[]|]] eqn:Hsave; simpl;
    eapply store_save_disables; eauto using assign_disabled_disables.
Qed.

Lemma _run_alarm_fire_disables alarm s :
  only_disables s (_run_alarm_fire alarm s).1.
Proof.
  unfold _run_alarm_fire, players_play. run.
  unfold deref. destruct (alarm_objs s !! alarm) as [a|] eqn:Ha; [|apply only_disables_refl].
  destruct (play E a); [|apply only_disables_refl].
  rewrite Ha.
  case_bool_decide; [|apply only_disables_refl].
  unfold assign_enabled. run.
  destruct (store_save _) as [s1 [[]|]] eqn:Hsave; simpl;
    eapply store_save_disables; eauto using assign_disabled_disables.
Qed.

Lemma set_status_disables s0 s task st :
  only_disables s0 s → only_disables s0 (set_status task st s).
Proof. intros H. exact H. Qed.

Lemma task_step_disables task now_utc s : only_disables s (task_step task now_utc s).
Proof.
  unfold task_step.
  destruct (task_objs s !! task) as [[alarm_id [[|alarm next_time]| |]]|];
    try apply only_disables_refl.
  - pose proof (_run_alarm_top_disables alarm_id now_utc s) as H.
    destruct (_run_alarm_top alarm_id now_utc s) as [s1 [[pc|]|e]];
      by apply set_status_disables.
  - pose proof (_run_alarm_fire_disables alarm s) as H.
    destruct (_run_alarm_fire alarm s) as [s1 [[pc|]|e]];
      by apply set_status_disables.
Qed.

Lemma only_disables_cover s s' :
  wf s → tasks_cover_enabled s → only_disables s s' → wf s' ∧ tasks_cover_enabled s'.
Proof.
  intros [Hsome Hwf] (Hstopped & Hsub & Hcov) (Hd & Ha & Ht & Hs & Hobjs).
  assert (live s' = live s) as Hlive by (unfold live; by rewrite Hd, Ha).
  split; [split|split; [|split]]; rewrite ?Hlive, ?Hd, ?Ha, ?Ht, ?Hs; try done.
  - intros key l Hl. destruct (Hwf key l Hl) as (a & Hal & Hid).
    destruct (Hobjs l) as [->|(a0 & Ha0 & ->)]; [eauto|].
    rewrite Hal in Ha0. injection Ha0 as <-. eauto.
  - intros Hon key l a' Hl. destruct (Hobjs l) as [->|(a0 & Ha0 & ->)]; [eauto|].
    by intros [= <-].
Qed.

Lemma cancel_task_eq task s :
  ∃ s1, cancel_task task s = (s1, Ok ()) ∧ same_alarms s s1 ∧ _tasks s1 = _tasks s.
Proof. eexists. split; [reflexivity|]. by repeat split. Qed.

Lemma for_each_cancel_task_same (tasks : list loc) s :
  same_alarms s (for_each cancel_task tasks s).1
  ∧ _tasks (for_each cancel_task tasks s).1 = _tasks s.
Proof.
  revert s. induction tasks as [|task tasks IH]; intros s; simpl.
  - split; [apply same_alarms_refl|done].
  - run. destruct (cancel_task_eq task s) as (s0 & -> & Hsame0 & Htasks0).
    destruct (IH s0) as [Hsame Htasks].
    split; [by eapply same_alarms_trans|congruence].
Qed.

Lemma for_each_await_task_state (tasks : list loc) s :
  (for_each await_task tasks s).1 = s.
Proof.
  induction tasks as [|task tasks IH]; [done|]. simpl. run. unfold await_task at 1.
  destruct (status <$> task_objs s !! task) as [[| |e]|]; try done;
    destruct (for_each await_task tasks s) as [s1 [[]|e']]; simpl in *; by subst.
Qed.

(** The dict comprehension of [start]. *)
Lemma foldl_dict_set_elem (pairs : list (Alarm.t * loc)) (d0 : list (string * loc)) key l :
  (key, l) ∈ foldl (λ d ao, dict_set (Alarm.id ao.1) ao.2 d) d0 pairs →
  (key, l) ∈ d0 ∨ ∃ a, (a, l) ∈ pairs ∧ Alarm.id a = key.
Proof.
  revert d0. induction pairs as [|[a l'] pairs IH]; intros d0; simpl; [by left|].
  intros [[[= -> ->]|Hd0]%elem_of_dict_set|(a' & Hin & Hid)]%IH.
  - right. exists a. split; [left|done].
  - by left.
  - right. exists a'. split; [by right|done].
Qed.

Lemma foldl_dict_set_key (pairs : list (Alarm.t * loc)) (d0 : list (string * loc)) key :
  is_Some (dict_get key d0) ∨ (∃ a l, (a, l) ∈ pairs ∧ Alarm.id a = key) →
  is_Some (dict_get key (foldl (λ d ao, dict_set (Alarm.id ao.1) ao.2 d) d0 pairs)).
Proof.
  revert d0. induction pairs as [|[a l'] pairs IH]; intros d0; simpl.
  - intros [?|(a & l & Hin & _)]; [done|]. by apply elem_of_nil in Hin.
  - intros [Hd0|(a' & l & [[= -> ->]|Hin]%elem_of_cons & Hid)]; apply IH.
    + left. rewrite dict_get_set. case_decide; eauto.
    + left. rewrite <- Hid, dict_get_set_eq. eauto.
    + right. eauto.
Qed.

Lemma Forall2_zip_elem {A B : Type} (P : A → B → Prop) (xs : list A) (ys : list B) x y :
  Forall2 P xs ys → (x, y) ∈ zip xs ys → P x y.
Proof.
  induction 1 as [|x' y' xs ys Hxy _ IH]; simpl; [by intros ?%elem_of_nil|].
  intros [[= -> ->]|Hin]%elem_of_cons; auto.
Qed.

Lemma Forall2_zip_right {A B : Type} (P : A → B → Prop) (xs : list A) (ys : list B) y :
  Forall2 P xs ys → y ∈ ys → ∃ x, (x, y) ∈ zip xs ys.
Proof.
  induction 1 as [|x' y' xs ys Hxy _ IH]; simpl; [by intros ?%elem_of_nil|].
  intros [->|Hin]%elem_of_cons.
  - exists x'. left.
  - destruct (IH Hin) as [x Hx]. exists x. by right.
Qed.

Lemma map_each_new_alarm (alarms : list Alarm.t) s :
  ∃ s' objs,
    map_each new_alarm alarms s = (s', Ok objs)
    ∧ dict_objs s' = dict_objs s ∧ _alarms s' = _alarms s
    ∧ _tasks s' = _tasks s ∧ _started s' = _started s
    ∧ (∀ l a, alarm_objs s !! l = Some a → alarm_objs s' !! l = Some a)
    ∧ Forall2 (λ a l, alarm_objs s' !! l = Some a) alarms objs.
Proof.
  revert s. induction alarms as [|a alarms IH]; intros s; simpl.
  { exists s, []. by repeat split. }
  run. unfold new_alarm at 1. cbv zeta.
  destruct (IH (with_alarm_objs <[fresh (dom (alarm_objs s)) := a]> s))
    as (s' & objs & -> & Hd & Ha & Ht & Hs & Hmono & Hall).
  exists s', (fresh (dom (alarm_objs s)) :: objs).
  split; [done|]. repeat split; try done.
  - intros l a0 Hl. apply Hmono. simpl. rewrite lookup_insert_ne; [done|].
    intros Heq. apply (is_fresh (dom (alarm_objs s))). rewrite Heq.
    apply elem_of_dom. eauto.
  - constructor; [|done]. apply Hmono. simpl. apply lookup_insert_eq.
Qed.

Lemma for_each_spawn_enabled (objs : list loc) s :
  Forall (λ l, is_Some (alarm_objs s !! l)) objs →
  ∃ s',
    for_each spawn_if_enabled objs s = (s', Ok ())
    ∧ same_alarms s s'
    ∧ ∀ key, is_Some (dict_get key (_tasks s'))
             ↔ is_Some (dict_get key (_tasks s))
               ∨ ∃ l a, l ∈ objs ∧ alarm_objs s !! l = Some a
                        ∧ Alarm.enabled a = true ∧ Alarm.id a = key.
Proof.
  revert s. induction objs as [|l objs IH]; intros s Hall; simpl.
  { exists s. split; [done|]. split; [apply same_alarms_refl|].
    intros key. split; [by left|]. intros [?|(l & a & Hin & _)]; [done|].
    by apply elem_of_nil in Hin. }
  inversion_clear Hall as [|?? [a Ha] Hall'].
  unfold spawn_if_enabled at 1. unfold mbind, prog_bind, bind.
  unfold deref at 1. rewrite Ha.
  destruct ((if Alarm.enabled a then spawn (Alarm.id a) else ret ()) s)
    as [s1 r] eqn:Hspawn.
  assert (r = Ok ()) as -> by (destruct (Alarm.enabled a); by injection Hspawn).
  apply maybe_spawn_effect in Hspawn as (Hsame1 & task & Htasks1).
  destruct (IH s1) as (s' & -> & Hsame & Htasks).
  { destruct Hsame1 as (-> & _). done. }
  exists s'. split; [done|]. split; [by eapply same_alarms_trans|].
  destruct Hsame1 as (Hobjs1 & _).
  intros key. rewrite Htasks, Htasks1, Hobjs1. split.
  - intros [Hk|(l' & a' & Hin & Hl' & Hen & Hid)].
    + destruct (Alarm.enabled a) eqn:Hen; simpl in Hk; [|by left].
      case_bool_decide as Hkey; [|by left].
      right. exists l, a. split; [left|done].
    + right. exists l', a'. split; [by right|done].
  - intros [Hk|(l' & a' & [->|Hin]%elem_of_cons & Hl' & Hen & Hid)].
    + left. destruct (Alarm.enabled a && bool_decide (Alarm.id a = key)); eauto.
    + left. rewrite Ha in Hl'. injection Hl' as <-.
      rewrite Hen, bool_decide_eq_true_2 by done. simpl. eauto.
    + right. eauto 10.
Qed.

Section cover.
Context (s s' : t E).
Hypothesis s_wf : wf s.
Hypothesis s_cover : tasks_cover_enabled s.

Lemma add_alarm_cover alarm :
  add_alarm alarm s = (s', Ok ()) → wf s' ∧ tasks_cover_enabled s'.
Proof.
  unfold add_alarm. run. unfold deref at 1.
  destruct (alarm_objs s !! alarm) as [a|] eqn:Ha; [|done].
  case_bool_decide as Hin; [done|].
  unfold update_live. run.
  destruct (store_save _) as [s1 [[]|]] eqn:Hsave; [|done].
  apply store_save_same in Hsave as (Hsame1 & Htasks1 & _).
  pose proof (same_alarms_live _ _ Hsame1) as Hlive1. rewrite live_update in Hlive1.
  destruct Hsame1 as (Hobjs1 & Hdicts1 & Halarms1 & Hstarted1). simpl in *.
  unfold deref. rewrite Hobjs1, Ha.
  intros (Hsame & task & Htasks)%maybe_spawn_effect.
  rewrite Hstarted1 in Htasks.
  pose proof (same_alarms_live _ _ Hsame) as Hlive. rewrite Hlive1 in Hlive.
  destruct Hsame as (Hobjs & Hdicts & Halarms & Hstarted).
  destruct s_wf as [Hsome Hwf]. destruct s_cover as (Hstopped & Hsub & Hcov).
  split; [split|split; [|split]].
  - rewrite Hdicts, Halarms, Hdicts1, Halarms1. by rewrite lookup_insert_eq.
  - intros key l. rewrite Hlive, Hobjs, Hobjs1.
    intros [[= -> ->]|Hl]%elem_of_dict_set; eauto.
  - rewrite Hstarted, Hstarted1. intros Hoff key.
    rewrite Htasks, Htasks1, Hoff. simpl. auto.
  - intros key. rewrite Htasks, Htasks1, Hlive, dict_get_set.
    destruct (decide (Alarm.id a = key)); [eauto|].
    rewrite bool_decide_eq_false_2, andb_false_r by done. auto.
  - rewrite Hstarted, Hstarted1. intros Hon key l a'.
    rewrite Htasks, Htasks1, Hlive, Hobjs, Hobjs1, dict_get_set, Hon. simpl.
    destruct (decide (Alarm.id a = key)) as [<-|Hne].
    + intros [= <-] Ha'. rewrite Ha in Ha'. injection Ha' as <-.
      intros ->. rewrite bool_decide_eq_true_2 by done. eauto.
    + rewrite bool_decide_eq_false_2, andb_false_r by done. eauto.
Qed.

Lemma update_alarm_cover alarm :
  update_alarm alarm s = (s', Ok ()) → wf s' ∧ tasks_cover_enabled s'.
Proof.
  unfold update_alarm. run. unfold deref at 1.
  destruct (alarm_objs s !! alarm) as [a|] eqn:Ha; [|done].
  case_bool_decide as Hin; [|done].
  unfold update_live. run.
  destruct (store_save _) as [s1 [[]|]] eqn:Hsave; [|done].
  apply store_save_same in Hsave as (Hsame1 & Htasks1 & _).
  pose proof (same_alarms_live _ _ Hsame1) as Hlive1. rewrite live_update in Hlive1.
  destruct Hsame1 as (Hobjs1 & Hdicts1 & Halarms1 & Hstarted1). simpl in *.
  unfold _reschedule. run.
  destruct (_cancel _ s1) as [s2 [[]|]] eqn:Hcancel; [|done].
  apply _cancel_effect in Hcancel as (Hsame2 & Htasks2).
  pose proof (same_alarms_live _ _ Hsame2) as Hlive2. rewrite Hlive1 in Hlive2.
  destruct Hsame2 as (Hobjs2 & Hdicts2 & Halarms2 & Hstarted2).
  rewrite Hlive2, dict_get_set_eq. unfold deref. rewrite Hobjs2, Hobjs1, Ha.
  intros (Hsame & task & Htasks)%maybe_spawn_effect.
  rewrite Hstarted2, Hstarted1 in Htasks.
  pose proof (same_alarms_live _ _ Hsame) as Hlive. rewrite Hlive2 in Hlive.
  destruct Hsame as (Hobjs & Hdicts & Halarms & Hstarted).
  destruct s_wf as [Hsome Hwf]. destruct s_cover as (Hstopped & Hsub & Hcov).
  split; [split|split; [|split]].
  - rewrite Hdicts, Halarms, Hdicts2, Halarms2, Hdicts1, Halarms1.
    by rewrite lookup_insert_eq.
  - intros key l. rewrite Hlive, Hobjs, Hobjs2, Hobjs1.
    intros [[= -> ->]|Hl]%elem_of_dict_set; eauto.
  - rewrite Hstarted, Hstarted2, Hstarted1. intros Hoff key.
    rewrite Htasks, Htasks2, Htasks1, Hoff. simpl.
    destruct (decide (Alarm.id a = key)); auto.
  - intros key. rewrite Htasks, Htasks2, Htasks1, Hlive, dict_get_set.
    destruct (decide (Alarm.id a = key)); [eauto|].
    rewrite bool_decide_eq_false_2, andb_false_r by done. auto.
  - rewrite Hstarted, Hstarted2, Hstarted1. intros Hon key l a'.
    rewrite Htasks, Htasks2, Htasks1, Hlive, Hobjs, Hobjs2, Hobjs1, dict_get_set, Hon.
    simpl.
    destruct (decide (Alarm.id a = key)) as [<-|Hne].
    + intros [= <-] Ha'. rewrite Ha in Ha'. injection Ha' as <-.
      intros ->. rewrite bool_decide_eq_true_2 by done. eauto.
    + rewrite bool_decide_eq_false_2, andb_false_r by done. eauto.
Qed.

Lemma remove_alarm_cover alarm_id :
  remove_alarm alarm_id s = (s', Ok ()) → wf s' ∧ tasks_cover_enabled s'.
Proof.
  unfold remove_alarm. run.
  case_bool_decide as Hin; [|done].
  unfold update_live. run.
  destruct (store_save _) as [s1 [[]|]] eqn:Hsave; [|done].
  apply store_save_same in Hsave as (Hsame1 & Htasks1 & _).
  pose proof (same_alarms_live _ _ Hsame1) as Hlive1. rewrite live_update in Hlive1.
  destruct Hsame1 as (Hobjs1 & Hdicts1 & Halarms1 & Hstarted1). simpl in *.
  intros Hcancel. apply _cancel_effect in Hcancel as (Hsame & Htasks).
  pose proof (same_alarms_live _ _ Hsame) as Hlive. rewrite Hlive1 in Hlive.
  destruct Hsame as (Hobjs & Hdicts & Halarms & Hstarted).
  destruct s_wf as [Hsome Hwf]. destruct s_cover as (Hstopped & Hsub & Hcov).
  split; [split|split; [|split]].
  - rewrite Hdicts, Halarms, Hdicts1, Halarms1. by rewrite lookup_insert_eq.
  - intros key l. rewrite Hlive, Hobjs, Hobjs1. intros Hl%elem_of_dict_pop. eauto.
  - rewrite Hstarted, Hstarted1. intros Hoff key.
    rewrite Htasks, Htasks1. destruct (decide (alarm_id = key)); auto.
  - intros key. rewrite Htasks, Htasks1, Hlive, dict_get_pop.
    destruct (decide (alarm_id = key)); [by intros [? ?]|auto].
  - rewrite Hstarted, Hstarted1. intros Hon key l a'.
    rewrite Htasks, Htasks1, Hlive, Hobjs, Hobjs1, dict_get_pop.
    destruct (decide (alarm_id = key)); [done|eauto].
Qed.

Lemma assign_enabled_wf alarm b : wf (with_alarm_objs (alter (Alarm.set_enabled b) alarm) s).
Proof.
  destruct s_wf as [Hsome Hwf]. split; [done|].
  intros key l Hl. destruct (Hwf key l Hl) as (a & Ha & Hid).
  simpl. rewrite lookup_alter. case_decide; subst; rewrite Ha; simpl; eauto.
Qed.

Lemma enable_cover alarm_id :
  enable alarm_id s = (s', Ok ()) → wf s' ∧ tasks_cover_enabled s'.
Proof.
  unfold enable. run.
  destruct (dict_get alarm_id (live s)) as [alarm|] eqn:Hget; [|done].
  unfold deref at 1. destruct (alarm_objs s !! alarm) as [a|] eqn:Ha; [|done].
  destruct (Alarm.enabled a) eqn:Hen; [by intros [= <-]|].
  unfold assign_enabled. run.
  pose proof (assign_enabled_wf alarm true) as Hwf0.
  destruct (store_save _) as [s1 [[]|]] eqn:Hsave; [|done].
  apply store_save_same in Hsave as (Hsame1 & Htasks1 & _).
  pose proof (same_alarms_wf _ _ Hsame1 Hwf0) as Hwf1.
  pose proof (same_alarms_live _ _ Hsame1) as Hlive1.
  destruct Hsame1 as (Hobjs1 & Hdicts1 & Halarms1 & Hstarted1). simpl in *.
  change (live (with_alarm_objs _ s)) with (live s) in Hlive1.
  intros (Hsame & task & Htasks)%maybe_spawn_effect.
  rewrite Hstarted1 in Htasks.
  pose proof (same_alarms_wf _ _ Hsame Hwf1) as Hwf'.
  pose proof (same_alarms_live _ _ Hsame) as Hlive. rewrite Hlive1 in Hlive.
  destruct Hsame as (Hobjs & Hdicts & Halarms & Hstarted).
  destruct s_wf as [Hsome Hwf]. destruct s_cover as (Hstopped & Hsub & Hcov).
  split; [done|split; [|split]].
  - rewrite Hstarted, Hstarted1. intros Hoff key.
    rewrite Htasks, Htasks1, Hoff. simpl. auto.
  - intros key. rewrite Htasks, Htasks1, Hlive.
    destruct (_started s); simpl; [|by auto].
    case_bool_decide as Hk; [subst; rewrite Hget; eauto|auto].
  - rewrite Hstarted, Hstarted1. intros Hon key l a'.
    rewrite Htasks, Htasks1, Hlive, Hobjs, Hobjs1, Hon, lookup_alter. simpl.
    intros Hl. case_decide as Hal.
    + subst l. destruct (Hwf key alarm (dict_get_elem _ _ _ Hl)) as (a0 & Ha0 & Hid).
      destruct (Hwf alarm_id alarm (dict_get_elem _ _ _ Hget)) as (a1 & Ha1 & Hid1).
      rewrite Ha in Ha0, Ha1. injection Ha0 as <-. injection Ha1 as <-.
      rewrite bool_decide_eq_true_2 by congruence. eauto.
    + intros Ha' Hen'. case_bool_decide; [eauto|]. eapply Hcov; eauto.
Qed.

Lemma disable_cover alarm_id :
  disable alarm_id s = (s', Ok ()) → wf s' ∧ tasks_cover_enabled s'.
Proof.
  unfold disable. run.
  destruct (dict_get alarm_id (live s)) as [alarm|] eqn:Hget; [|done].
  unfold deref at 1. destruct (alarm_objs s !! alarm) as [a|] eqn:Ha; [|done].
  destruct (Alarm.enabled a) eqn:Hen; cbn [negb]; [|by intros [= <-]].
  unfold assign_enabled. run.
  pose proof (assign_enabled_wf alarm false) as Hwf0.
  destruct (store_save _) as [s1 [[]|]] eqn:Hsave; [|done].
  apply store_save_same in Hsave as (Hsame1 & Htasks1 & _).
  pose proof (same_alarms_wf _ _ Hsame1 Hwf0) as Hwf1.
  pose proof (same_alarms_live _ _ Hsame1) as Hlive1.
  destruct Hsame1 as (Hobjs1 & Hdicts1 & Halarms1 & Hstarted1). simpl in *.
  change (live (with_alarm_objs _ s)) with (live s) in Hlive1.
  intros Hcancel. apply _cancel_effect in Hcancel as (Hsame & Htasks).
  pose proof (same_alarms_wf _ _ Hsame Hwf1) as Hwf'.
  pose proof (same_alarms_live _ _ Hsame) as Hlive. rewrite Hlive1 in Hlive.
  destruct Hsame as (Hobjs & Hdicts & Halarms & Hstarted).
  destruct s_wf as [Hsome Hwf]. destruct s_cover as (Hstopped & Hsub & Hcov).
  split; [done|split; [|split]].
  - rewrite Hstarted, Hstarted1. intros Hoff key.
    rewrite Htasks, Htasks1. destruct (decide (alarm_id = key)); auto.
  - intros key. rewrite Htasks, Htasks1, Hlive.
    destruct (decide (alarm_id = key)); [by intros [? ?]|auto].
  - rewrite Hstarted, Hstarted1. intros Hon key l a'.
    rewrite Htasks, Htasks1, Hlive, Hobjs, Hobjs1, lookup_alter.
    intros Hl. case_decide as Hal.
    + subst l. rewrite Ha. simpl. by intros [= <-].
    + destruct (decide (alarm_id = key)) as [->|]; [congruence|eauto].
Qed.

Lemma trigger_now_state alarm_id : (trigger_now alarm_id s).1 = s.
Proof.
  unfold trigger_now, players_play. run.
  destruct (dict_get alarm_id (live s)); [|done].
  unfold deref. by destruct (alarm_objs s !! _).
Qed.

Lemma snapshot_cover :
  (snapshot s).1 = s' → wf s' ∧ tasks_cover_enabled s'.
Proof.
  unfold snapshot, new_dict. run. simpl. intros <-.
  destruct s_wf as [Hsome Hwf]. destruct s_cover as (Hstopped & Hsub & Hcov).
  pose proof (live_new_dict s (live s) Hsome) as Hlive.
  split; [split|split; [|split]]; rewrite ?Hlive; try done.
  simpl. rewrite lookup_insert_ne; [done|].
  intros Heq. apply (is_fresh (dom (dict_objs s))). rewrite Heq. by apply elem_of_dom.
Qed.

Lemma new_alarm_cover a :
  (new_alarm a s).1 = s' → wf s' ∧ tasks_cover_enabled s'.
Proof.
  unfold new_alarm. simpl. intros <-.
  destruct s_wf as [Hsome Hwf]. destruct s_cover as (Hstopped & Hsub & Hcov).
  assert (∀ l a0, alarm_objs s !! l = Some a0 →
                  <[fresh (dom (alarm_objs s)) := a]> (alarm_objs s) !! l = Some a0) as Hkeep.
  { intros l a0 Hl. rewrite lookup_insert_ne; [done|].
    intros Heq. apply (is_fresh (dom (alarm_objs s))). rewrite Heq.
    apply elem_of_dom. eauto. }
  split; [split|split; [|split]]; try done.
  - intros key l Hl. destruct (Hwf key l Hl) as (a0 & Ha0 & Hid). simpl. eauto.
  - intros Hon key l a'. change (live (with_alarm_objs _ s)) with (live s). simpl.
    intros Hl Ha'. destruct (Hwf key l (dict_get_elem _ _ _ Hl)) as (a0 & Ha0 & Hid).
    rewrite (Hkeep l a0 Ha0) in Ha'. injection Ha' as <-. eauto.
Qed.

Lemma stop_cover : stop s = (s', Ok ()) → wf s' ∧ tasks_cover_enabled s'.
Proof.
  unfold stop. run.
  destruct (for_each_cancel_task_same (dict_values (_tasks s)) s) as [Hsame1 Htasks1].
  destruct (for_each cancel_task _ s) as [s1 [[]|]]; [|done]. simpl in *.
  pose proof (for_each_await_task_state (dict_values (_tasks s)) s1) as Hs2.
  destruct (for_each await_task _ s1) as [s2 [[]|]]; [|done]. simpl in *. subst s2.
  intros [= <-].
  pose proof (same_alarms_wf _ _ Hsame1 s_wf) as [Hsome Hwf].
  split; [split|split; [|split]]; try done.
  intros key [? ?]. done.
Qed.

Lemma start_cover : start s = (s', Ok ()) → wf s' ∧ tasks_cover_enabled s'.
Proof.
  unfold start. run.
  destruct (_started s) eqn:Hstarted; [by intros [= <-]|].
  unfold store_load at 1.
  destruct (load E (_store s)) as [st [alarms|e]]; [|done].
  destruct (map_each_new_alarm alarms (with_store st None s))
    as (s2 & objs & -> & Hd2 & Ha2 & Ht2 & Hs2 & Hmono2 & Hall2).
  unfold rebind_alarms, new_dict. run. cbv zeta.
  set (d := foldl (λ d ao, dict_set (Alarm.id ao.1) ao.2 d) [] (zip alarms objs)).
  set (s4 := with_started true
               (with_alarms (fresh (dom (dict_objs s2)))
                  (with_dict_objs <[fresh (dom (dict_objs s2)) := d]> s2))).
  destruct (for_each_spawn_enabled objs s4) as (s5 & -> & Hsame & Htasks).
  { apply Forall_forall. intros l Hl.
    destruct (Forall2_zip_right _ _ _ l Hall2 Hl) as [a Hin].
    exists a. exact (Forall2_zip_elem _ _ _ _ _ Hall2 Hin). }
  intros [= <-].
  assert (live s4 = d) as Hlive4.
  { unfold live, s4. simpl. by rewrite lookup_insert_eq. }
  pose proof (same_alarms_live _ _ Hsame) as Hlive. rewrite Hlive4 in Hlive.
  destruct Hsame as (Hobjs & Hdicts & Halarms & Hstarted5).
  destruct s_cover as (Hstopped & _ & _).
  assert (∀ key l, (key, l) ∈ d →
            ∃ a, (a, l) ∈ zip alarms objs ∧ alarm_objs s2 !! l = Some a ∧ Alarm.id a = key)
    as Hd.
  { intros key l [?%elem_of_nil|(a & Hin & Hid)]%foldl_dict_set_elem; [done|].
    exists a. split; [done|]. split; [|done].
    exact (Forall2_zip_elem _ _ _ _ _ Hall2 Hin). }
  split; [split|split; [|split]].
  - rewrite Hdicts, Halarms. unfold s4. simpl. by rewrite lookup_insert_eq.
  - intros key l. rewrite Hlive, Hobjs. intros (a & _ & Ha & Hid)%Hd. eauto.
  - rewrite Hstarted5. done.
  - intros key. rewrite Htasks, Hlive.
    intros [Hk|(l & a & Hin & Hl & Hen & Hid)].
    + change (_tasks s4) with (_tasks s2) in Hk. rewrite Ht2 in Hk.
      simpl in Hk. rewrite (Hstopped Hstarted key) in Hk. by destruct Hk.
    + change (alarm_objs s4) with (alarm_objs s2) in Hl.
      destruct (Forall2_zip_right _ _ _ l Hall2 Hin) as [a' Hin'].
      pose proof (Forall2_zip_elem _ _ _ _ _ Hall2 Hin') as Ha'. simpl in Ha'.
      rewrite Hl in Ha'. injection Ha' as <-.
      apply foldl_dict_set_key. right. eauto.
  - intros _ key l a. rewrite Htasks, Hlive, Hobjs.
    change (alarm_objs s4) with (alarm_objs s2).
    intros (a' & Hin & Ha' & Hid)%dict_get_elem%Hd Ha Hen.
    rewrite Ha in Ha'. injection Ha' as <-.
    right. exists l, a. repeat split; try done.
    apply (elem_of_zip_r _ _ _ _ Hin).
Qed.

(** Every operation that returns normally, and every step of a timer
    task, keeps the heap well formed and the task mapping covering the
    enabled alarms. *)
Lemma run_op_cover (o : op) :
  run_op o s = (s', Ok ()) → wf s' ∧ tasks_cover_enabled s'.
Proof.
  destruct o; simpl.
  - apply start_cover.
  - apply stop_cover.
  - run. destruct (new_alarm a s) as [s1 [l|e]] eqn:Hnew; [|done].
    intros [= ->]. apply (new_alarm_cover a). by rewrite Hnew.
  - apply add_alarm_cover.
  - apply update_alarm_cover.
  - apply remove_alarm_cover.
  - apply enable_cover.
  - apply disable_cover.
  - intros Heq. pose proof (trigger_now_state alarm_id) as Hs.
    rewrite Heq in Hs. simpl in Hs. by subst.
  - run. destruct (snapshot s) as [s1 [l|e]] eqn:Hsnap; [|done].
    intros [= ->]. apply snapshot_cover. by rewrite Hsnap.
  - run. intros [= <-]. eapply only_disables_cover; eauto using task_step_disables.
Qed.
End cover.


(** *** Invariants of every operation, whatever it returns *)

Section preserves.
Context (I : t E → Prop).

Lemma preserves_ret {A : Type} (a : A) : preserves I (ret a).
Proof. by intros s. Qed.

Lemma preserves_raise {A : Type} (e : exn) : preserves I (raise (A:=A) e).
Proof. by intros s. Qed.

Lemma preserves_gets {A : Type} (f : t E → A) : preserves I (gets f).
Proof. by intros s. Qed.

Lemma preserves_pure {A : Type} (f : t E → outcome A) : preserves I (act (λ s, (s, f s))).
Proof. by intros s. Qed.

Lemma preserves_modify (f : t E → t E) : (∀ s, I s → I (f s)) → preserves I (modify f).
Proof. intros Hf s. apply Hf. Qed.

Lemma preserves_bind {A B : Type} (m : prog E A) (f : A → prog E B) :
  preserves I m → (∀ a, preserves I (f a)) → preserves I (bind m f).
Proof.
  intros Hm Hf s Hs. unfold bind. specialize (Hm s Hs).
  destruct (m s) as [s1 [a|e]]; [by apply Hf|done].
Qed.

Lemma preserves_for_each {A : Type} (f : A → prog E unit) (xs : list A) :
  (∀ x, preserves I (f x)) → preserves I (for_each f xs).
Proof.
  intros Hf. induction xs as [|x xs IH]; simpl; [apply preserves_ret|].
  apply preserves_bind; auto.
Qed.

Lemma preserves_map_each {A B : Type} (f : A → prog E B) (xs : list A) :
  (∀ x, preserves I (f x)) → preserves I (map_each f xs).
Proof.
  intros Hf. induction xs as [|x xs IH]; simpl; [apply preserves_ret|].
  apply preserves_bind; [auto|]. intros y.
  apply preserves_bind; [auto|]. intros ys. apply preserves_ret.
Qed.

Lemma preserves_deref alarm : preserves I (deref alarm).
Proof. intros s Hs. unfold deref. by destruct (alarm_objs s !! alarm). Qed.
End preserves.

Section frozen.
Context (r : loc) (d : list (string * loc)).
#[local] Abbreviation frozen_r := (frozen (E:=E) r d).

(** A step that changes neither the dict objects nor [self._alarms]. *)
Lemma frozen_same s s' :
  dict_objs s' = dict_objs s → _alarms s' = _alarms s → frozen r d s → frozen r d s'.
Proof. intros Hd Ha [Hr Hlook]. split; congruence. Qed.

Lemma frozen_update_live (f : list (string * loc) → list (string * loc)) :
  preserves frozen_r (update_live f).
Proof.
  intros s [Hr Hlook]. split; [done|]. simpl. by rewrite lookup_insert_ne.
Qed.

Lemma frozen_new_dict_state (d' : list (string * loc)) s :
  frozen r d s →
  fresh (dom (dict_objs s)) ≠ r
  ∧ frozen r d (with_dict_objs <[fresh (dom (dict_objs s)) := d']> s).
Proof.
  intros [Hr Hlook].
  assert (fresh (dom (dict_objs s)) ≠ r) as Hfresh.
  { intros Heq. apply (is_fresh (dom (dict_objs s))). rewrite Heq.
    apply elem_of_dom. eauto. }
  split; [done|]. split; [done|]. simpl. by rewrite lookup_insert_ne.
Qed.

Lemma frozen_new_dict (d' : list (string * loc)) : preserves frozen_r (new_dict d').
Proof. intros s Hs. by apply frozen_new_dict_state. Qed.

Lemma frozen_rebind_alarms (d' : list (string * loc)) :
  preserves frozen_r (rebind_alarms d').
Proof.
  intros s Hs. destruct (frozen_new_dict_state d' s Hs) as [Hfresh [Hr Hlook]].
  split; [by apply not_eq_sym|exact Hlook].
Qed.

Lemma frozen_store_save : preserves frozen_r store_save.
Proof.
  intros s Hs. destruct (store_save s) as [s' res] eqn:Hsave.
  apply store_save_same in Hsave as ((_ & Hd & Ha & _) & _). by eapply frozen_same.
Qed.

Lemma frozen_store_load : preserves frozen_r store_load.
Proof. intros s Hs. unfold store_load. by destruct (load E (_store s)). Qed.

Lemma frozen_spawn alarm_id : preserves frozen_r (spawn alarm_id).
Proof. by intros s Hs. Qed.

Lemma frozen_cancel_task task : preserves frozen_r (cancel_task task).
Proof. by intros s Hs. Qed.

Lemma frozen_await_task task : preserves frozen_r (await_task task).
Proof. intros s Hs. unfold await_task. by destruct (status <$> _) as [[| |]|]. Qed.

Lemma frozen_assign_enabled alarm b : preserves frozen_r (assign_enabled alarm b).
Proof. by intros s Hs. Qed.

Lemma frozen_new_alarm a : preserves frozen_r (new_alarm a).
Proof. by intros s Hs. Qed.

Lemma frozen_players_play alarm : preserves frozen_r (players_play alarm).
Proof.
  unfold players_play, mbind, prog_bind.
  apply preserves_bind; [apply preserves_deref|]. intros a. by intros s Hs.
Qed.

Ltac frozen_step :=
  first
    [ apply frozen_update_live
    | apply frozen_new_dict
    | apply frozen_rebind_alarms
    | apply frozen_store_save
    | apply frozen_store_load
    | apply frozen_spawn
    | apply frozen_cancel_task
    | apply frozen_await_task
    | apply frozen_assign_enabled
    | apply frozen_new_alarm
    | apply frozen_players_play
    | apply preserves_ret
    | apply preserves_raise
    | apply preserves_gets
    | apply preserves_deref
    | apply preserves_for_each; intros ?
    | apply preserves_map_each; intros ?
    | apply preserves_modify; by intros ? ?
    | apply preserves_pure
    | apply preserves_bind; [|intros ?]
    | case_match ].

Lemma frozen__cancel alarm_id : preserves frozen_r (_cancel alarm_id).
Proof. unfold _cancel, mbind, prog_bind. repeat frozen_step. Qed.

Lemma frozen_task_step task now_utc s : frozen r d s → frozen r d (task_step task now_utc s).
Proof.
  intros Hs. destruct (task_step_disables task now_utc s) as (Hd & Ha & _).
  by eapply frozen_same.
Qed.

(** No operation writes to a dict object other than the live mapping. *)
Lemma frozen_run_op (o : op) : preserves frozen_r (run_op o).
Proof.
  destruct o; simpl;
    unfold start, stop, add_alarm, update_alarm, remove_alarm, enable, disable,
           trigger_now, snapshot, _reschedule, spawn_if_enabled, mbind, prog_bind;
    repeat first [ apply frozen__cancel
                 | apply preserves_modify; apply frozen_task_step
                 | frozen_step ].
Qed.

Lemma frozen_exec (ops : list op) s : frozen r d s → frozen r d (exec ops s).
Proof.
  revert s. induction ops as [|o ops IH]; intros s Hs; [done|].
  simpl. apply IH. by apply frozen_run_op.
Qed.
End frozen.

(** *** Snapshots *)

Lemma snapshot_eq s :
  snapshot s
  = (with_dict_objs <[fresh (dom (dict_objs s)) := live s]> s, Ok (fresh (dom (dict_objs s)))).
Proof. reflexivity. Qed.

Lemma read_enabled_frozen r d s key alarm :
  frozen r d s → dict_get key d = Some alarm →
  read_enabled s r key = Alarm.enabled <$> alarm_objs s !! alarm.
Proof. intros [_ Hr] Hget. unfold read_enabled. rewrite Hr. simpl. by rewrite Hget. Qed.

(** [enable] sets the flag of the object in the live mapping, whether or
    not the store accepts the save that follows. *)
Lemma enable_sets_flag s key alarm a :
  dict_get key (live s) = Some alarm → alarm_objs s !! alarm = Some a →
  Alarm.enabled a = false →
  alarm_objs (enable key s).1 !! alarm = Some (Alarm.set_enabled true a).
Proof.
  intros Hget Ha Hoff. unfold enable. run. rewrite Hget.
  unfold deref at 1. rewrite Ha, Hoff.
  unfold assign_enabled. run.
  destruct (store_save _) as [s1 [[]|e]] eqn:Hsave;
    apply store_save_same in Hsave as ((Hobjs & _) & _); simpl in *.
  - destruct (_started s1); simpl; rewrite ?spawn_eq; simpl;
      by rewrite Hobjs, lookup_alter_eq, Ha.
  - by rewrite Hobjs, lookup_alter_eq, Ha.
Qed.

(** A timer task that finds no next occurrence clears the flag of the
    object in the live mapping. *)
Lemma task_step_clears_flag s task now_utc key alarm a :
  task_objs s !! task = Some (mk_task key (Pending LoopTop)) →
  dict_get key (live s) = Some alarm → alarm_objs s !! alarm = Some a →
  Alarm.enabled a = true →
  Alarm.next_occurrence (zones E) a now_utc = Ok None →
  alarm_objs (task_step task now_utc s) !! alarm = Some (Alarm.set_enabled false a).
Proof.
  intros Htask Hget Ha Hon Hnext. unfold task_step. rewrite Htask.
  unfold _run_alarm_top. run. rewrite Hget. unfold deref. rewrite Ha.
  rewrite Hon. cbn [negb]. cbv beta iota. rewrite Hnext.
  unfold assign_enabled. run.
  destruct (store_save _) as [s1 [[]|e]] eqn:Hsave;
    apply store_save_same in Hsave as ((Hobjs & _) & _); simpl in *;
    by rewrite Hobjs, lookup_alter_eq, Ha.
Qed.

(** C10: [snapshot] returns a new dict object, distinct from the live
    mapping, that no later operation or timer-task step changes; the
    [Alarm] instances it refers to are those of the live mapping, so what
    the scheduler ([enable]) or a timer task later writes to [enabled]
    is read through the snapshot. *)
Theorem snapshot_is_shallow s s1 r :
  wf s → snapshot s = (s1, Ok r) →
  r ≠ _alarms s1
  ∧ live s1 = live s
  ∧ (∀ ops, dict_objs (exec ops s1) !! r = Some (live s))
  ∧ (∀ ops key alarm,
       dict_get key (live s) = Some alarm →
       read_enabled (exec ops s1) r key = Alarm.enabled <$> alarm_objs (exec ops s1) !! alarm)
  ∧ (∀ key alarm a,
       dict_get key (live s) = Some alarm → alarm_objs s !! alarm = Some a →
       Alarm.enabled a = false →
       read_enabled s1 r key = Some false
       ∧ read_enabled (enable key s1).1 r key = Some true)
  ∧ (∀ task now_utc key alarm a,
       task_objs s !! task = Some (mk_task key (Pending LoopTop)) →
       dict_get key (live s) = Some alarm → alarm_objs s !! alarm = Some a →
       Alarm.enabled a = true →
       Alarm.next_occurrence (zones E) a now_utc = Ok None →
       read_enabled s1 r key = Some true
       ∧ read_enabled (task_step task now_utc s1) r key = Some false).
Proof.
  intros [Hsome Hwf]. rewrite snapshot_eq. intros [= <- <-].
  set (r := fresh (dom (dict_objs s))).
  set (s1 := with_dict_objs <[r := live s]> s).
  assert (r ≠ _alarms s) as Hr.
  { intros Heq. apply (is_fresh (dom (dict_objs s))). fold r. rewrite Heq.
    by apply elem_of_dom. }
  assert (frozen r (live s) s1) as Hfrozen.
  { split; [done|]. simpl. apply lookup_insert_eq. }
  assert (live s1 = live s) as Hlive by (by apply live_new_dict).
  split; [done|]. split; [done|].
  split; [intros ops; by apply (frozen_exec r (live s) ops s1)|].
  split.
  { intros ops key alarm Hget.
    by apply (read_enabled_frozen r (live s)); [apply frozen_exec|]. }
  split.
  - intros key alarm a Hget Ha Hoff. split.
    + rewrite (read_enabled_frozen r (live s) s1 key alarm) by done.
      change (alarm_objs s1) with (alarm_objs s). rewrite Ha. simpl. by rewrite Hoff.
    + rewrite (read_enabled_frozen r (live s) _ key alarm);
        [|by apply (frozen_run_op r (live s) (Enable key))|done].
      rewrite (enable_sets_flag s1 key alarm a); [done|by rewrite Hlive|done..].
  - intros task now_utc key alarm a Htask Hget Ha Hon Hnext. split.
    + rewrite (read_enabled_frozen r (live s) s1 key alarm) by done.
      change (alarm_objs s1) with (alarm_objs s). rewrite Ha. simpl. by rewrite Hon.
    + rewrite (read_enabled_frozen r (live s) _ key alarm);
        [|by apply frozen_task_step|done].
      rewrite (task_step_clears_flag s1 task now_utc key alarm a);
        [done|done|by rewrite Hlive|done..].
Qed.
End scheduler_facts.

(** ** Runs of the scheduler on concrete states *)

Lemma clean_run_cons {E : environment} (o : Scheduler.op) (s s1 s2 : Scheduler.t E) :
  Scheduler.run_op o s = (s1, Ok ()) → Scheduler.clean_run s1 s2 → Scheduler.clean_run s s2.
Proof.
  intros Hop. induction 1 as [|o' s2 s3 _ IH Hop'].
  - eapply Scheduler.clean_step; [apply Scheduler.clean_nil|done].
  - by eapply Scheduler.clean_step.
Qed.

Lemma all_ok_clean_run {E : environment} (ops : list Scheduler.op) (s : Scheduler.t E) :
  all_ok ops s = true → Scheduler.clean_run s (Scheduler.exec ops s).
Proof.
  revert s. induction ops as [|o ops IH]; intros s; simpl; [constructor|].
  destruct (Scheduler.run_op o s) as [s1 [[]|e]] eqn:Hop; [|done].
  intros Hok. eapply clean_run_cons; [done|]. by apply IH.
Qed.

Lemma add_alarm_duplicate_witness :
  Scheduler.add_alarm 1%nat duplicate_before = (duplicate_before, Raise ValueError).
Proof.
  apply (add_alarm_duplicate duplicate_before 1%nat morning_off).
  - vm_compute. reflexivity.
  - exists 0%nat. vm_compute. reflexivity.
Defined.

(** C6 as stated fails: with a store whose [save] fails, [add_alarm]
    raises the store's error, and the alarm is in the live mapping all the
    same. *)
Lemma failed_add_alarm_stays_live :
  (Scheduler.add_alarm 0%nat failing_before).2 = Raise StorageError
  ∧ Scheduler.live failing_before = []
  ∧ Scheduler.live (Scheduler.add_alarm 0%nat failing_before).1 = [("morning", 0%nat)].
Proof. repeat split; vm_compute; reflexivity. Qed.

Lemma failing_before_wf : Scheduler.wf failing_before.
Proof.
  split; [exists []; vm_compute; reflexivity|].
  intros key alarm Hin.
  assert (Scheduler.live failing_before = []) as Hlive by (vm_compute; reflexivity).
  rewrite Hlive in Hin. by apply elem_of_nil in Hin.
Qed.

Lemma failed_save_keeps_the_change_witness :
  ∃ s', Scheduler.add_alarm 0%nat failing_before = (s', Raise StorageError)
        ∧ Scheduler.live s' = [("morning", 0%nat)]
        ∧ Scheduler._tasks s' = [] ∧ Scheduler.task_objs s' = ∅.
Proof.
  destruct (failed_save_keeps_the_change failing_before StorageError failing_before_wf
              (λ _, eq_refl)) as (Hadd & _).
  destruct (Hadd 0%nat morning) as (s' & Heq & Hlive & Htasks & Htobjs).
  - vm_compute. reflexivity.
  - vm_compute. reflexivity.
  - exists s'. split; [exact Heq|]. split; [|split].
    + rewrite Hlive. vm_compute. reflexivity.
    + rewrite Htasks. vm_compute. reflexivity.
    + rewrite Htobjs. vm_compute. reflexivity.
Defined.

Lemma wake_fired_fields :
  Scheduler._started wake_fired = true
  ∧ Scheduler.live wake_fired = [("wake", 0%nat)]
  ∧ Scheduler._tasks wake_fired = [("wake", 0%nat)]
  ∧ Scheduler.alarm_objs wake_fired !! 0%nat = Some (Alarm.set_enabled false wake)
  ∧ Scheduler.task_objs wake_fired !! 0%nat = Some (mk_task "wake" Finished).
Proof. repeat split; vm_compute; reflexivity. Qed.

Lemma wake_waiting_fields :
  Scheduler._started wake_waiting = true
  ∧ Scheduler.live wake_waiting = [("wake", 0%nat)]
  ∧ Scheduler._tasks wake_waiting = [("wake", 0%nat)]
  ∧ Scheduler.alarm_objs wake_waiting !! 0%nat = Some wake
  ∧ Scheduler.task_objs wake_waiting !! 0%nat
    = Some (mk_task "wake" (Pending (Waiting 0%nat (datetime 2024 1 1 10 0 2 0)))).
Proof. repeat split; vm_compute; reflexivity. Qed.

Lemma single_entry_match {E : environment} (s : Scheduler.t E) key alarm task a :
  Scheduler._started s = true →
  Scheduler.live s = [(key, alarm)] →
  Scheduler._tasks s = [(key, task)] →
  Scheduler.alarm_objs s !! alarm = Some a →
  Scheduler.tasks_match_enabled s ↔ Alarm.enabled a = true.
Proof.
  intros Hstarted Hlive Htasks Hobj. unfold Scheduler.tasks_match_enabled.
  rewrite Hlive, Htasks. split.
  - intros Hmatch. destruct (Hmatch Hstarted) as [_ Hiff].
    apply (Hiff key alarm a); [|done|].
    + simpl. by rewrite decide_True.
    + simpl. rewrite decide_True by done. eauto.
  - intros Hen _. split.
    { intros key'. simpl. case_decide; [eauto|done]. }
    intros key' alarm' a'. simpl. case_decide; [|done].
    intros [= <-] Ha'. rewrite Hobj in Ha'. injection Ha' as <-. split; eauto.
Qed.


Lemma wake_fired_run :
  wake_fired
  = Scheduler.exec (wake_run ++ [Scheduler.TaskStep 0%nat (datetime 2024 1 1 10 0 2 0)])
      (Scheduler.__init__ memory_env []).
Proof. vm_compute. reflexivity. Qed.


Lemma holding_morning_off_wf : Scheduler.wf holding_morning_off.
Proof.
  split; [exists [("morning", 0%nat)]; vm_compute; reflexivity|].
  intros key alarm Hin.
  assert (Scheduler.live holding_morning_off = [("morning", 0%nat)]) as Hlive
    by (vm_compute; reflexivity).
  rewrite Hlive in Hin. apply list_elem_of_singleton in Hin. injection Hin as -> ->.
  exists morning_off. split; vm_compute; reflexivity.
Qed.

Lemma snapshot_is_shallow_witness :
  Scheduler.dict_objs
    (Scheduler.exec [Scheduler.NewAlarm wake; Scheduler.AddAlarm 1%nat;
                     Scheduler.RemoveAlarm "morning"]
       (Scheduler.snapshot holding_morning_off).1) !! 2%nat
  = Some [("morning", 0%nat)]
  ∧ Scheduler.read_enabled (Scheduler.snapshot holding_morning_off).1 2%nat "morning"
    = Some false
  ∧ Scheduler.read_enabled
      (Scheduler.enable "morning" (Scheduler.snapshot holding_morning_off).1).1
      2%nat "morning"
    = Some true.
Proof.
  destruct (snapshot_is_shallow holding_morning_off
              (Scheduler.snapshot holding_morning_off).1 2%nat holding_morning_off_wf)
    as (_ & _ & Hframe & _ & Henable & _).
  { vm_compute. reflexivity. }
  split.
  - rewrite Hframe. vm_compute. reflexivity.
  - apply (Henable "morning" 0%nat morning_off); vm_compute; reflexivity.
Defined.

(** ** The calendar: ordinals and dates *)

Lemma month_day_checked (leapyear : bool) :
  forallb (month_day_check leapyear) (seqZ 0 366) = true.
Proof. destruct leapyear; vm_compute; reflexivity. Qed.

Lemma month_day_spec (leapyear : bool) (n : Z) :
  0 ≤ n < 365 + (if leapyear then 1 else 0) →
  let '(m, d) := month_day leapyear n in
  1 ≤ m ≤ 12 ∧ 1 ≤ d ≤ _DAYS_IN_MONTH m + (if (m =? 2) && leapyear then 1 else 0)
  ∧ _DAYS_BEFORE_MONTH m + (if (2 <? m) && leapyear then 1 else 0) + d = n + 1.
Proof.
  intros Hn.
  pose proof (month_day_checked leapyear) as Hall.
  rewrite forallb_forall in Hall. specialize (Hall n).
  unfold month_day_check in Hall. destruct (month_day leapyear n) as [m d].
  assert (In n (seqZ 0 366)) as Hin.
  { apply list_elem_of_In, elem_of_seqZ. destruct leapyear; lia. }
  specialize (Hall Hin).
  destruct (Z.ltb_spec n (365 + (if leapyear then 1 else 0))); [|lia].
  simpl in Hall.
  repeat (apply andb_prop in Hall as [Hall ?]). lia.
Qed.

Lemma _ord2ymd_month_day (n : Z) :
  let n0 := n - 1 in
  let n400 := n0 / _DI400Y in
  let r400 := n0 mod _DI400Y in
  let n100 := r400 / _DI100Y in
  let r100 := r400 mod _DI100Y in
  let n4 := r100 / _DI4Y in
  let r4 := r100 mod _DI4Y in
  let n1 := r4 / 365 in
  let r1 := r4 mod 365 in
  let y := n400 * 400 + 1 + n100 * 100 + n4 * 4 + n1 in
  _ord2ymd n =
  if (n1 =? 4) || (n100 =? 4) then mk_date (y - 1) 12 31
  else
    let md := month_day ((n1 =? 3) && (negb (n4 =? 24) || (n100 =? 3))) r1 in
    mk_date y md.1 md.2.
Proof.
  cbv zeta. unfold _ord2ymd, month_day. cbv zeta.
  destruct (_ || _); [done|].
  by destruct (_ <? _).
Qed.

Lemma _is_leap_parts (n400 n100 n4 n1 : Z) :
  0 ≤ n400 → 0 ≤ n100 ≤ 3 → 0 ≤ n4 ≤ 24 → 0 ≤ n1 ≤ 3 →
  _is_leap (n400 * 400 + 1 + n100 * 100 + n4 * 4 + n1)
  = (n1 =? 3) && (negb (n4 =? 24) || (n100 =? 3)).
Proof.
  intros. unfold _is_leap.
  destruct (Z.eqb_spec n1 3), (Z.eqb_spec n4 24), (Z.eqb_spec n100 3); simpl;
    repeat match goal with
           | |- context [?a =? ?b] => destruct (Z.eqb_spec a b)
           end; simpl; try reflexivity;
    exfalso; Z.div_mod_to_equations; lia.
Qed.

Lemma _days_before_year_parts (n400 n100 n4 n1 : Z) :
  0 ≤ n400 → 0 ≤ n100 ≤ 3 → 0 ≤ n4 ≤ 24 → 0 ≤ n1 ≤ 3 →
  _days_before_year (n400 * 400 + 1 + n100 * 100 + n4 * 4 + n1)
  = n400 * _DI400Y + n100 * _DI100Y + n4 * _DI4Y + n1 * 365.
Proof.
  intros. unfold _days_before_year, _DI400Y, _DI100Y, _DI4Y. cbv zeta.
  Z.div_mod_to_equations. lia.
Qed.

(** [_ord2ymd] inverts [_ymd2ord], and gives a date that exists. *)
Lemma _ord2ymd_spec (n : Z) :
  1 ≤ n ≤ _MAXORDINAL →
  toordinal (_ord2ymd n) = n ∧ valid_date (_ord2ymd n) = true.
Proof.
  intros Hn. rewrite _ord2ymd_month_day. cbv zeta.
  set (n0 := n - 1).
  set (n400 := n0 / _DI400Y). set (r400 := n0 mod _DI400Y).
  set (n100 := r400 / _DI100Y). set (r100 := r400 mod _DI100Y).
  set (n4 := r100 / _DI4Y). set (r4 := r100 mod _DI4Y).
  set (n1 := r4 / 365). set (r1 := r4 mod 365).
  assert (n0 = _DI400Y * n400 + r400 ∧ 0 ≤ r400 < _DI400Y) as [E400 B400].
  { subst n400 r400. unfold _DI400Y. Z.div_mod_to_equations. lia. }
  assert (r400 = _DI100Y * n100 + r100 ∧ 0 ≤ r100 < _DI100Y) as [E100 B100].
  { subst n100 r100. unfold _DI100Y. Z.div_mod_to_equations. lia. }
  assert (r100 = _DI4Y * n4 + r4 ∧ 0 ≤ r4 < _DI4Y) as [E4 B4].
  { subst n4 r4. unfold _DI4Y. Z.div_mod_to_equations. lia. }
  assert (r4 = 365 * n1 + r1 ∧ 0 ≤ r1 < 365) as [E1 B1].
  { subst n1 r1. Z.div_mod_to_equations. lia. }
  assert (n = n0 + 1) as En by (subst n0; lia).
  clearbody n0 n400 r400 n100 r100 n4 r4 n1 r1.
  unfold _DI400Y, _DI100Y, _DI4Y, _MAXORDINAL in *.
  assert (0 ≤ n400 ≤ 24) by lia.
  assert (0 ≤ n100 ≤ 4) by lia.
  assert (0 ≤ n4 ≤ 24) by lia.
  assert (0 ≤ n1 ≤ 4) by lia.
  destruct (Z.eqb_spec n1 4) as [H14|H14]; [|destruct (Z.eqb_spec n100 4) as [H1004|H1004]];
    cbn [orb].
  - (* the last day of a leap year that ends a four-year cycle *)
    assert (r1 = 0) by lia.
    replace (n400 * 400 + 1 + n100 * 100 + n4 * 4 + n1 - 1)
      with (n400 * 400 + 1 + n100 * 100 + n4 * 4 + 3) by lia.
    assert (n100 ≤ 3) by lia.
    unfold toordinal, valid_date, _ymd2ord, _days_before_month, _days_in_month. simpl.
    rewrite _days_before_year_parts, _is_leap_parts by lia.
    unfold _DI400Y, _DI100Y, _DI4Y, MINYEAR, MAXYEAR.
    assert ((3 =? 3) && (negb (n4 =? 24) || (n100 =? 3)) = true) as ->.
    { simpl. destruct (Z.eqb_spec n4 24), (Z.eqb_spec n100 3); simpl; try done. lia. }
    simpl. split; [lia|].
    repeat (apply andb_true_intro; split); lia.
  - (* the last day of a 400-year cycle *)
    assert (r100 = 0 ∧ n4 = 0 ∧ r4 = 0 ∧ n1 = 0 ∧ r1 = 0) as (-> & -> & -> & -> & ->) by lia.
    subst n100.
    replace (n400 * 400 + 1 + 4 * 100 + 0 * 4 + 0 - 1)
      with (n400 * 400 + 1 + 3 * 100 + 24 * 4 + 3) by lia.
    unfold toordinal, valid_date, _ymd2ord, _days_before_month, _days_in_month. simpl.
    rewrite _days_before_year_parts, _is_leap_parts by lia.
    unfold _DI400Y, _DI100Y, _DI4Y, MINYEAR, MAXYEAR.
    simpl. split; [lia|].
    repeat (apply andb_true_intro; split); lia.
  - assert (n100 ≤ 3 ∧ n1 ≤ 3) as [? ?] by lia.
    set (leapyear := (n1 =? 3) && (negb (n4 =? 24) || (n100 =? 3))).
    assert (0 ≤ r1 < 365 + (if leapyear then 1 else 0)) as Hr1
      by (destruct leapyear; lia).
    pose proof (month_day_spec leapyear r1 Hr1) as Hmd.
    destruct (month_day leapyear r1) as [m d]. destruct Hmd as (Hm & Hd & Hsum).
    cbn [fst snd].
    unfold toordinal, valid_date, _ymd2ord, _days_before_month, _days_in_month.
    cbn [year month day].
    rewrite _days_before_year_parts, _is_leap_parts by lia.
    fold leapyear.
    unfold _DI400Y, _DI100Y, _DI4Y, MINYEAR, MAXYEAR.
    split; [lia|].
    assert ((if (m =? 2) && leapyear then 29 else _DAYS_IN_MONTH m)
            = _DAYS_IN_MONTH m + (if (m =? 2) && leapyear then 1 else 0)) as ->.
    { destruct (Z.eqb_spec m 2) as [->|]; simpl; [|lia]. destruct leapyear; reflexivity. }
    assert (n400 * 400 + 1 + n100 * 100 + n4 * 4 + n1 ≤ 9999) by lia.
    repeat (apply andb_true_intro; split); lia.
Qed.

(** ** Further properties of the occurrence calculator *)

(** *** Dates of instants *)

Lemma check_datetime_Ok (us r : Z) :
  check_datetime us = Ok r → r = us ∧ DATETIME_MIN ≤ us ≤ DATETIME_MAX.
Proof.
  unfold check_datetime.
  destruct (Z.leb_spec DATETIME_MIN us), (Z.leb_spec us DATETIME_MAX); simpl; try done.
  intros [= <-]. lia.
Qed.

(** The date of a wall-clock reading is the day its midnight starts. *)
Lemma toordinal_date_of (wall : Z) :
  DATETIME_MIN ≤ wall ≤ DATETIME_MAX →
  toordinal (date_of wall) = wall / US_PER_DAY
  ∧ toordinal (date_of wall) * US_PER_DAY ≤ wall < (toordinal (date_of wall) + 1) * US_PER_DAY.
Proof.
  unfold DATETIME_MIN, DATETIME_MAX, date_of. intros Hwall.
  assert (1 ≤ wall / US_PER_DAY ≤ _MAXORDINAL) as Hord.
  { unfold US_PER_DAY, US_PER_SECOND, _MAXORDINAL in *. Z.div_mod_to_equations. lia. }
  destruct (_ord2ymd_spec _ Hord) as [-> _].
  split; [done|]. unfold US_PER_DAY, US_PER_SECOND. Z.div_mod_to_equations. lia.
Qed.

Lemma date_add_days_Ok (d d' : date) (k : Z) :
  date_add_days d k = Ok d' →
  toordinal d' = toordinal d + k ∧ valid_date d' = true
  ∧ weekday d' = (weekday d + k) mod 7
  ∧ 1 ≤ toordinal d' ≤ _MAXORDINAL
  ∧ _ord2ymd (toordinal d') = d'.
Proof.
  unfold date_add_days. cbv zeta.
  destruct (Z.ltb_spec 0 (toordinal d + k)), (Z.leb_spec (toordinal d + k) _MAXORDINAL);
    simpl; try done.
  intros [= <-].
  destruct (_ord2ymd_spec (toordinal d + k)) as [Hord Hvalid]; [lia|].
  split; [done|]. split; [done|].
  split; [unfold weekday; rewrite Hord; Z.div_mod_to_equations; lia|].
  split; [lia|]. by rewrite Hord.
Qed.

Lemma US_PER_DAY_eq : US_PER_DAY = 86400000000.
Proof. reflexivity. Qed.

Lemma py_min_elem (first : Z) (others : list Z) : py_min first others ∈ first :: others.
Proof.
  unfold py_min. revert first. induction others as [|x others IH]; intros first; simpl.
  { left. }
  specialize (IH (Z.min first x)). apply elem_of_cons in IH as [Heq|Hin].
  - rewrite Heq. destruct (Z.min_spec first x) as [[_ ->]|[_ ->]]; [left|right; left].
  - right. by right.
Qed.

Lemma normalized_days_range (days : list Z) (d : Z) :
  normalized_days days = true → d ∈ days → 0 ≤ d ≤ 6.
Proof.
  unfold normalized_days. intros [Hrange _]%andb_prop Hd%list_elem_of_In.
  rewrite forallb_forall in Hrange. specialize (Hrange d Hd). lia.
Qed.

Lemma valid_alarm_days (a : Alarm.t) :
  valid_alarm a = true → normalized_days (Alarm.repeat_days a) = true.
Proof.
  unfold valid_alarm. intros Hv. repeat (apply andb_prop in Hv as [Hv ?]). done.
Qed.

Lemma local_time_range (a : Alarm.t) :
  valid_alarm a = true → 0 ≤ local_time a < US_PER_DAY.
Proof.
  unfold valid_alarm, local_time, US_PER_DAY, US_PER_SECOND. intros Hv.
  repeat (apply andb_prop in Hv as [Hv ?]). lia.
Qed.

(** What the seven-day scan returns, when it returns a date. *)
Lemma scan_found (a : Alarm.t) (tz : tzinfo) (alarm_time : Z)
    (today candidate_date : date) (now : Z) (offsets : list Z) (t : Z) :
  Alarm.scan a tz alarm_time today candidate_date now offsets = Ok (Some t) →
  ∃ offset possible_date,
    offset ∈ offsets
    ∧ date_add_days today offset = Ok possible_date
    ∧ date_ltb possible_date candidate_date = false
    ∧ weekday possible_date ∈ Alarm.repeat_days a
    ∧ Alarm.combine tz alarm_time possible_date = Ok t
    ∧ now + GRACE < t.
Proof.
  induction offsets as [|offset offsets IH]; [done|].
  cbn [Alarm.scan].
  intros (possible_date & Hdate & Hscan)%bind_Ok.
  assert (Alarm.scan a tz alarm_time today candidate_date now offsets = Ok (Some t) →
          ∃ offset' possible_date',
            offset' ∈ offset :: offsets
            ∧ date_add_days today offset' = Ok possible_date'
            ∧ date_ltb possible_date' candidate_date = false
            ∧ weekday possible_date' ∈ Alarm.repeat_days a
            ∧ Alarm.combine tz alarm_time possible_date' = Ok t
            ∧ now + GRACE < t) as Hrest.
  { intros (offset' & d' & Hin & H)%IH. exists offset', d'. split; [by right|done]. }
  destruct (date_ltb possible_date candidate_date) eqn:Hlt; [auto|].
  case_bool_decide as Hday; cbn [negb] in Hscan; [|auto].
  apply bind_Ok in Hscan as (occurrence & Hocc & Hscan).
  apply bind_Ok in Hscan as (limit & Hlimit & Hscan).
  destruct (Z.ltb_spec limit occurrence) as [Hgt|]; [|auto].
  injection Hscan as <-.
  exists offset, possible_date. split; [left|]. repeat split; try done.
  unfold datetime_add, check_datetime in Hlimit.
  destruct (_ && _); [|done]. injection Hlimit as <-. done.
Qed.

Section repeating.
Context (db : zone_db) (a : Alarm.t) (now : Z) (tz : tzinfo) (localized_now : Z).
Hypothesis a_valid : valid_alarm a = true.
Hypothesis a_zone : db (Alarm.timezone a) = Some tz.
Hypothesis now_local : astimezone tz now = Ok localized_now.
Hypothesis a_enabled : Alarm.enabled a = true.
Hypothesis a_repeats : Alarm.repeat_days a ≠ [].

(** The two ways a repeating alarm gets its occurrence: from the scan,
    after the grace window, or from the fallback, one to seven days ahead
    on the smallest repeat day. *)
Lemma next_occurrence_repeating (r : option Z) :
  Alarm.next_occurrence db a now = Ok r →
  ∃ t k d,
    r = Some t
    ∧ date_add_days (date_of localized_now) k = Ok d
    ∧ weekday d ∈ Alarm.repeat_days a
    ∧ Alarm.combine tz (local_time a) d = Ok t
    ∧ ((0 ≤ k ≤ 6 ∧ now + GRACE < t) ∨ 1 ≤ k ≤ 7).
Proof.
  unfold Alarm.next_occurrence, ZoneInfo.
  rewrite a_zone. cbn [mbind outcome_bind].
  rewrite now_local. cbn [mbind outcome_bind].
  rewrite (time_of_valid_alarm a a_valid). cbn [mbind outcome_bind].
  rewrite a_enabled. cbn [negb]. cbv zeta.
  rewrite (bool_decide_eq_false_2 (Alarm.repeat_days a = [])) by done.
  assert (match Alarm.start_date a with
          | Some start => date_ltb start (date_of localized_now) && false
          | None => false
          end = false) as -> by (destruct (Alarm.start_date a); by rewrite ?andb_false_r).
  pose proof (valid_alarm_days a a_valid) as Hdays.
  destruct (Alarm.repeat_days a) as [|first others] eqn:Hrepeat; [done|].
  intros (found & Hscan & Hfound)%bind_Ok.
  destruct found as [occurrence|].
  - injection Hfound as <-.
    apply scan_found in Hscan as (k & d & Hk & Hd & _ & Hday & Hocc & Hgrace).
    exists occurrence, k, d. rewrite Hrepeat in Hday.
    apply elem_of_seqZ in Hk.
    repeat split; try done. left. lia.
  - apply bind_Ok in Hfound as (d & Hd & Hfound).
    apply fmap_Ok in Hfound as (t & Ht & ->).
    pose proof (py_min_elem first others) as Hmin.
    pose proof (normalized_days_range _ _ Hdays Hmin) as Hrange.
    set (next_day := py_min first others) in *.
    set (today_idx := weekday (date_of localized_now)) in *.
    assert (0 ≤ today_idx ≤ 6) as Hidx.
    { subst today_idx. unfold weekday. Z.div_mod_to_equations. lia. }
    set (delta := if (next_day - today_idx) mod 7 =? 0 then 7
                  else (next_day - today_idx) mod 7) in *.
    assert (1 ≤ delta ≤ 7 ∧ (today_idx + delta) mod 7 = next_day) as [Hdelta Hweekday].
    { subst delta. destruct (Z.eqb_spec ((next_day - today_idx) mod 7) 0);
        Z.div_mod_to_equations; lia. }
    exists t, delta, d.
    destruct (date_add_days_Ok _ _ _ Hd) as (_ & _ & Hwd & _).
    fold today_idx in Hwd. rewrite Hweekday in Hwd.
    repeat split; try done; [by rewrite Hwd|by right].
Qed.

(** A repeating alarm always has a next occurrence: the alarm's local
    time on a date at most seven days after the local date of [now],
    whose weekday is one of [repeat_days]. *)
Theorem repeating_has_occurrence (r : option Z) :
  Alarm.next_occurrence db a now = Ok r →
  ∃ t k d,
    r = Some t
    ∧ 0 ≤ k ≤ 7
    ∧ date_add_days (date_of localized_now) k = Ok d
    ∧ weekday d ∈ Alarm.repeat_days a
    ∧ Alarm.combine tz (local_time a) d = Ok t.
Proof.
  intros (t & k & d & -> & Hd & Hday & Ht & Hk)%next_occurrence_repeating.
  exists t, k, d. repeat split; try done; lia.
Qed.

End repeating.

Lemma repeating_has_occurrence_witness :
  ∃ t k d,
    Some (datetime 2024 1 2 0 0 0 0) = Some t
    ∧ 0 ≤ k ≤ 7
    ∧ date_add_days (date_of (datetime 2024 1 1 23 59 59 700000)) k = Ok d
    ∧ weekday d ∈ Alarm.repeat_days tuesday_midnight
    ∧ Alarm.combine UTC (local_time tuesday_midnight) d = Ok t.
Proof.
  apply (repeating_has_occurrence utc_only tuesday_midnight
           (datetime 2024 1 1 23 59 59 700000) UTC (datetime 2024 1 1 23 59 59 700000));
    vm_compute; (reflexivity || discriminate).
Defined.

(** *** Zones with a fixed offset *)

Lemma combine_fixed (offset alarm_time t : Z) (d : date) :
  Alarm.combine (fixed_offset offset) alarm_time d = Ok t →
  t + offset = toordinal d * US_PER_DAY + alarm_time.
Proof.
  unfold Alarm.combine, astimezone_utc, datetime_combine.
  intros [-> _]%check_datetime_Ok. cbn [utcoffset_wall fixed_offset]. lia.
Qed.

Lemma astimezone_fixed (offset now localized_now : Z) :
  astimezone (fixed_offset offset) now = Ok localized_now →
  localized_now = now + offset
  ∧ toordinal (date_of localized_now) * US_PER_DAY ≤ localized_now
    < (toordinal (date_of localized_now) + 1) * US_PER_DAY.
Proof.
  unfold astimezone. intros [Heq Hrange]%check_datetime_Ok.
  cbn [utcoffset_utc fixed_offset] in Heq, Hrange. rewrite <- Heq in Hrange.
  split; [done|]. by apply toordinal_date_of.
Qed.

(** The instant is the alarm's time on the date, and the date is the
    local date of the instant. *)
Lemma combine_fixed_date (a : Alarm.t) (offset t k : Z) (today d : date) :
  valid_alarm a = true →
  date_add_days today k = Ok d →
  Alarm.combine (fixed_offset offset) (local_time a) d = Ok t →
  t + offset = (toordinal today + k) * US_PER_DAY + local_time a
  ∧ (t + offset) mod US_PER_DAY = local_time a
  ∧ date_of (t + offset) = d.
Proof.
  intros Htime%local_time_range Hd Ht%combine_fixed.
  destruct (date_add_days_Ok _ _ _ Hd) as (Hord & _ & _ & _ & Hinv).
  rewrite Ht, Hord. split; [done|].
  rewrite <- Hord. unfold date_of. rewrite US_PER_DAY_eq in *.
  assert ((toordinal d * 86400000000 + local_time a) / 86400000000 = toordinal d) as ->.
  { Z.div_mod_to_equations. lia. }
  split; [|done]. Z.div_mod_to_equations. lia.
Qed.

(** In a zone with a fixed offset, the instant [next_occurrence] returns
    is strictly after [now] and has the alarm's time of day on the zone's
    clock; for a repeating alarm its weekday on the zone's calendar is one
    of [repeat_days]. *)
Theorem next_occurrence_is_in_the_future (db : zone_db) (a : Alarm.t) (now offset t : Z) :
  valid_alarm a = true →
  db (Alarm.timezone a) = Some (fixed_offset offset) →
  Alarm.next_occurrence db a now = Ok (Some t) →
  now < t
  ∧ (t + offset) mod US_PER_DAY = local_time a
  ∧ (Alarm.repeat_days a ≠ [] →
     weekday (date_of (t + offset)) ∈ Alarm.repeat_days a).
Proof.
  intros Hvalid Hzone Hnext.
  assert (∃ localized_now,
            astimezone (fixed_offset offset) now = Ok localized_now
            ∧ Alarm.enabled a = true) as (localized_now & Hlocal & Hen).
  { unfold Alarm.next_occurrence, ZoneInfo in Hnext. rewrite Hzone in Hnext.
    cbn [mbind outcome_bind] in Hnext.
    destruct (astimezone (fixed_offset offset) now) as [l|]; [|done].
    cbn [mbind outcome_bind] in Hnext.
    rewrite (time_of_valid_alarm a Hvalid) in Hnext. cbn [mbind outcome_bind] in Hnext.
    destruct (Alarm.enabled a); [eauto|done]. }
  pose proof (local_time_range a Hvalid) as Htime.
  destruct (astimezone_fixed _ _ _ Hlocal) as [Hnow Htoday].
  destruct (decide (Alarm.repeat_days a = [])) as [Honce|Hrepeats].
  - (* a one-shot alarm *)
    rewrite (next_occurrence_once_unfold db a now _ localized_now Hvalid Honce Hzone Hlocal)
      in Hnext.
    rewrite Hen in Hnext. cbn [negb] in Hnext. cbv zeta in Hnext.
    destruct (match Alarm.start_date a with
              | Some start => date_ltb start (date_of localized_now)
              | None => false
              end); [done|].
    apply bind_Ok in Hnext as (occurrence & Hocc & Hnext).
    apply bind_Ok in Hnext as (limit & Hlimit & Hnext).
    unfold datetime_add in Hlimit. apply check_datetime_Ok in Hlimit as [-> _].
    apply combine_fixed in Hocc.
    destruct (Z.leb_spec occurrence (now + GRACE)) as [Hle|Hgt].
    + case_bool_decide; [done|].
      apply bind_Ok in Hnext as (tomorrow & Htomorrow & Hnext).
      apply fmap_Ok in Hnext as (t' & Ht' & [= ->]).
      destruct (combine_fixed_date a offset t' 1 _ tomorrow Hvalid Htomorrow Ht')
        as (Hsum & Hmod & _).
      split; [|split]; [|done|done].
      rewrite US_PER_DAY_eq in *. lia.
    + injection Hnext as ->.
      split; [unfold GRACE in *; lia|]. split; [|done].
      rewrite Hocc, US_PER_DAY_eq in *. Z.div_mod_to_equations. lia.
  - (* a repeating alarm *)
    destruct (next_occurrence_repeating db a now _ localized_now Hvalid Hzone Hlocal Hen
                Hrepeats _ Hnext) as (t' & k & d & [= <-] & Hd & Hday & Ht & Hk).
    destruct (combine_fixed_date a offset t k _ d Hvalid Hd Ht) as (Hsum & Hmod & Hdate).
    split; [|split]; [|done|by rewrite Hdate].
    destruct Hk as [[_ ?]|Hk]; [unfold GRACE in *; lia|].
    rewrite US_PER_DAY_eq in *. lia.
Qed.

Lemma next_occurrence_is_in_the_future_witness :
  datetime 2024 1 1 23 59 59 700000 < datetime 2024 1 2 0 0 0 0
  ∧ (datetime 2024 1 2 0 0 0 0 + 0) mod US_PER_DAY = local_time tuesday_midnight
  ∧ (Alarm.repeat_days tuesday_midnight ≠ [] →
     weekday (date_of (datetime 2024 1 2 0 0 0 0 + 0)) ∈ Alarm.repeat_days tuesday_midnight).
Proof.
  apply (next_occurrence_is_in_the_future utc_only tuesday_midnight
           (datetime 2024 1 1 23 59 59 700000) 0 (datetime 2024 1 2 0 0 0 0));
    vm_compute; reflexivity.
Defined.

(** What the seven-day scan of [next_occurrence] returns is the alarm's
    time on a scanned date that is not before the eligible date and whose
    weekday is a repeat day, and lies strictly after [now + 0.5s]. *)
Theorem scan_returns_eligible (a : Alarm.t) (tz : tzinfo) (alarm_time : Z)
    (today candidate_date : date) (now : Z) (offsets : list Z) (t : Z) :
  Alarm.scan a tz alarm_time today candidate_date now offsets = Ok (Some t) →
  ∃ offset possible_date,
    offset ∈ offsets
    ∧ date_add_days today offset = Ok possible_date
    ∧ date_ltb possible_date candidate_date = false
    ∧ weekday possible_date ∈ Alarm.repeat_days a
    ∧ Alarm.combine tz alarm_time possible_date = Ok t
    ∧ now + GRACE < t.
Proof. apply scan_found. Qed.

Lemma scan_returns_eligible_witness :
  ∃ offset possible_date,
    offset ∈ seqZ 0 7
    ∧ date_add_days (mk_date 2024 1 1) offset = Ok possible_date
    ∧ date_ltb possible_date (mk_date 2024 1 1) = false
    ∧ weekday possible_date ∈ [1; 3]
    ∧ Alarm.combine UTC (local_time gym) possible_date = Ok (datetime 2024 1 2 7 30 0 0)
    ∧ datetime 2024 1 1 6 0 0 0 + GRACE < datetime 2024 1 2 7 30 0 0.
Proof.
  apply (scan_returns_eligible gym UTC (local_time gym) (mk_date 2024 1 1)
           (mk_date 2024 1 1) (datetime 2024 1 1 6 0 0 0) (seqZ 0 7)).
  vm_compute. reflexivity.
Defined.

(** A disabled alarm has no next occurrence. *)
Theorem disabled_has_no_occurrence (db : zone_db) (a : Alarm.t) (now : Z) (tz : tzinfo)
    (localized_now : Z) :
  valid_alarm a = true →
  db (Alarm.timezone a) = Some tz →
  astimezone tz now = Ok localized_now →
  Alarm.enabled a = false →
  Alarm.next_occurrence db a now = Ok None.
Proof.
  intros Hvalid Hzone Hlocal Hoff. unfold Alarm.next_occurrence, ZoneInfo.
  rewrite Hzone. cbn [mbind outcome_bind].
  rewrite Hlocal. cbn [mbind outcome_bind].
  rewrite (time_of_valid_alarm a Hvalid). cbn [mbind outcome_bind].
  by rewrite Hoff.
Qed.

Lemma disabled_has_no_occurrence_witness :
  Alarm.next_occurrence utc_only morning_off (datetime 2024 1 1 8 0 0 0) = Ok None.
Proof.
  apply (disabled_has_no_occurrence utc_only morning_off (datetime 2024 1 1 8 0 0 0) UTC
           (datetime 2024 1 1 8 0 0 0)); vm_compute; reflexivity.
Defined.

(** An enabled one-shot alarm whose start date is the local date of [now]
    or a later one, and whose instant on that date lies more than the
    grace window after [now], rings at that instant. *)
Theorem once_with_start_date_ahead (db : zone_db) (a : Alarm.t) (now : Z) (tz : tzinfo)
    (localized_now limit t : Z) (start : date) :
  valid_alarm a = true →
  Alarm.repeat_days a = [] →
  db (Alarm.timezone a) = Some tz →
  astimezone tz now = Ok localized_now →
  Alarm.enabled a = true →
  Alarm.start_date a = Some start →
  date_ltb start (date_of localized_now) = false →
  Alarm.combine tz (local_time a) start = Ok t →
  datetime_add now GRACE = Ok limit →
  limit < t →
  Alarm.next_occurrence db a now = Ok (Some t).
Proof.
  intros Hvalid Honce Hzone Hlocal Hen Hstart Hnotpast Ht Hlimit Hlt.
  rewrite (next_occurrence_once_unfold db a now tz localized_now Hvalid Honce Hzone Hlocal).
  rewrite Hen, Hstart. cbv zeta. cbn [negb from_option id].
  rewrite Hnotpast, Ht. cbn [mbind outcome_bind]. rewrite Hlimit. cbn [mbind outcome_bind].
  destruct (Z.leb_spec t limit); [lia|reflexivity].
Qed.

Lemma once_with_start_date_ahead_witness :
  Alarm.next_occurrence utc_only doctor (datetime 2023 12 25 12 0 0 0)
  = Ok (Some (datetime 2024 1 1 7 0 0 0)).
Proof.
  apply (once_with_start_date_ahead utc_only doctor (datetime 2023 12 25 12 0 0 0) UTC
           (datetime 2023 12 25 12 0 0 0) (datetime 2023 12 25 12 0 0 500000)
           (datetime 2024 1 1 7 0 0 0) (mk_date 2024 1 1));
    vm_compute; reflexivity.
Defined.

(** *** The occurrence calculator returns *)

Lemma check_datetime_in (us : Z) :
  DATETIME_MIN ≤ us ≤ DATETIME_MAX → check_datetime us = Ok us.
Proof.
  intros Hus. unfold check_datetime.
  destruct (Z.leb_spec DATETIME_MIN us), (Z.leb_spec us DATETIME_MAX); simpl; try done; lia.
Qed.

Lemma date_add_days_in (d : date) (k : Z) :
  1 ≤ toordinal d + k ≤ _MAXORDINAL →
  ∃ d', date_add_days d k = Ok d' ∧ toordinal d' = toordinal d + k.
Proof.
  intros Hk. exists (_ord2ymd (toordinal d + k)). unfold date_add_days. cbv zeta.
  destruct (Z.ltb_spec 0 (toordinal d + k)), (Z.leb_spec (toordinal d + k) _MAXORDINAL);
    simpl; try lia.
  split; [done|]. by destruct (_ord2ymd_spec (toordinal d + k)).
Qed.

Section returns.
Context (tz : tzinfo).
Hypothesis tz_utc : ∀ utc, - US_PER_DAY ≤ utcoffset_utc tz utc ≤ US_PER_DAY.
Hypothesis tz_wall : ∀ wall, - US_PER_DAY ≤ utcoffset_wall tz wall ≤ US_PER_DAY.

Lemma combine_in (alarm_time : Z) (d : date) :
  0 ≤ alarm_time < US_PER_DAY → 2 ≤ toordinal d ≤ _MAXORDINAL - 1 →
  ∃ t, Alarm.combine tz alarm_time d = Ok t.
Proof.
  intros Htime Hd. eexists. unfold Alarm.combine, astimezone_utc, datetime_combine.
  apply check_datetime_in.
  pose proof (tz_wall (toordinal d * US_PER_DAY + alarm_time)) as Hoff.
  unfold DATETIME_MIN, DATETIME_MAX. rewrite US_PER_DAY_eq in *.
  unfold _MAXORDINAL in *. lia.
Qed.

Lemma scan_returns (a : Alarm.t) (alarm_time : Z) (today candidate_date : date) (now : Z)
    (offsets : list Z) :
  0 ≤ alarm_time < US_PER_DAY →
  2 ≤ toordinal today ≤ _MAXORDINAL - 8 →
  DATETIME_MIN ≤ now + GRACE ≤ DATETIME_MAX →
  Forall (λ offset, 0 ≤ offset ≤ 7) offsets →
  ∃ r, Alarm.scan a tz alarm_time today candidate_date now offsets = Ok r.
Proof.
  intros Htime Htoday Hnow. induction 1 as [|offset offsets Hoffset _ [r IH]]; simpl.
  { by eexists. }
  destruct (date_add_days_in today offset) as (d & -> & Hd); [lia|].
  cbn [mbind outcome_bind].
  destruct (date_ltb d candidate_date); [by exists r|].
  destruct (negb _); [by exists r|].
  destruct (combine_in alarm_time d) as [t ->]; [done|lia|].
  cbn [mbind outcome_bind]. unfold datetime_add.
  rewrite (check_datetime_in _ Hnow). cbn [mbind outcome_bind].
  destruct (_ <? _); [by eexists|by exists r].
Qed.

(** For a valid alarm in a known zone whose offsets stay within a day,
    an instant [now] from the third day of the calendar to ten days before
    its end, and a start date that is neither the first nor the last day
    of the calendar, [next_occurrence] returns: it raises nothing. *)
Theorem next_occurrence_returns (db : zone_db) (a : Alarm.t) (now : Z) :
  valid_alarm a = true →
  db (Alarm.timezone a) = Some tz →
  DATETIME_MIN + 2 * US_PER_DAY ≤ now ≤ DATETIME_MAX - 10 * US_PER_DAY →
  (∀ start, Alarm.start_date a = Some start → 2 ≤ toordinal start ≤ _MAXORDINAL - 1) →
  ∃ r, Alarm.next_occurrence db a now = Ok r.
Proof.
  intros Hvalid Hzone Hnow Hstart.
  pose proof (local_time_range a Hvalid) as Htime.
  pose proof (tz_utc now) as Hoff.
  assert (DATETIME_MIN + US_PER_DAY ≤ now + utcoffset_utc tz now
          ≤ DATETIME_MAX - 9 * US_PER_DAY) as Hlocal by lia.
  assert (DATETIME_MIN ≤ now + GRACE ≤ DATETIME_MAX) as Hgrace.
  { unfold GRACE, DATETIME_MIN, DATETIME_MAX in *. rewrite US_PER_DAY_eq in *. lia. }
  unfold Alarm.next_occurrence, ZoneInfo.
  rewrite Hzone. cbn [mbind outcome_bind].
  unfold astimezone. rewrite check_datetime_in
    by (unfold DATETIME_MIN, DATETIME_MAX in *; rewrite US_PER_DAY_eq in *; lia).
  cbn [mbind outcome_bind].
  rewrite (time_of_valid_alarm a Hvalid). cbn [mbind outcome_bind].
  destruct (negb (Alarm.enabled a)); [by eexists|]. cbv zeta.
  set (today := date_of (now + utcoffset_utc tz now)).
  assert (2 ≤ toordinal today ≤ _MAXORDINAL - 9) as Htoday.
  { destruct (toordinal_date_of (now + utcoffset_utc tz now)) as [Hord _].
    { unfold DATETIME_MIN, DATETIME_MAX in *. rewrite US_PER_DAY_eq in *. lia. }
    unfold today. rewrite Hord.
    unfold DATETIME_MIN, DATETIME_MAX, _MAXORDINAL in *. rewrite US_PER_DAY_eq in *.
    Z.div_mod_to_equations. lia. }
  destruct (match Alarm.start_date a with Some _ => _ | None => _ end); [by eexists|].
  destruct (Alarm.repeat_days a) as [|first others] eqn:Hrepeat.
  - assert (2 ≤ toordinal (default today (Alarm.start_date a)) ≤ _MAXORDINAL - 1) as Hcand.
    { destruct (Alarm.start_date a) as [start|]; simpl; [by apply Hstart|lia]. }
    destruct (combine_in (local_time a) _ Htime Hcand) as [t ->].
    cbn [mbind outcome_bind]. unfold datetime_add.
    rewrite (check_datetime_in _ Hgrace). cbn [mbind outcome_bind].
    destruct (t <=? now + GRACE); [|by eexists].
    destruct (bool_decide _); [by eexists|].
    destruct (date_add_days_in today 1) as (tomorrow & -> & Htomorrow); [lia|].
    cbn [mbind outcome_bind].
    destruct (combine_in (local_time a) tomorrow) as [t' ->]; [done|lia|].
    by eexists.
  - destruct (scan_returns a (local_time a) today (default today (Alarm.start_date a)) now
                (seqZ 0 7)) as [found ->]; [done|lia|done| |].
    { apply Forall_forall. intros k Hk%elem_of_seqZ. lia. }
    cbn [mbind outcome_bind]. destruct found as [occurrence|]; [by eexists|].
    set (delta := if _ =? 0 then 7 else _).
    assert (1 ≤ delta ≤ 7) as Hdelta.
    { subst delta. destruct (Z.eqb_spec ((py_min first others - weekday today) mod 7) 0);
        Z.div_mod_to_equations; lia. }
    destruct (date_add_days_in today delta) as (d & -> & Hd); [lia|].
    cbn [mbind outcome_bind].
    destruct (combine_in (local_time a) d) as [t ->]; [done|lia|].
    by eexists.
Qed.

End returns.

Lemma next_occurrence_returns_witness :
  ∃ r, Alarm.next_occurrence utc_only tuesday_from_20th (datetime 2024 1 1 10 0 0 0) = Ok r.
Proof.
  apply (next_occurrence_returns UTC).
  - intros utc. split; vm_compute; discriminate.
  - intros wall. split; vm_compute; discriminate.
  - vm_compute. reflexivity.
  - vm_compute. reflexivity.
  - split; vm_compute; discriminate.
  - intros start [= <-]. split; vm_compute; discriminate.
Defined.

(** ** Further properties of the records *)

Lemma _normalize_days_loop_spec (days seen normalized result : list Z) :
  _normalize_days_loop days seen normalized = Ok result →
  (∀ d, d ∈ seen ↔ d ∈ normalized) →
  NoDup normalized → Forall (λ d, 0 ≤ d ≤ 6) normalized →
  NoDup result ∧ Forall (λ d, 0 ≤ d ≤ 6) result.
Proof.
  revert seen normalized.
  induction days as [|d days IH]; intros seen normalized; simpl.
  { by intros [= <-]. }
  destruct (Z.ltb_spec d 0); [done|]. destruct (Z.ltb_spec 6 d); [done|]. simpl.
  case_bool_decide as Hseen; intros Hloop Hsame Hnd Hrange.
  - by apply (IH seen normalized).
  - apply (IH (d :: seen) (normalized ++ [d])%list Hloop).
    + intros x. rewrite elem_of_cons, elem_of_app, list_elem_of_singleton, Hsame. tauto.
    + apply NoDup_app. split; [done|]. split; [|apply NoDup_singleton].
      intros x Hx ->%list_elem_of_singleton. apply Hseen. by apply Hsame.
    + apply Forall_app. split; [done|]. apply Forall_singleton. lia.
Qed.

Lemma sorted_NoDup_increasing (l : list Z) :
  Sorted Z.le l → NoDup l → increasing l = true.
Proof.
  induction 1 as [|x l Hsorted IH Hhd]; [done|].
  intros [Hx Hnd]%NoDup_cons. destruct Hhd as [|y l Hxy]; [done|].
  change (increasing (x :: y :: l)) with ((x <? y) && increasing (y :: l)).
  rewrite IH by done. rewrite andb_true_r. apply Z.ltb_lt.
  assert (x ≠ y) by (intros ->; apply Hx; left). lia.
Qed.

Lemma _normalize_days_result (days result : list Z) :
  _normalize_days days = Ok result → normalized_days result = true.
Proof.
  intros Hnorm.
  destruct days as [|d days]; [by injection Hnorm as <-|].
  unfold _normalize_days in Hnorm.
  apply bind_Ok in Hnorm as (normalized & Hloop & [= <-]).
  apply _normalize_days_loop_spec in Hloop as [Hnd Hrange];
    [|done|constructor|constructor].
  unfold normalized_days, sorted. apply andb_true_intro. split.
  - apply forallb_forall. intros x Hx%list_elem_of_In.
    rewrite merge_sort_Permutation in Hx.
    rewrite Forall_forall in Hrange. specialize (Hrange x Hx). lia.
  - apply sorted_NoDup_increasing.
    + apply Sorted_merge_sort, _.
    + by rewrite merge_sort_Permutation.
Qed.

(** Repeat-day normalisation yields weekday indexes in range, ascending and
    without repetition, and is idempotent. *)
Theorem _normalize_days_idempotent (days result : list Z) :
  _normalize_days days = Ok result →
  normalized_days result = true ∧ _normalize_days result = Ok result.
Proof.
  intros Hnorm. pose proof (_normalize_days_result _ _ Hnorm) as Hresult.
  split; [done|]. by apply _normalize_days_normalized.
Qed.

Lemma _normalize_days_idempotent_witness :
  _normalize_days [3; 1; 1; 5] = Ok [1; 3; 5]
  ∧ normalized_days [1; 3; 5] = true
  ∧ _normalize_days [1; 3; 5] = Ok [1; 3; 5].
Proof.
  assert (_normalize_days [3; 1; 1; 5] = Ok [1; 3; 5]) as Hnorm
    by (vm_compute; reflexivity).
  split; [exact Hnorm|]. exact (_normalize_days_idempotent _ _ Hnorm).
Defined.

Lemma _normalize_days_loop_Ok (days seen normalized : list Z) :
  Forall (λ d, 0 ≤ d ≤ 6) days →
  (∀ d, d ∈ seen ↔ d ∈ normalized) →
  ∃ result, _normalize_days_loop days seen normalized = Ok result
            ∧ ∀ d, d ∈ result ↔ d ∈ normalized ∨ d ∈ days.
Proof.
  intros Hrange. revert seen normalized.
  induction Hrange as [|x days Hx _ IH]; intros seen normalized Hsame; simpl.
  { exists normalized. split; [done|]. intros d. rewrite elem_of_nil. tauto. }
  destruct (Z.ltb_spec x 0); [lia|]. destruct (Z.ltb_spec 6 x); [lia|]. simpl.
  case_bool_decide as Hseen.
  - destruct (IH seen normalized Hsame) as (result & -> & Hresult).
    exists result. split; [done|]. intros d. rewrite Hresult, elem_of_cons.
    apply Hsame in Hseen. split; [tauto|]. intros [?|[->|?]]; tauto.
  - destruct (IH (x :: seen) (normalized ++ [x])%list) as (result & -> & Hresult).
    { intros d. rewrite elem_of_cons, elem_of_app, list_elem_of_singleton, Hsame. tauto. }
    exists result. split; [done|]. intros d.
    rewrite Hresult, elem_of_app, list_elem_of_singleton, elem_of_cons. tauto.
Qed.

Lemma _normalize_days_loop_Raise (days seen normalized : list Z) :
  ¬ Forall (λ d, 0 ≤ d ≤ 6) days →
  _normalize_days_loop days seen normalized = Raise ValueError.
Proof.
  revert seen normalized. induction days as [|x days IH]; intros seen normalized Hbad.
  { destruct Hbad. constructor. }
  simpl. destruct (Z.ltb_spec x 0); [done|]. destruct (Z.ltb_spec 6 x); [done|]. simpl.
  assert (¬ Forall (λ d, 0 ≤ d ≤ 6) days) as Hrest.
  { intros Hrest. apply Hbad. constructor; [lia|done]. }
  case_bool_decide; by apply IH.
Qed.

Lemma _normalize_days_Ok (days : list Z) :
  Forall (λ d, 0 ≤ d ≤ 6) days →
  ∃ result, _normalize_days days = Ok result ∧ ∀ d, d ∈ result ↔ d ∈ days.
Proof.
  intros Hrange. destruct days as [|x days]; [by exists []|].
  unfold _normalize_days.
  destruct (_normalize_days_loop_Ok (x :: days) [] [] Hrange) as (result & -> & Hresult);
    [done|].
  exists (sorted result). split; [done|]. intros d.
  unfold sorted. rewrite merge_sort_Permutation, Hresult, elem_of_nil. tauto.
Qed.

Lemma _normalize_days_Raise (days : list Z) :
  ¬ Forall (λ d, 0 ≤ d ≤ 6) days → _normalize_days days = Raise ValueError.
Proof.
  intros Hbad. destruct days as [|x days]; [destruct Hbad; constructor|].
  unfold _normalize_days. by rewrite _normalize_days_loop_Raise.
Qed.

(** [_normalize_days] returns exactly when every day is a weekday index:
    then the result holds the days given, no other; otherwise it raises
    [ValueError]. *)
Theorem _normalize_days_accepts_weekdays (days : list Z) :
  (Forall (λ d, 0 ≤ d ≤ 6) days →
     ∃ result, _normalize_days days = Ok result ∧ ∀ d, d ∈ result ↔ d ∈ days)
  ∧ (¬ Forall (λ d, 0 ≤ d ≤ 6) days → _normalize_days days = Raise ValueError).
Proof. split; [apply _normalize_days_Ok|apply _normalize_days_Raise]. Qed.

(** [Alarm(...)] raises nothing but [ValueError], and raises it exactly
    when the id is empty, the time is not a time of day, a repeat day is
    not a weekday index, or [volume <= 0] holds. The time zone, the label,
    the start date and the music settings are not looked at. *)
Theorem alarm_new_rejects (id label : string) (hour minute second : Z) (timezone : string)
    (repeat_days : list Z) (start_date : option date) (music : MusicSettings.t)
    (enabled : bool) (volume : float) :
  (Alarm.new id label hour minute second timezone repeat_days start_date music enabled volume
   = Raise ValueError
   ↔ id = EmptyString
     ∨ ¬ (0 ≤ hour ≤ 23 ∧ 0 ≤ minute ≤ 59 ∧ 0 ≤ second ≤ 59)
     ∨ ¬ Forall (λ d, 0 ≤ d ≤ 6) repeat_days
     ∨ PrimFloat.leb volume 0 = true)
  ∧ ∀ e, Alarm.new id label hour minute second timezone repeat_days start_date music
           enabled volume = Raise e → e = ValueError.
Proof.
  unfold Alarm.new, Alarm.__post_init__. simpl.
  case_bool_decide as Hid; [split; [tauto|by intros e [= <-]]|].
  assert ((0 <=? hour) && (hour <=? 23) && (0 <=? minute) && (minute <=? 59)
          && (0 <=? second) && (second <=? 59) = true
          ↔ 0 ≤ hour ≤ 23 ∧ 0 ≤ minute ≤ 59 ∧ 0 ≤ second ≤ 59) as Htime.
  { rewrite !andb_true_iff, !Z.leb_le. tauto. }
  destruct (_ && _) eqn:Hclock; simpl.
  2:{ split; [|by intros e [= <-]]. split; [intros _|done].
      right. left. intros Hok%Htime. done. }
  apply proj1 in Htime. specialize (Htime eq_refl).
  destruct (decide (Forall (λ d, 0 ≤ d ≤ 6) repeat_days)) as [Hdays|Hdays].
  - destruct (_normalize_days_Ok repeat_days Hdays) as (days & -> & _). simpl.
    destruct (PrimFloat.leb volume 0) eqn:Hvol.
    + split; [tauto|by intros e [= <-]].
    + split; [|done]. split; [done|]. intros [?|[?|[?|?]]]; done.
  - rewrite (_normalize_days_Raise repeat_days Hdays). simpl.
    split; [tauto|by intros e [= <-]].
Qed.

Lemma new_Ok_valid (id label : string) (hour minute second : Z) (timezone : string)
    (repeat_days : list Z) (start_date : option date) (music : MusicSettings.t)
    (enabled : bool) (volume : float) (a : Alarm.t) :
  from_option valid_date true start_date = true →
  Alarm.new id label hour minute second timezone repeat_days start_date music enabled volume
    = Ok a →
  valid_alarm a = true
  ∧ Alarm.id a = id ∧ Alarm.hour a = hour ∧ Alarm.minute a = minute
  ∧ Alarm.second a = second ∧ Alarm.timezone a = timezone
  ∧ Alarm.start_date a = start_date ∧ Alarm.music a = music
  ∧ Alarm.enabled a = enabled ∧ Alarm.volume a = volume
  ∧ Alarm.label a = (if bool_decide (label = EmptyString) then id else label)
  ∧ _normalize_days repeat_days = Ok (Alarm.repeat_days a).
Proof.
  intros Hdate. unfold Alarm.new, Alarm.__post_init__. simpl.
  case_bool_decide as Hid; [done|].
  destruct (_ && _) eqn:Htime; [|done]. simpl.
  intros (days & Hdays & Hrest)%bind_Ok.
  destruct (PrimFloat.leb volume 0) eqn:Hvol; [done|].
  injection Hrest as <-. simpl.
  pose proof (_normalize_days_result _ _ Hdays) as Hnormalized.
  split; [|by repeat split].
  unfold valid_alarm. simpl.
  repeat (apply andb_prop in Htime as [Htime ?]).
  repeat match goal with H : (_ <=? _) = true |- _ => rewrite H; clear H end.
  rewrite (bool_decide_eq_false_2 (id = EmptyString)) by done.
  rewrite Hnormalized, Hdate, Hvol. simpl.
  rewrite !andb_true_r. apply negb_true_iff, bool_decide_eq_false.
  by case_bool_decide.
Qed.

(** What [Alarm(...)] returns is a valid alarm. *)
Theorem new_alarm_is_valid (id label : string) (hour minute second : Z) (timezone : string)
    (repeat_days : list Z) (start_date : option date) (music : MusicSettings.t)
    (enabled : bool) (volume : float) (a : Alarm.t) :
  from_option valid_date true start_date = true →
  Alarm.new id label hour minute second timezone repeat_days start_date music enabled volume
    = Ok a →
  valid_alarm a = true
  ∧ Alarm.id a = id ∧ Alarm.hour a = hour ∧ Alarm.minute a = minute
  ∧ Alarm.second a = second ∧ Alarm.timezone a = timezone
  ∧ Alarm.start_date a = start_date ∧ Alarm.music a = music
  ∧ Alarm.enabled a = enabled ∧ Alarm.volume a = volume
  ∧ Alarm.label a = (if bool_decide (label = EmptyString) then id else label)
  ∧ _normalize_days repeat_days = Ok (Alarm.repeat_days a).
Proof. apply new_Ok_valid. Qed.

Lemma new_alarm_is_valid_witness :
  Alarm.new "gym" EmptyString 7 30 0 "UTC" [3; 1; 1; 5] None MusicSettings.tone_default
    true 1%float
  = Ok (example_alarm "gym" 7 30 0 [1; 3; 5] None true)
  ∧ valid_alarm (example_alarm "gym" 7 30 0 [1; 3; 5] None true) = true.
Proof.
  assert (Alarm.new "gym" EmptyString 7 30 0 "UTC" [3; 1; 1; 5] None
            MusicSettings.tone_default true 1%float
          = Ok (example_alarm "gym" 7 30 0 [1; 3; 5] None true)) as Hnew
    by (vm_compute; reflexivity).
  split; [exact Hnew|].
  exact (proj1 (new_alarm_is_valid _ _ _ _ _ _ _ None _ _ _ _ eq_refl Hnew)).
Defined.

Lemma fromisoformat_Ok (s : string) (d : date) :
  fromisoformat s = Ok d → valid_date d = true.
Proof.
  unfold fromisoformat. repeat case_match; try done. by intros [= <-].
Qed.



(** Encoding [MusicSettings] and decoding the record gives the settings
    back, whatever the [extra] map holds. *)
Theorem music_settings_roundtrip (B : builtins) (m : MusicSettings.t) :
  MusicSettings.from_dict B (MusicSettings.to_dict m) = Ok m.
Proof. apply music_roundtrip. Qed.

(** ** Further properties of the scheduler *)

(** [trigger_now] changes nothing, neither the [enabled] flags nor the
    store, and raises [KeyError] for an id that is not in the live mapping. *)
Theorem trigger_now_changes_nothing {E : environment} (s : Scheduler.t E) (alarm_id : string) :
  (Scheduler.trigger_now alarm_id s).1 = s
  ∧ (Scheduler.trigger_now alarm_id s).2
    = match dict_get alarm_id (Scheduler.live s) with
      | None => Raise KeyError
      | Some alarm =>
          match Scheduler.alarm_objs s !! alarm with
          | Some a => play E a
          | None => Raise Unallocated
          end
      end.
Proof.
  split; [apply trigger_now_state|].
  unfold Scheduler.trigger_now, Scheduler.players_play, mbind, Scheduler.prog_bind,
    Scheduler.bind, Scheduler.gets, Scheduler.raise, Scheduler.act, Scheduler.deref.
  destruct (dict_get alarm_id (Scheduler.live s)) as [alarm|]; [|done].
  by destruct (Scheduler.alarm_objs s !! alarm).
Qed.

Section disable_cancels.
Import Scheduler.
Context {E : environment}.

(** [disable] on an enabled alarm with a pending timer task removes the
    task's entry and finishes the task: no later step of it plays. *)
Theorem disable_cancels_task (s s' : t E) alarm_id alarm a task task_id pc :
  dict_get alarm_id (live s) = Some alarm →
  alarm_objs s !! alarm = Some a →
  Alarm.enabled a = true →
  dict_get alarm_id (_tasks s) = Some task →
  task_objs s !! task = Some (mk_task task_id (Pending pc)) →
  disable alarm_id s = (s', Ok ()) →
  dict_get alarm_id (_tasks s') = None
  ∧ alarm_objs s' !! alarm = Some (Alarm.set_enabled false a)
  ∧ task_objs s' !! task = Some (mk_task task_id Finished)
  ∧ ∀ now_utc, task_step task now_utc s' = s'.
Proof.
  intros Hget Ha Hon Htask Hpending. unfold disable.
  unfold mbind, prog_bind, bind, gets, modify, ret, raise.
  rewrite Hget. unfold deref at 1. rewrite Ha, Hon. cbn [negb].
  unfold assign_enabled, modify.
  destruct (store_save _) as [s1 [[]|]] eqn:Hsave; [|done].
  apply store_save_same in Hsave as ((Hobjs1 & _) & Htasks1 & Htobjs1). simpl in *.
  unfold _cancel, mbind, prog_bind, bind, gets, modify, ret.
  rewrite Htasks1, Htask. unfold cancel_task, await_task, modify. simpl.
  rewrite lookup_alter_eq, Htobjs1, Hpending. simpl.
  intros [= <-]. simpl.
  split; [by rewrite dict_get_pop, decide_True|].
  split; [by rewrite Hobjs1, lookup_alter_eq, Ha|].
  assert (alter (λ k, match status k with
                      | Pending _ => mk_task (task_alarm_id k) Finished
                      | _ => k
                      end) task (task_objs s1) !! task
          = Some (mk_task task_id Finished)) as Hfinished.
  { by rewrite lookup_alter_eq, Htobjs1, Hpending. }
  split; [done|].
  intros now_utc. unfold task_step. simpl. by rewrite Hfinished.
Qed.
End disable_cancels.

Lemma disable_cancels_task_witness :
  dict_get "wake" (Scheduler._tasks (Scheduler.disable "wake" wake_waiting).1) = None
  ∧ Scheduler.alarm_objs (Scheduler.disable "wake" wake_waiting).1 !! 0%nat
    = Some (Alarm.set_enabled false wake)
  ∧ Scheduler.task_objs (Scheduler.disable "wake" wake_waiting).1 !! 0%nat
    = Some (mk_task "wake" Finished)
  ∧ ∀ now_utc,
      Scheduler.task_step 0%nat now_utc (Scheduler.disable "wake" wake_waiting).1
      = (Scheduler.disable "wake" wake_waiting).1.
Proof.
  apply (disable_cancels_task wake_waiting _ "wake" 0%nat wake 0%nat "wake"
           (Waiting 0%nat (datetime 2024 1 1 10 0 2 0))); vm_compute; reflexivity.
Defined.

(** ** Dictionaries with distinct keys *)

Section dict_keys_facts.
Context {V : Type}.
Implicit Types (d : list (string * V)) (k : string) (v : V).

Lemma dict_get_None k d : dict_get k d = None ↔ k ∉ dict_keys d.
Proof.
  unfold dict_keys. induction d as [|[k' v'] d IH]; simpl.
  - split; [intros _; apply not_elem_of_nil|done].
  - rewrite not_elem_of_cons. destruct (decide (k' = k)) as [->|Hne].
    + split; [done|]. by intros [? _].
    + rewrite IH. split; [by split|by intros [_ ?]].
Qed.

Lemma dict_set_fresh k v d : dict_get k d = None → dict_set k v d = (d ++ [(k, v)])%list.
Proof.
  induction d as [|[k' v'] d IH]; simpl; [done|].
  destruct (decide (k' = k)); [done|]. intros Hd. by rewrite IH.
Qed.

Lemma dict_keys_set k v d :
  dict_keys (dict_set k v d)
  = match dict_get k d with
    | Some _ => dict_keys d
    | None => (dict_keys d ++ [k])%list
    end.
Proof.
  unfold dict_keys. induction d as [|[k' v'] d IH]; simpl; [done|].
  destruct (decide (k' = k)) as [->|]; [done|].
  rewrite fmap_cons, IH. by destruct (dict_get k d).
Qed.

Lemma NoDup_dict_set k v d : NoDup (dict_keys d) → NoDup (dict_keys (dict_set k v d)).
Proof.
  intros Hnd. rewrite dict_keys_set.
  destruct (dict_get k d) eqn:Hget; [done|].
  apply NoDup_app. split; [done|]. split; [|apply NoDup_singleton].
  intros x Hx ->%list_elem_of_singleton. by apply dict_get_None in Hget.
Qed.

Lemma NoDup_dict_pop k d : NoDup (dict_keys d) → NoDup (dict_keys (dict_pop k d)).
Proof.
  unfold dict_keys, dict_pop. induction d as [|[k' v'] d IH]; [done|].
  rewrite fmap_cons. cbn [fst]. intros [Hk Hnd]%NoDup_cons.
  rewrite filter_cons. case_decide; [|auto].
  rewrite fmap_cons. apply NoDup_cons. split; [|auto].
  intros ([k'' v''] & Heq & [_ Hin]%list_elem_of_filter)%list_elem_of_fmap.
  simpl in Heq. subst k''.
  apply Hk. apply list_elem_of_fmap. by exists (k', v'').
Qed.

Lemma dict_pop_fresh k d : dict_get k d = None → dict_pop k d = d.
Proof.
  unfold dict_pop. induction d as [|[k' v'] d IH]; simpl; [done|].
  destruct (decide (k' = k)); [done|]. intros Hd.
  rewrite filter_cons. simpl. rewrite decide_True by done. by rewrite IH.
Qed.

Lemma dict_pop_set_fresh k v d : dict_get k d = None → dict_pop k (dict_set k v d) = d.
Proof.
  intros Hd. rewrite dict_set_fresh by done. unfold dict_pop.
  rewrite filter_app, filter_cons. simpl. rewrite decide_False by (by intros ?).
  rewrite filter_nil, app_nil_r. by apply dict_pop_fresh.
Qed.

Lemma dict_get_Some_NoDup k v d :
  NoDup (dict_keys d) → (k, v) ∈ d → dict_get k d = Some v.
Proof.
  unfold dict_keys. induction d as [|[k' v'] d IH]; simpl; [by intros _ ?%elem_of_nil|].
  intros [Hk Hnd]%NoDup_cons [[= -> ->]|Hin]%elem_of_cons.
  - by rewrite decide_True.
  - destruct (decide (k' = k)) as [->|]; [|auto].
    exfalso. apply Hk. apply list_elem_of_fmap. by exists (k, v).
Qed.
End dict_keys_facts.

Section scheduler_more.
Import Scheduler.
Context {E : environment}.
Implicit Types (s : t E) (alarm task : loc) (key alarm_id : string).

Ltac run := unfold mbind, prog_bind, bind, gets, modify, ret, raise, act.

(** An id that is not in the live mapping makes [remove_alarm], [enable],
    [disable] and [update_alarm] raise [KeyError] and change nothing. *)
Theorem unknown_id_raises s alarm_id :
  dict_get alarm_id (live s) = None →
  remove_alarm alarm_id s = (s, Raise KeyError)
  ∧ enable alarm_id s = (s, Raise KeyError)
  ∧ disable alarm_id s = (s, Raise KeyError)
  ∧ ∀ alarm a, alarm_objs s !! alarm = Some a → Alarm.id a = alarm_id →
      update_alarm alarm s = (s, Raise KeyError).
Proof.
  intros Hget. repeat split.
  - unfold remove_alarm. run. rewrite Hget.
    by rewrite bool_decide_eq_false_2 by (by intros [? ?]).
  - unfold enable. run. by rewrite Hget.
  - unfold disable. run. by rewrite Hget.
  - intros alarm a Ha <-. unfold update_alarm. run. unfold deref. rewrite Ha, Hget.
    by rewrite bool_decide_eq_false_2 by (by intros [? ?]).
Qed.

(** [enable] of an enabled alarm and [disable] of a disabled one return at
    once: nothing is saved, no task is started or cancelled. *)
Lemma enable_disable_settled s alarm_id alarm a :
  dict_get alarm_id (live s) = Some alarm →
  alarm_objs s !! alarm = Some a →
  (Alarm.enabled a = true → enable alarm_id s = (s, Ok ()))
  ∧ (Alarm.enabled a = false → disable alarm_id s = (s, Ok ())).
Proof.
  intros Hget Ha. split; intros Hen.
  - unfold enable. run. rewrite Hget. unfold deref. by rewrite Ha, Hen.
  - unfold disable. run. rewrite Hget. unfold deref. by rewrite Ha, Hen.
Qed.

(** *** The alarms of the live mapping *)

Lemma map_each_deref_live s :
  wf s → map_each deref (dict_values (live s)) s = (s, Ok (live_alarms s)).
Proof.
  intros Hall%wf_allocated. unfold live_alarms.
  induction Hall as [|l ls [a Ha] _ IH]; [done|].
  simpl. run. unfold deref at 1. rewrite Ha, IH. done.
Qed.

Lemma store_save_eq s :
  wf s →
  store_save s
  = (with_store (save E (_store s) (live_alarms s)).1 (Some (live_alarms s)) s,
     (save E (_store s) (live_alarms s)).2).
Proof.
  intros Hwf. unfold store_save. run. rewrite (map_each_deref_live s Hwf).
  by destruct (save E (_store s) (live_alarms s)).
Qed.

Lemma live_alarms_same s s' : same_alarms s s' → live_alarms s' = live_alarms s.
Proof.
  intros Hsame. unfold live_alarms. rewrite (same_alarms_live _ _ Hsame).
  destruct Hsame as (-> & _). done.
Qed.

(** *** [stop] *)

Lemma for_each_cancel_task_eq (tasks : list loc) s :
  for_each cancel_task tasks s
  = (with_task_objs (λ objs, foldl (λ objs task, alter cancelled task objs) objs tasks) s,
     Ok ()).
Proof.
  revert s. induction tasks as [|task tasks IH]; intros s; simpl.
  { run. by destruct s. }
  run. unfold cancel_task at 1. run. rewrite IH. done.
Qed.

Lemma foldl_cancel_lookup (tasks : list loc) (objs : gmap loc task) task :
  foldl (λ objs task, alter cancelled task objs) objs tasks !! task
  = (if bool_decide (task ∈ tasks) then cancelled else id) <$> objs !! task.
Proof.
  revert objs. induction tasks as [|t tasks IH]; intros objs; cbn [foldl].
  { rewrite (bool_decide_eq_false_2 (task ∈ [])) by apply not_elem_of_nil.
    by destruct (objs !! task). }
  rewrite IH, lookup_alter.
  destruct (decide (t = task)) as [->|Hne].
  - rewrite (bool_decide_eq_true_2 (task ∈ task :: tasks)) by left.
    destruct (objs !! task) as [k|]; simpl; [|done].
    case_bool_decide; simpl; [|done].
    f_equal. unfold cancelled. destruct (status k) eqn:Hst; simpl; by rewrite ?Hst.
  - destruct (objs !! task) as [k|]; simpl; [|done].
    f_equal. case_bool_decide as Hin.
    + rewrite bool_decide_eq_true_2; [done|]. by right.
    + rewrite bool_decide_eq_false_2; [done|].
      intros [?|?]%elem_of_cons; congruence.
Qed.

Lemma for_each_await_task_Ok (tasks : list loc) s :
  (∀ task k, task ∈ tasks → task_objs s !! task = Some k → ∀ e, status k ≠ Failed e) →
  for_each await_task tasks s = (s, Ok ()).
Proof.
  induction tasks as [|task tasks IH]; intros Hok; [done|].
  simpl. run. unfold await_task at 1.
  destruct (task_objs s !! task) as [k|] eqn:Hk; simpl.
  - destruct (status k) as [pc| |e] eqn:Hst.
    + apply IH. intros t' k' ? ?. apply (Hok t' k'); [by right|done].
    + apply IH. intros t' k' ? ?. apply (Hok t' k'); [by right|done].
    + exfalso. eapply (Hok task k); [left|done..].
  - apply IH. intros t' k' ? ?. apply (Hok t' k'); [by right|done].
Qed.

Lemma for_each_await_task_Raise (tasks : list loc) s task k e :
  task ∈ tasks → task_objs s !! task = Some k → status k = Failed e →
  ∃ e', for_each await_task tasks s = (s, Raise e').
Proof.
  intros Hin Hk Hst. induction tasks as [|t tasks IH]; [by apply elem_of_nil in Hin|].
  simpl. run. unfold await_task at 1.
  destruct (status <$> task_objs s !! t) as [[pc| |e0]|] eqn:Ht; [| |by eexists|];
    (apply elem_of_cons in Hin as [->|Hin];
       [rewrite Hk in Ht; simpl in Ht; congruence|by apply IH]).
Qed.

(** [stop], when no task of the task mapping has failed, returns normally:
    the task mapping is empty, the scheduler is stopped, every task that
    was in the mapping and pending is finished, and neither the alarms nor
    the store are touched. *)
Theorem stop_cancels_every_task s :
  (∀ task k, task ∈ dict_values (_tasks s) → task_objs s !! task = Some k →
             ∀ e, status k ≠ Failed e) →
  ∃ s', stop s = (s', Ok ())
        ∧ _tasks s' = [] ∧ _started s' = false
        ∧ alarm_objs s' = alarm_objs s ∧ dict_objs s' = dict_objs s
        ∧ _alarms s' = _alarms s
        ∧ _store s' = _store s ∧ save_log s' = save_log s
        ∧ ∀ task k, task ∈ dict_values (_tasks s) → task_objs s' !! task = Some k →
                    status k = Finished.
Proof.
  intros Hok. unfold stop. run.
  rewrite for_each_cancel_task_eq.
  set (s1 := with_task_objs _ s).
  assert (∀ task, task_objs s1 !! task
                  = (if bool_decide (task ∈ dict_values (_tasks s)) then cancelled else id)
                      <$> task_objs s !! task) as Hobjs.
  { intros task. apply foldl_cancel_lookup. }
  rewrite for_each_await_task_Ok.
  - eexists. split; [reflexivity|]. repeat split.
    intros task k Hin. cbn [task_objs with_started with_tasks]. rewrite Hobjs.
    rewrite bool_decide_eq_true_2 by done.
    destruct (task_objs s !! task) as [k0|] eqn:Hk0; [|done].
    intros [= <-]. unfold cancelled.
    destruct (status k0) as [pc| |e] eqn:Hst; cbn [status]; [done..|].
    by destruct (Hok task k0 Hin Hk0 e).
  - intros task k Hin. change (_tasks s1) with (_tasks s) in Hin. rewrite Hobjs.
    rewrite bool_decide_eq_true_2 by done.
    destruct (task_objs s !! task) as [k0|] eqn:Hk0; [|done].
    intros [= <-] e. unfold cancelled.
    destruct (status k0) as [pc| |e0] eqn:Hst; cbn [status];
      [done|by rewrite Hst|apply (Hok task k0 Hin Hk0)].
Qed.

(** *** Steps of a timer task *)

Lemma set_status_lookup task st s alarm_id st0 :
  task_objs s !! task = Some (mk_task alarm_id st0) →
  task_objs (set_status task st s) !! task = Some (mk_task alarm_id st).
Proof. intros Htask. unfold set_status. simpl. by rewrite lookup_alter_eq, Htask. Qed.

Lemma task_step_done task now_utc s alarm_id st :
  task_objs s !! task = Some (mk_task alarm_id st) → (∀ pc, st ≠ Pending pc) →
  task_step task now_utc s = s.
Proof.
  intros Htask Hst. unfold task_step. rewrite Htask.
  destruct st as [pc| |e]; [by destruct (Hst pc)|done..].
Qed.

(** When the player raises, the timer task ends with that exception and
    nothing else changes: the alarm stays enabled, nothing is saved. From
    then on [stop] raises too, before it clears the task mapping and the
    [started] flag. *)
Theorem player_error_blocks_stop s task alarm_id alarm next_time a e now_utc :
  task ∈ dict_values (_tasks s) →
  task_objs s !! task = Some (mk_task alarm_id (Pending (Waiting alarm next_time))) →
  alarm_objs s !! alarm = Some a →
  play E a = Raise e →
  task_step task now_utc s = set_status task (Failed e) s
  ∧ ∃ s' e', stop (task_step task now_utc s) = (s', Raise e')
             ∧ _started s' = _started s ∧ _tasks s' = _tasks s
             ∧ alarm_objs s' = alarm_objs s.
Proof.
  intros Hin Htask Ha Hplay.
  assert (task_step task now_utc s = set_status task (Failed e) s) as ->.
  { unfold task_step. rewrite Htask. unfold _run_alarm_fire, players_play. run.
    unfold deref. by rewrite Ha, Hplay. }
  split; [done|].
  pose proof (set_status_lookup task (Failed e) s _ _ Htask) as Hfailed.
  unfold stop. run. rewrite for_each_cancel_task_eq.
  set (s1 := with_task_objs _ (set_status task (Failed e) s)).
  destruct (for_each_await_task_Raise (dict_values (_tasks s)) s1 task
              (mk_task alarm_id (Failed e)) e) as [e' Hawait]; [done| |done|].
  { unfold s1. cbn [task_objs with_task_objs]. rewrite foldl_cancel_lookup, Hfailed.
    by case_bool_decide. }
  change (dict_values (_tasks (set_status task (Failed e) s)))
    with (dict_values (_tasks s)).
  change (dict_values (_tasks s1)) with (dict_values (_tasks s)).
  rewrite Hawait. by exists s1, e'.
Qed.

(** A timer task that wakes up plays the alarm. For a repeating alarm it
    goes back to the top of its loop and changes nothing. For a one-shot
    alarm it disables the alarm, saves the live alarms and finishes; no
    later step of it does anything. *)
Theorem woken_task_fires s task alarm_id alarm next_time a now_utc :
  task_objs s !! task = Some (mk_task alarm_id (Pending (Waiting alarm next_time))) →
  alarm_objs s !! alarm = Some a →
  play E a = Ok () →
  (Alarm.repeat_days a ≠ [] →
     task_step task now_utc s = set_status task (Pending LoopTop) s)
  ∧ (Alarm.repeat_days a = [] → wf s →
     (∀ alarms, (save E (_store s) alarms).2 = Ok ()) →
     ∃ s', task_step task now_utc s = s'
           ∧ alarm_objs s' = alter (Alarm.set_enabled false) alarm (alarm_objs s)
           ∧ task_objs s' !! task = Some (mk_task alarm_id Finished)
           ∧ save_log s' = live_alarms s' :: save_log s
           ∧ _store s' = (save E (_store s) (live_alarms s')).1
           ∧ live s' = live s ∧ _tasks s' = _tasks s ∧ _started s' = _started s
           ∧ ∀ later, task_step task later s' = s').
Proof.
  intros Htask Ha Hplay. split.
  - intros Hrepeat. unfold task_step. rewrite Htask.
    unfold _run_alarm_fire, players_play. run. unfold deref. rewrite Ha, Hplay, Ha.
    by rewrite bool_decide_eq_false_2.
  - intros Honce Hwf Hsave. unfold task_step. rewrite Htask.
    unfold _run_alarm_fire, players_play. run. unfold deref. rewrite Ha, Hplay, Ha.
    rewrite bool_decide_eq_true_2 by done.
    unfold assign_enabled. run.
    set (s1 := with_alarm_objs (alter (Alarm.set_enabled false) alarm) s).
    assert (wf s1) as Hwf1 by apply (assign_enabled_wf s Hwf).
    rewrite (store_save_eq s1 Hwf1).
    change (_store s1) with (_store s). rewrite Hsave.
    eexists. split; [reflexivity|].
    repeat split.
    + simpl. by rewrite lookup_alter_eq, Htask.
    + intros later.
      eapply task_step_done; [simpl; by rewrite lookup_alter_eq, Htask|by intros pc].
Qed.


(** *** What the mutating operations compute *)

Lemma wf_set s alarm a :
  wf s → alarm_objs s !! alarm = Some a →
  wf (with_live (dict_set (Alarm.id a) alarm) s).
Proof.
  intros [Hsome Hwf] Ha. split.
  - simpl. by rewrite lookup_insert_eq.
  - intros key l. unfold with_live. rewrite live_update.
    intros [[= -> ->]|Hl]%elem_of_dict_set; simpl; eauto.
Qed.

Lemma wf_pop s alarm_id : wf s → wf (with_live (dict_pop alarm_id) s).
Proof.
  intros [Hsome Hwf]. split.
  - simpl. by rewrite lookup_insert_eq.
  - intros key l. unfold with_live. rewrite live_update.
    intros Hl%elem_of_dict_pop. simpl. eauto.
Qed.

Lemma live_with_live (f : list (string * loc) → list (string * loc)) s :
  live (with_live f s) = f (live s).
Proof. apply live_update. Qed.

Lemma store_save_saved s : wf s → store_save s = (saved s, save_result s).
Proof. apply store_save_eq. Qed.

Lemma wf_saved s : wf s → wf (saved s).
Proof. apply same_alarms_wf. by repeat split. Qed.

Lemma wf_spawned alarm_id s : wf s → wf (spawned alarm_id s).
Proof. apply same_alarms_wf. by repeat split. Qed.

Lemma _cancel_eq alarm_id s :
  _cancel alarm_id s
  = (cancelled_in alarm_id s,
     match dict_get alarm_id (_tasks s) with
     | None => Ok ()
     | Some task =>
         match status <$> task_objs s !! task with
         | Some (Failed e) => Raise e
         | _ => Ok ()
         end
     end).
Proof.
  unfold _cancel, cancelled_in. run.
  destruct (dict_get alarm_id (_tasks s)) as [task|]; [|done].
  unfold cancel_task, await_task. run. simpl. rewrite lookup_alter_eq.
  destruct (task_objs s !! task) as [[id [pc| |e]]|]; done.
Qed.

Lemma wf_cancelled_in alarm_id s : wf s → wf (cancelled_in alarm_id s).
Proof.
  apply same_alarms_wf. unfold cancelled_in.
  destruct (dict_get alarm_id (_tasks s)); by repeat split.
Qed.

Lemma add_alarm_eq s alarm a :
  wf s → alarm_objs s !! alarm = Some a → dict_get (Alarm.id a) (live s) = None →
  add_alarm alarm s
  = match save_result (with_live (dict_set (Alarm.id a) alarm) s) with
    | Ok _ =>
        (if _started s && Alarm.enabled a
         then spawned (Alarm.id a) (saved (with_live (dict_set (Alarm.id a) alarm) s))
         else saved (with_live (dict_set (Alarm.id a) alarm) s),
         Ok ())
    | Raise e => (saved (with_live (dict_set (Alarm.id a) alarm) s), Raise e)
    end.
Proof.
  intros Hwf Ha Hfree. unfold add_alarm. run. unfold deref at 1. rewrite Ha, Hfree.
  rewrite bool_decide_eq_false_2 by (by intros [? ?]).
  unfold update_live. run. fold (with_live (dict_set (Alarm.id a) alarm) s).
  rewrite (store_save_saved _ (wf_set s alarm a Hwf Ha)).
  destruct (save_result _) as [[]|e]; [|done].
  unfold deref. cbn [alarm_objs saved with_live with_store with_dict_objs _started].
  rewrite Ha. by destruct (_started s && Alarm.enabled a).
Qed.

Lemma update_alarm_eq s alarm a :
  wf s → alarm_objs s !! alarm = Some a → is_Some (dict_get (Alarm.id a) (live s)) →
  update_alarm alarm s
  = match save_result (with_live (dict_set (Alarm.id a) alarm) s) with
    | Ok _ =>
        match (_cancel (Alarm.id a)
                 (saved (with_live (dict_set (Alarm.id a) alarm) s))).2 with
        | Ok _ =>
            (if _started s && Alarm.enabled a
             then spawned (Alarm.id a)
                    (cancelled_in (Alarm.id a)
                       (saved (with_live (dict_set (Alarm.id a) alarm) s)))
             else cancelled_in (Alarm.id a)
                    (saved (with_live (dict_set (Alarm.id a) alarm) s)),
             Ok ())
        | Raise e =>
            (cancelled_in (Alarm.id a)
               (saved (with_live (dict_set (Alarm.id a) alarm) s)), Raise e)
        end
    | Raise e => (saved (with_live (dict_set (Alarm.id a) alarm) s), Raise e)
    end.
Proof.
  intros Hwf Ha Hin. unfold update_alarm. run. unfold deref at 1. rewrite Ha.
  rewrite bool_decide_eq_true_2 by done.
  unfold update_live. run. fold (with_live (dict_set (Alarm.id a) alarm) s).
  rewrite (store_save_saved _ (wf_set s alarm a Hwf Ha)).
  destruct (save_result _) as [[]|e]; [|done].
  unfold _reschedule. run. rewrite _cancel_eq. cbn [fst snd].
  destruct (match dict_get _ _ with None => Ok () | Some _ => _ end) as [[]|e]; [|done].
  assert (live (cancelled_in (Alarm.id a)
                  (saved (with_live (dict_set (Alarm.id a) alarm) s)))
          = dict_set (Alarm.id a) alarm (live s)) as ->.
  { unfold cancelled_in. destruct (dict_get _ (_tasks _)); apply live_update. }
  rewrite dict_get_set_eq. unfold deref.
  assert (alarm_objs (cancelled_in (Alarm.id a)
                        (saved (with_live (dict_set (Alarm.id a) alarm) s)))
          = alarm_objs s) as ->.
  { unfold cancelled_in. by destruct (dict_get _ (_tasks _)). }
  rewrite Ha.
  assert (_started (cancelled_in (Alarm.id a)
                      (saved (with_live (dict_set (Alarm.id a) alarm) s)))
          = _started s) as ->.
  { unfold cancelled_in. by destruct (dict_get _ (_tasks _)). }
  by destruct (_started s && Alarm.enabled a).
Qed.

Lemma remove_alarm_eq s alarm_id :
  wf s → is_Some (dict_get alarm_id (live s)) →
  remove_alarm alarm_id s
  = match save_result (with_live (dict_pop alarm_id) s) with
    | Ok _ => _cancel alarm_id (saved (with_live (dict_pop alarm_id) s))
    | Raise e => (saved (with_live (dict_pop alarm_id) s), Raise e)
    end.
Proof.
  intros Hwf Hin. unfold remove_alarm. run.
  rewrite bool_decide_eq_true_2 by done.
  unfold update_live. run. fold (with_live (dict_pop alarm_id) s).
  rewrite (store_save_saved _ (wf_pop s alarm_id Hwf)).
  by destruct (save_result _) as [[]|e].
Qed.

Lemma live_alarms_set s alarm a :
  alarm_objs s !! alarm = Some a → dict_get (Alarm.id a) (live s) = None →
  live_alarms (with_live (dict_set (Alarm.id a) alarm) s) = (live_alarms s ++ [a])%list.
Proof.
  intros Ha Hfree. unfold live_alarms. rewrite live_with_live, dict_set_fresh by done.
  unfold dict_values. rewrite fmap_app, omap_app. simpl. by rewrite Ha.
Qed.

(** [add_alarm] of an alarm whose id is new, when the store accepts the
    save: the alarm is appended to the live mapping under its id, the live
    alarms are saved, and a timer task is created when the scheduler is
    started and the alarm enabled, and only then. *)
Theorem add_alarm_adds s alarm a :
  wf s → alarm_objs s !! alarm = Some a → dict_get (Alarm.id a) (live s) = None →
  (∀ alarms, (save E (_store s) alarms).2 = Ok ()) →
  ∃ s', add_alarm alarm s = (s', Ok ())
        ∧ live s' = (live s ++ [(Alarm.id a, alarm)])%list
        ∧ alarm_objs s' = alarm_objs s
        ∧ live_alarms s' = (live_alarms s ++ [a])%list
        ∧ save_log s' = live_alarms s' :: save_log s
        ∧ _store s' = (save E (_store s) (live_alarms s')).1
        ∧ _started s' = _started s
        ∧ if _started s && Alarm.enabled a
          then ∃ task,
                 task_objs s !! task = None
                 ∧ task_objs s'
                   = <[task := mk_task (Alarm.id a) (Pending LoopTop)]> (task_objs s)
                 ∧ _tasks s' = dict_set (Alarm.id a) task (_tasks s)
          else task_objs s' = task_objs s ∧ _tasks s' = _tasks s.
Proof.
  intros Hwf Ha Hfree Hsave. rewrite (add_alarm_eq s alarm a Hwf Ha Hfree).
  unfold save_result. rewrite Hsave.
  pose proof (live_alarms_set s alarm a Ha Hfree) as Hnew.
  assert (live (with_live (dict_set (Alarm.id a) alarm) s)
          = (live s ++ [(Alarm.id a, alarm)])%list) as Hlive
    by (by rewrite live_with_live, dict_set_fresh).
  eexists. split; [reflexivity|].
  destruct (_started s && Alarm.enabled a).
  - repeat split; try done.
    exists (fresh (dom (task_objs s))). split; [|done].
    apply not_elem_of_dom, is_fresh.
  - by repeat split.
Qed.

(** [remove_alarm] after [add_alarm] undoes it: the live mapping, the live
    alarms and the task mapping are what they were, the last save holds
    the alarms as they were before the addition, and the timer task that
    [add_alarm] created is finished. *)
Theorem add_then_remove s s1 s2 alarm a :
  wf s → tasks_cover_enabled s →
  alarm_objs s !! alarm = Some a → dict_get (Alarm.id a) (live s) = None →
  add_alarm alarm s = (s1, Ok ()) →
  remove_alarm (Alarm.id a) s1 = (s2, Ok ()) →
  live s2 = live s ∧ live_alarms s2 = live_alarms s
  ∧ _tasks s2 = _tasks s ∧ _started s2 = _started s
  ∧ head (save_log s2) = Some (live_alarms s)
  ∧ ∀ task, dict_get (Alarm.id a) (_tasks s1) = Some task →
            status <$> task_objs s2 !! task = Some Finished.
Proof.
  intros Hwf (_ & Hsub & _) Ha Hfree.
  assert (dict_get (Alarm.id a) (_tasks s) = None) as Hnotask.
  { destruct (dict_get (Alarm.id a) (_tasks s)) as [task|] eqn:Htask; [|done].
    destruct (Hsub (Alarm.id a)) as [l Hl]; [eauto|congruence]. }
  rewrite (add_alarm_eq s alarm a Hwf Ha Hfree).
  destruct (save_result _) as [[]|e1]; [|done].
  set (s0 := saved (with_live (dict_set (Alarm.id a) alarm) s)).
  assert (wf s0) as Hwf0 by exact (wf_saved _ (wf_set s alarm a Hwf Ha)).
  assert (live s0 = dict_set (Alarm.id a) alarm (live s)) as Hlive0
    by apply live_with_live.
  intros [= <-].
  assert (wf (if _started s && Alarm.enabled a then spawned (Alarm.id a) s0 else s0))
    as Hwf1 by (destruct (_ && _); [by apply wf_spawned|done]).
  assert (live (if _started s && Alarm.enabled a then spawned (Alarm.id a) s0 else s0)
          = dict_set (Alarm.id a) alarm (live s)) as Hlive1
    by (by destruct (_ && _)).
  assert (alarm_objs (if _started s && Alarm.enabled a
                      then spawned (Alarm.id a) s0 else s0) = alarm_objs s) as Hobjs1
    by (by destruct (_ && _)).
  rewrite (remove_alarm_eq _ _ Hwf1) by (rewrite Hlive1, dict_get_set_eq; eauto).
  set (s1 := if _started s && Alarm.enabled a then spawned (Alarm.id a) s0 else s0) in *.
  destruct (save_result _) as [[]|e2]; [|done].
  rewrite _cancel_eq. intros [= <- Hr].
  assert (live (with_live (dict_pop (Alarm.id a)) s1) = live s) as Hlive2.
  { by rewrite live_with_live, Hlive1, dict_pop_set_fresh. }
  assert (live_alarms (with_live (dict_pop (Alarm.id a)) s1) = live_alarms s) as Halarms2.
  { unfold live_alarms. rewrite Hlive2. cbn [alarm_objs with_live with_dict_objs].
    by rewrite Hobjs1. }
  assert (∀ s', live (cancelled_in (Alarm.id a) s') = live s'
                ∧ live_alarms (cancelled_in (Alarm.id a) s') = live_alarms s'
                ∧ _started (cancelled_in (Alarm.id a) s') = _started s'
                ∧ save_log (cancelled_in (Alarm.id a) s') = save_log s') as Hcancel.
  { intros s'. unfold cancelled_in. by destruct (dict_get _ (_tasks s')). }
  destruct (Hcancel (saved (with_live (dict_pop (Alarm.id a)) s1)))
    as (-> & -> & -> & Hlog).
  split; [done|]. split; [done|].
  assert (_tasks (cancelled_in (Alarm.id a) (saved (with_live (dict_pop (Alarm.id a)) s1)))
          = _tasks s
          ∧ ∀ task, dict_get (Alarm.id a) (_tasks s1) = Some task →
              status <$> task_objs (cancelled_in (Alarm.id a)
                                      (saved (with_live (dict_pop (Alarm.id a)) s1)))
                           !! task = Some Finished) as [Htasks Hfinished].
  { unfold cancelled_in. subst s1.
    destruct (_started s && Alarm.enabled a).
    - cbn [_tasks saved with_live with_store with_dict_objs spawned spawn fst with_tasks
           with_task_objs].
      change (_tasks s0) with (_tasks s). rewrite dict_get_set_eq.
      cbn [_tasks with_tasks with_task_objs].
      split; [by apply dict_pop_set_fresh|].
      intros task [= <-].
      cbn [task_objs with_tasks with_task_objs saved with_store with_live with_dict_objs].
      by rewrite lookup_alter_eq, lookup_insert_eq.
    - cbn [_tasks saved with_live with_store with_dict_objs].
      change (_tasks s0) with (_tasks s). rewrite Hnotask.
      split; [done|]. intros task. congruence. }
  split; [done|]. split; [by destruct (_ && _)|].
  split; [|done]. rewrite Hlog. cbn [save_log saved with_store head from_option].
  by rewrite Halarms2.
Qed.

(** [update_alarm] of an alarm whose id has a pending timer task, when the
    store accepts the save: the new alarm object stands under the id (the
    keys and their order are unchanged), the live alarms are saved, the old
    task is finished, and a new task stands under the id when the scheduler
    is started and the new alarm enabled; otherwise the id has no task. *)
Theorem update_alarm_reschedules s alarm a task task_id pc :
  wf s → alarm_objs s !! alarm = Some a →
  is_Some (dict_get (Alarm.id a) (live s)) →
  dict_get (Alarm.id a) (_tasks s) = Some task →
  task_objs s !! task = Some (mk_task task_id (Pending pc)) →
  (∀ alarms, (save E (_store s) alarms).2 = Ok ()) →
  ∃ s', update_alarm alarm s = (s', Ok ())
        ∧ dict_get (Alarm.id a) (live s') = Some alarm
        ∧ dict_keys (live s') = dict_keys (live s)
        ∧ alarm_objs s' = alarm_objs s
        ∧ save_log s' = live_alarms s' :: save_log s
        ∧ task_objs s' !! task = Some (mk_task task_id Finished)
        ∧ if _started s && Alarm.enabled a
          then ∃ task', task' ≠ task
                        ∧ dict_get (Alarm.id a) (_tasks s') = Some task'
                        ∧ task_objs s' !! task'
                          = Some (mk_task (Alarm.id a) (Pending LoopTop))
          else dict_get (Alarm.id a) (_tasks s') = None.
Proof.
  intros Hwf Ha [old Hold] Htask Hpending Hsave.
  rewrite (update_alarm_eq s alarm a Hwf Ha) by eauto.
  unfold save_result. rewrite Hsave.
  rewrite _cancel_eq. cbn [snd].
  set (s0 := saved (with_live (dict_set (Alarm.id a) alarm) s)).
  change (_tasks s0) with (_tasks s). change (task_objs s0) with (task_objs s).
  rewrite Htask, Hpending. cbn [fmap option_fmap option_map status].
  assert (cancelled_in (Alarm.id a) s0
          = with_task_objs (alter cancelled task) (with_tasks (dict_pop (Alarm.id a)) s0))
    as Hcancel.
  { unfold cancelled_in. change (_tasks s0) with (_tasks s). by rewrite Htask. }
  assert (live s0 = dict_set (Alarm.id a) alarm (live s)) as Hlive0
    by apply live_with_live.
  assert (dict_keys (dict_set (Alarm.id a) alarm (live s)) = dict_keys (live s)) as Hkeys.
  { by rewrite dict_keys_set, Hold. }
  assert (alter cancelled task (task_objs s) !! task = Some (mk_task task_id Finished))
    as Hfinished by (by rewrite lookup_alter_eq, Hpending).
  eexists. split; [reflexivity|].
  rewrite Hcancel.
  set (s1 := with_task_objs (alter cancelled task) (with_tasks (dict_pop (Alarm.id a)) s0)).
  assert (∀ s2, live s2 = live s0 →
                dict_get (Alarm.id a) (live s2) = Some alarm
                ∧ dict_keys (live s2) = dict_keys (live s)) as Hlive.
  { intros s2 ->. rewrite Hlive0. split; [apply dict_get_set_eq|done]. }
  destruct (_started s && Alarm.enabled a).
  - destruct (Hlive (spawned (Alarm.id a) s1)) as [Hget Hk]; [done|].
    split; [done|]. split; [done|]. split; [done|]. split; [done|].
    assert (fresh (dom (alter cancelled task (task_objs s))) ≠ task) as Hfresh.
    { intros Heq. apply (is_fresh (dom (alter cancelled task (task_objs s)))).
      rewrite Heq. apply elem_of_dom. eauto. }
    split.
    + cbn [spawned spawn fst task_objs with_tasks with_task_objs s1].
      change (task_objs s0) with (task_objs s).
      by rewrite lookup_insert_ne.
    + exists (fresh (dom (alter cancelled task (task_objs s)))).
      split; [done|]. split.
      * cbn [spawned spawn fst _tasks with_tasks with_task_objs].
        apply dict_get_set_eq.
      * cbn [spawned spawn fst task_objs with_tasks with_task_objs].
        apply lookup_insert_eq.
  - destruct (Hlive s1) as [Hget Hk]; [done|].
    split; [done|]. split; [done|]. split; [done|]. split; [done|].
    split; [done|].
    cbn [_tasks with_tasks with_task_objs s1]. by rewrite dict_get_pop, decide_True.
Qed.

(** [enable] of a disabled alarm, when the store accepts the save: the
    flag of the alarm object is set, the live alarms are saved, and a new
    timer task is put under the id when the scheduler is started. *)
Theorem enable_spawns s alarm_id alarm a :
  wf s → dict_get alarm_id (live s) = Some alarm → alarm_objs s !! alarm = Some a →
  Alarm.enabled a = false →
  (∀ alarms, (save E (_store s) alarms).2 = Ok ()) →
  ∃ s', enable alarm_id s = (s', Ok ())
        ∧ alarm_objs s' = alter (Alarm.set_enabled true) alarm (alarm_objs s)
        ∧ live s' = live s
        ∧ save_log s' = live_alarms s' :: save_log s
        ∧ _store s' = (save E (_store s) (live_alarms s')).1
        ∧ if _started s
          then ∃ task,
                 task_objs s !! task = None
                 ∧ task_objs s'
                   = <[task := mk_task alarm_id (Pending LoopTop)]> (task_objs s)
                 ∧ _tasks s' = dict_set alarm_id task (_tasks s)
          else task_objs s' = task_objs s ∧ _tasks s' = _tasks s.
Proof.
  intros Hwf Hget Ha Hoff Hsave. unfold enable. run. rewrite Hget.
  unfold deref at 1. rewrite Ha, Hoff.
  unfold assign_enabled. run.
  set (s1 := with_alarm_objs (alter (Alarm.set_enabled true) alarm) s).
  rewrite (store_save_saved s1 (assign_enabled_wf s Hwf alarm true)).
  unfold save_result. change (_store s1) with (_store s). rewrite Hsave.
  change (_started (saved s1)) with (_started s).
  destruct (_started s).
  - rewrite spawn_eq. eexists. split; [reflexivity|].
    repeat split; try done.
    exists (fresh (dom (task_objs s))). split; [|done].
    apply not_elem_of_dom, is_fresh.
  - eexists. split; [reflexivity|]. by repeat split.
Qed.

(** *** [start] *)

Lemma foldl_dict_set_new (pairs : list (Alarm.t * loc)) (d0 : list (string * loc)) :
  NoDup (dict_keys d0 ++ (Alarm.id ∘ fst <$> pairs)) →
  foldl (λ d ao, dict_set (Alarm.id ao.1) ao.2 d) d0 pairs
  = (d0 ++ (prod_map Alarm.id id <$> pairs))%list.
Proof.
  revert d0. induction pairs as [|[a l] pairs IH]; intros d0 Hnd; simpl.
  { by rewrite app_nil_r. }
  rewrite fmap_cons in Hnd. simpl in Hnd.
  assert (dict_get (Alarm.id a) d0 = None) as Hfree.
  { apply dict_get_None. apply NoDup_app in Hnd as (_ & Hdisj & _).
    intros Hin. apply (Hdisj _ Hin). left. }
  rewrite dict_set_fresh by done.
  rewrite IH.
  - by rewrite <- app_assoc.
  - unfold dict_keys. rewrite fmap_app. simpl. rewrite <- app_assoc. done.
Qed.

Lemma Forall2_lookup_omap (objs : gmap loc Alarm.t) (alarms : list Alarm.t) (ls : list loc) :
  Forall2 (λ a l, objs !! l = Some a) alarms ls → omap (λ l, objs !! l) ls = alarms.
Proof.
  induction 1 as [|a l alarms ls Hl _ IH]; [done|].
  cbn [omap list_omap]. rewrite Hl. f_equal. exact IH.
Qed.

Lemma zip_fst_snd {A B : Type} (xs : list A) (ys : list B) :
  length xs = length ys → (zip xs ys).*1 = xs ∧ (zip xs ys).*2 = ys.
Proof. intros Hlen. split; [apply fst_zip|apply snd_zip]; lia. Qed.

Lemma spawn_if_enabled_keeps_store (st : store E) (log : list (list Alarm.t)) alarm :
  preserves (λ s, _store s = st ∧ save_log s = log) (spawn_if_enabled alarm).
Proof.
  unfold spawn_if_enabled, mbind, prog_bind.
  apply preserves_bind; [apply preserves_deref|].
  intros a. destruct (Alarm.enabled a); by intros s Hs.
Qed.

Lemma new_alarm_keeps_store (st : store E) (log : list (list Alarm.t)) a :
  preserves (λ s, _store s = st ∧ save_log s = log) (new_alarm a).
Proof. by intros s Hs. Qed.

Lemma start_loads s :
  _started s = false → _tasks s = [] →
  (∀ st alarms,
     load E (_store s) = (st, Ok alarms) →
     NoDup (Alarm.id <$> alarms) →
     ∃ s', start s = (s', Ok ())
           ∧ _started s' = true ∧ _store s' = st ∧ save_log s' = save_log s
           ∧ dict_keys (live s') = Alarm.id <$> alarms
           ∧ live_alarms s' = alarms
           ∧ ∀ key, is_Some (dict_get key (_tasks s'))
                    ↔ ∃ a, a ∈ alarms ∧ Alarm.id a = key ∧ Alarm.enabled a = true)
  ∧ (∀ st e,
       load E (_store s) = (st, Raise e) →
       start s = (with_store st None s, Raise e)).
Proof.
  intros Hstopped Hnotasks. split.
  - intros st alarms Hload Hnd. unfold start. run. rewrite Hstopped.
    unfold store_load at 1. rewrite Hload.
    set (s1 := with_store st None s).
    pose proof (preserves_map_each _ new_alarm alarms
                  (new_alarm_keeps_store st (save_log s)) s1 (conj eq_refl eq_refl))
      as Hstore2.
    destruct (map_each_new_alarm alarms s1)
      as (s2 & objs & Hnew & Hd2 & Ha2 & Ht2 & Hs2 & Hmono2 & Hall2).
    rewrite Hnew in Hstore2 |- *. cbn [fst] in Hstore2.
    unfold rebind_alarms, new_dict. run. cbv zeta.
    set (d := foldl (λ d ao, dict_set (Alarm.id ao.1) ao.2 d) [] (zip alarms objs)).
    set (s4 := with_started true
                 (with_alarms (fresh (dom (dict_objs s2)))
                    (with_dict_objs <[fresh (dom (dict_objs s2)) := d]> s2))).
    pose proof (preserves_for_each _ spawn_if_enabled objs
                  (spawn_if_enabled_keeps_store st (save_log s)) s4 Hstore2) as Hstore5.
    destruct (for_each_spawn_enabled objs s4) as (s5 & Hspawn & Hsame & Htasks).
    { apply Forall_forall. intros l Hl.
      destruct (Forall2_zip_right _ _ _ l Hall2 Hl) as [a Hin].
      exists a. exact (Forall2_zip_elem _ _ _ _ _ Hall2 Hin). }
    rewrite Hspawn in Hstore5 |- *. cbn [fst] in Hstore5. destruct Hstore5 as [Hst5 Hlog5].
    exists s5. split; [done|].
    assert (live s4 = d) as Hlive4.
    { unfold live, s4. simpl. by rewrite lookup_insert_eq. }
    pose proof (same_alarms_live _ _ Hsame) as Hlive. rewrite Hlive4 in Hlive.
    destruct Hsame as (Hobjs & Hdicts & Halarms & Hstarted5).
    pose proof (Forall2_length _ _ _ Hall2) as Hlen.
    destruct (zip_fst_snd alarms objs Hlen) as [Hfst Hsnd].
    assert (d = prod_map Alarm.id id <$> zip alarms objs) as Hd.
    { unfold d. rewrite foldl_dict_set_new; [done|].
      simpl. rewrite list_fmap_compose, Hfst. done. }
    split; [by rewrite Hstarted5|]. split; [done|]. split; [done|].
    split; [|split].
    + rewrite Hlive, Hd. unfold dict_keys.
      rewrite <- list_fmap_compose.
      rewrite (list_fmap_ext (fst ∘ prod_map Alarm.id id) (Alarm.id ∘ fst) (zip alarms objs))
        by (by intros ? []).
      by rewrite list_fmap_compose, Hfst.
    + unfold live_alarms. rewrite Hlive, Hd, Hobjs. unfold dict_values.
      rewrite <- list_fmap_compose.
      rewrite (list_fmap_ext (snd ∘ prod_map Alarm.id id) snd (zip alarms objs))
        by (by intros ? []).
      rewrite Hsnd. by apply Forall2_lookup_omap.
    + intros key. rewrite Htasks.
      change (_tasks s4) with (_tasks s2). rewrite Ht2.
      change (_tasks s1) with (_tasks s). rewrite Hnotasks.
      change (alarm_objs s4) with (alarm_objs s2).
      split.
      * intros [[? ?]|(l & a & Hin & Hl & Hen & Hid)]; [done|].
        destruct (Forall2_zip_right _ _ _ l Hall2 Hin) as [a' Hin'].
        pose proof (Forall2_zip_elem _ _ _ _ _ Hall2 Hin') as Ha'. simpl in Ha'.
        rewrite Hl in Ha'. injection Ha' as <-.
        exists a. split; [|done]. by apply elem_of_zip_l in Hin'.
      * intros (a & Hin & Hid & Hen). right.
        apply list_elem_of_lookup in Hin as [i Hi].
        destruct (Forall2_lookup_l _ _ _ _ _ Hall2 Hi) as (l & Hl & Hal).
        exists l, a. split; [by eapply list_elem_of_lookup_2|done].
  - intros st e Hload. unfold start. run. rewrite Hstopped.
    unfold store_load at 1. by rewrite Hload.
Qed.

(** [start] of a stopped scheduler reads the store. When the store
    answers with alarms of distinct ids, the live mapping holds these
    alarms under their ids, in the order of the store; nothing is saved;
    and the task mapping has an entry for an id exactly when the alarm of
    that id is enabled. When the store raises, [start] raises the same
    and the scheduler stays stopped. *)
Theorem start_loads_the_store s :
  _started s = false → _tasks s = [] →
  (∀ st alarms,
     load E (_store s) = (st, Ok alarms) →
     NoDup (Alarm.id <$> alarms) →
     ∃ s', start s = (s', Ok ())
           ∧ _started s' = true ∧ _store s' = st ∧ save_log s' = save_log s
           ∧ dict_keys (live s') = Alarm.id <$> alarms
           ∧ live_alarms s' = alarms
           ∧ ∀ key, is_Some (dict_get key (_tasks s'))
                    ↔ ∃ a, a ∈ alarms ∧ Alarm.id a = key ∧ Alarm.enabled a = true)
  ∧ (∀ st e,
       load E (_store s) = (st, Raise e) →
       start s = (with_store st None s, Raise e)).
Proof. apply start_loads. Qed.

Lemma start_Ok_started s s' : start s = (s', Ok ()) → _started s' = true.
Proof.
  unfold start. run.
  destruct (_started s) eqn:Hstarted; [by intros [= <-]|].
  unfold store_load at 1.
  destruct (load E (_store s)) as [st [alarms|e]]; [|done].
  destruct (map_each_new_alarm alarms (with_store st None s))
    as (s2 & objs & -> & Hd2 & Ha2 & Ht2 & Hs2 & Hmono2 & Hall2).
  unfold rebind_alarms, new_dict. run. cbv zeta.
  set (s4 := with_started true _).
  destruct (for_each_spawn_enabled objs s4) as (s5 & -> & Hsame & Htasks).
  { apply Forall_forall. intros l Hl.
    destruct (Forall2_zip_right _ _ _ l Hall2 Hl) as [a Hin].
    exists a. exact (Forall2_zip_elem _ _ _ _ _ Hall2 Hin). }
  intros [= <-]. by destruct Hsame as (_ & _ & _ & ->).
Qed.

(** [start] is idempotent: once it has returned, calling it again changes
    nothing, and in particular does not read the store again. *)
Lemma start_is_idempotent s s' :
  start s = (s', Ok ()) → start s' = (s', Ok ()).
Proof.
  intros Hstarted%start_Ok_started. unfold start. run. by rewrite Hstarted.
Qed.

(** *** The live mapping is keyed by id *)

Lemma keyed_same s s' : same_alarms s s' → keyed_by_id s → keyed_by_id s'.
Proof.
  intros Hsame [Hwf Hnd]. split; [by eapply same_alarms_wf|].
  by rewrite (same_alarms_live _ _ Hsame).
Qed.

Lemma keyed_only_disables s s' : only_disables s s' → keyed_by_id s → keyed_by_id s'.
Proof.
  intros (Hd & Ha & Ht & Hs & Hobjs) [[Hsome Hwf] Hnd].
  assert (live s' = live s) as Hlive by (unfold live; by rewrite Hd, Ha).
  split; [split|]; rewrite ?Hlive, ?Hd, ?Ha; try done.
  intros key l Hl. destruct (Hwf key l Hl) as (a & Hal & Hid).
  destruct (Hobjs l) as [->|(a0 & Ha0 & ->)]; [eauto|].
  rewrite Hal in Ha0. injection Ha0 as <-. eauto.
Qed.

Lemma keyed_ids s : keyed_by_id s → Alarm.id <$> live_alarms s = dict_keys (live s).
Proof.
  intros [[_ Hwf] _]. unfold live_alarms, dict_keys, dict_values.
  induction (live s) as [|[key l] d IH]; [done|].
  destruct (Hwf key l) as (a & Ha & Hid); [left|].
  rewrite !fmap_cons. cbn [omap list_omap fst snd]. rewrite Ha, fmap_cons, Hid.
  f_equal. apply IH. intros key' l' Hin. apply Hwf. by right.
Qed.

Lemma preserves_bind_at {A B : Type} (I : t E → Prop) (m : prog E A) (f : A → prog E B) s :
  I (m s).1 → (∀ a, preserves I (f a)) → I (bind m f s).1.
Proof.
  intros Hm Hf. unfold bind. destruct (m s) as [s1 [a|e]]; simpl in *; [by apply Hf|done].
Qed.

Lemma keyed_store_save : preserves (E:=E) keyed_by_id store_save.
Proof.
  intros s Hs. destruct (store_save s) as [s' res] eqn:Hsave.
  apply store_save_same in Hsave as (Hsame & _). by eapply keyed_same.
Qed.

Lemma keyed_store_load : preserves (E:=E) keyed_by_id store_load.
Proof.
  intros s Hs. unfold store_load. destruct (load E (_store s)) as [st r].
  eapply keyed_same; [|done]. by repeat split.
Qed.

Lemma keyed_spawn alarm_id : preserves (E:=E) keyed_by_id (spawn alarm_id).
Proof. intros s Hs. eapply keyed_same; [|done]. by repeat split. Qed.

Lemma keyed_cancel_task task : preserves (E:=E) keyed_by_id (cancel_task task).
Proof. intros s Hs. eapply keyed_same; [|done]. by repeat split. Qed.

Lemma keyed_await_task task : preserves (E:=E) keyed_by_id (await_task task).
Proof. intros s Hs. unfold await_task. by destruct (status <$> _) as [[| |]|]. Qed.

Lemma keyed_assign_enabled alarm b : preserves (E:=E) keyed_by_id (assign_enabled alarm b).
Proof. intros s [Hwf Hnd]. split; [by apply assign_enabled_wf|done]. Qed.

Lemma keyed_new_alarm a : preserves (E:=E) keyed_by_id (new_alarm a).
Proof.
  intros s [[Hsome Hwf] Hnd]. split; [split|]; try done.
  intros key l Hl. destruct (Hwf key l Hl) as (a0 & Ha0 & Hid).
  exists a0. split; [|done]. simpl. rewrite lookup_insert_ne; [done|].
  intros Heq. apply (is_fresh (dom (alarm_objs s))). rewrite Heq.
  apply elem_of_dom. eauto.
Qed.

Lemma keyed_new_dict d : preserves (E:=E) keyed_by_id (new_dict d).
Proof.
  intros s [[Hsome Hwf] Hnd]. unfold new_dict. simpl.
  pose proof (live_new_dict s d Hsome) as Hlive.
  split; [split|]; rewrite ?Hlive; try done.
  simpl. rewrite lookup_insert_ne; [done|].
  intros Heq. apply (is_fresh (dom (dict_objs s))). rewrite Heq. by apply elem_of_dom.
Qed.

Lemma keyed_players_play alarm : preserves (E:=E) keyed_by_id (players_play alarm).
Proof.
  unfold players_play, mbind, prog_bind.
  apply preserves_bind; [apply preserves_deref|]. intros a. by intros s Hs.
Qed.

Lemma keyed_pop alarm_id : preserves (E:=E) keyed_by_id (update_live (dict_pop alarm_id)).
Proof.
  intros s [Hwf Hnd]. split; [exact (wf_pop s alarm_id Hwf)|].
  unfold update_live. simpl. rewrite live_update. by apply NoDup_dict_pop.
Qed.

Lemma keyed_set s alarm a :
  alarm_objs s !! alarm = Some a → keyed_by_id s →
  keyed_by_id (update_live (dict_set (Alarm.id a) alarm) s).1.
Proof.
  intros Ha [Hwf Hnd]. split; [exact (wf_set s alarm a Hwf Ha)|].
  unfold update_live. simpl. rewrite live_update. by apply NoDup_dict_set.
Qed.

Lemma keyed_tasks (f : list (string * loc) → list (string * loc)) :
  preserves (E:=E) keyed_by_id (modify (with_tasks f)).
Proof. intros s Hs. eapply keyed_same; [|done]. by repeat split. Qed.

Lemma keyed_started b : preserves (E:=E) keyed_by_id (modify (with_started b)).
Proof.
  intros s [[Hsome Hwf] Hnd]. by split; [split|].
Qed.

Ltac keyed_step :=
  first
    [ apply keyed_store_save
    | apply keyed_store_load
    | apply keyed_spawn
    | apply keyed_cancel_task
    | apply keyed_await_task
    | apply keyed_assign_enabled
    | apply keyed_new_alarm
    | apply keyed_new_dict
    | apply keyed_players_play
    | apply keyed_pop
    | apply keyed_tasks
    | apply keyed_started
    | apply preserves_ret
    | apply preserves_raise
    | apply preserves_gets
    | apply preserves_deref
    | apply preserves_for_each; intros ?
    | apply preserves_map_each; intros ?
    | apply preserves_pure
    | apply preserves_bind; [|intros ?]
    | case_match ].

Lemma keyed__cancel alarm_id : preserves (E:=E) keyed_by_id (_cancel alarm_id).
Proof. unfold _cancel, mbind, prog_bind. repeat keyed_step. Qed.

Lemma keyed_foldl_dict_set (pairs : list (Alarm.t * loc)) (d0 : list (string * loc)) :
  NoDup (dict_keys d0) →
  NoDup (dict_keys (foldl (λ d ao, dict_set (Alarm.id ao.1) ao.2 d) d0 pairs)).
Proof.
  revert d0. induction pairs as [|[a l] pairs IH]; intros d0 Hnd; simpl; [done|].
  apply IH. by apply NoDup_dict_set.
Qed.

Lemma keyed_start : preserves (E:=E) keyed_by_id start.
Proof.
  intros s Hs. unfold start. run.
  destruct (_started s); [done|].
  pose proof (keyed_store_load s Hs) as Hs1.
  destruct (store_load s) as [s1 [alarms|e]]; [|done]. cbn [fst] in Hs1.
  destruct (map_each_new_alarm alarms s1)
    as (s2 & objs & -> & Hd2 & Ha2 & Ht2 & Hs2 & Hmono2 & Hall2).
  unfold rebind_alarms, new_dict. run. cbv zeta.
  set (d := foldl (λ d ao, dict_set (Alarm.id ao.1) ao.2 d) [] (zip alarms objs)).
  set (s4 := with_started true
               (with_alarms (fresh (dom (dict_objs s2)))
                  (with_dict_objs <[fresh (dom (dict_objs s2)) := d]> s2))).
  apply (preserves_for_each (keyed_by_id (E:=E)) spawn_if_enabled objs).
  { intros l. unfold spawn_if_enabled, mbind, prog_bind. repeat keyed_step. }
  assert (live s4 = d) as Hlive4.
  { unfold live, s4. simpl. by rewrite lookup_insert_eq. }
  split; [split|].
  - unfold s4. simpl. by rewrite lookup_insert_eq.
  - intros key l. rewrite Hlive4.
    intros [?%elem_of_nil|(a & Hin & Hid)]%foldl_dict_set_elem; [done|].
    exists a. split; [|done]. exact (Forall2_zip_elem _ _ _ _ _ Hall2 Hin).
  - rewrite Hlive4. apply keyed_foldl_dict_set. constructor.
Qed.

Lemma keyed_task_step task now_utc s :
  keyed_by_id s → keyed_by_id (task_step task now_utc s).
Proof. apply keyed_only_disables, task_step_disables. Qed.

Lemma keyed_run_op (o : op) : preserves (E:=E) keyed_by_id (run_op o).
Proof.
  destruct o; simpl.
  - apply keyed_start.
  - unfold stop, mbind, prog_bind. repeat keyed_step.
  - unfold mbind, prog_bind. repeat keyed_step.
  - intros s Hs. unfold add_alarm, mbind, prog_bind.
    unfold bind at 1. unfold deref at 1.
    destruct (alarm_objs s !! alarm) as [a|] eqn:Ha; [|done].
    unfold bind at 1, gets. case_bool_decide; [done|].
    apply preserves_bind_at; [by apply keyed_set|].
    intros _. repeat keyed_step.
  - intros s Hs. unfold update_alarm, mbind, prog_bind.
    unfold bind at 1. unfold deref at 1.
    destruct (alarm_objs s !! alarm) as [a|] eqn:Ha; [|done].
    unfold bind at 1, gets. case_bool_decide; [|done].
    apply preserves_bind_at; [by apply keyed_set|].
    intros _. unfold _reschedule, mbind, prog_bind.
    repeat first [ apply keyed__cancel | keyed_step ].
  - unfold remove_alarm, mbind, prog_bind.
    repeat first [ apply keyed__cancel | keyed_step ].
  - unfold enable, mbind, prog_bind. repeat keyed_step.
  - unfold disable, mbind, prog_bind.
    repeat first [ apply keyed__cancel | keyed_step ].
  - unfold trigger_now, mbind, prog_bind. repeat keyed_step.
  - unfold snapshot, mbind, prog_bind. repeat keyed_step.
  - intros s Hs. by apply keyed_task_step.
Qed.

Lemma keyed_exec (st : store E) (ops : list op) :
  keyed_by_id (exec ops (__init__ E st)).
Proof.
  assert (∀ s, keyed_by_id s → keyed_by_id (exec ops s)) as Hexec.
  { induction ops as [|o ops IH]; intros s Hs; [done|].
    simpl. apply IH. by apply keyed_run_op. }
  apply Hexec. split; [split|].
  - exists []. reflexivity.
  - intros key alarm Hin.
    change (live (__init__ E st)) with (@nil (string * loc)) in Hin.
    by apply elem_of_nil in Hin.
  - constructor.
Qed.

(** Whatever operations are run on a new scheduler, and whether they
    return or raise, the live mapping holds each key once, and the alarm
    under a key has that key as its id. *)
Theorem live_mapping_is_keyed_by_id (st : store E) (ops : list op) :
  keyed_by_id (exec ops (__init__ E st)).
Proof. apply keyed_exec. Qed.

Lemma cover_exec (st : store E) (ops : list op) :
  all_ok ops (__init__ E st) = true →
  tasks_cover_enabled (exec ops (__init__ E st)).
Proof.
  intros Hok%all_ok_clean_run.
  assert (wf (exec ops (__init__ E st)) ∧ tasks_cover_enabled (exec ops (__init__ E st)))
    as [_ Hcover]; [|done].
  induction Hok as [|o s1 s2 _ [Hwf Hcover] Hop].
  - split; [exact (proj1 (keyed_exec st []))|]. split; [done|]. split; [|done].
    intros key [? ?]. done.
  - by eapply run_op_cover.
Qed.

(** *** Restarting *)

(** With a store that gives back what it was last given, an alarm that
    [add_alarm] added is there after a restart: a new scheduler on the
    store the first one leaves behind, once started, holds the alarms of
    the first one followed by the added alarm, under the same keys. *)
Theorem added_alarm_survives_restart s s1 alarm a :
  (∀ st alarms st', save E st alarms = (st', Ok ()) →
                    ∃ st'', load E st' = (st'', Ok alarms)) →
  keyed_by_id s → alarm_objs s !! alarm = Some a →
  dict_get (Alarm.id a) (live s) = None →
  add_alarm alarm s = (s1, Ok ()) →
  ∃ s2, start (__init__ E (_store s1)) = (s2, Ok ())
        ∧ live_alarms s2 = (live_alarms s ++ [a])%list
        ∧ dict_keys (live s2) = (dict_keys (live s) ++ [Alarm.id a])%list.
Proof.
  intros Hlaw Hkeyed Ha Hfree. pose proof Hkeyed as [Hwf Hnd].
  rewrite (add_alarm_eq s alarm a Hwf Ha Hfree).
  pose proof (keyed_set s alarm a Ha Hkeyed) as Hkeyed'.
  change (update_live (dict_set (Alarm.id a) alarm) s).1
    with (with_live (dict_set (Alarm.id a) alarm) s) in Hkeyed'.
  pose proof (keyed_ids _ Hkeyed') as Hids.
  destruct Hkeyed' as [_ Hnd'].
  rewrite (live_alarms_set s alarm a Ha Hfree) in Hids.
  rewrite live_with_live in Hids, Hnd'.
  assert (dict_keys (dict_set (Alarm.id a) alarm (live s))
          = (dict_keys (live s) ++ [Alarm.id a])%list) as Hkeys.
  { by rewrite dict_keys_set, Hfree. }
  rewrite Hkeys in Hids, Hnd'.
  unfold save_result, saved. rewrite (live_alarms_set s alarm a Ha Hfree).
  change (_store (with_live (dict_set (Alarm.id a) alarm) s)) with (_store s).
  destruct (save E (_store s) (live_alarms s ++ [a])%list) as [st' [[]|e]] eqn:Hsave;
    cbn [fst snd]; [|done].
  destruct (Hlaw _ _ _ Hsave) as [st'' Hload].
  intros [= <-].
  assert (_store (if _started s && Alarm.enabled a
                  then spawned (Alarm.id a)
                         (with_store st' (Some (live_alarms s ++ [a])%list)
                            (with_live (dict_set (Alarm.id a) alarm) s))
                  else with_store st' (Some (live_alarms s ++ [a])%list)
                         (with_live (dict_set (Alarm.id a) alarm) s)) = st') as ->
    by (by destruct (_ && _)).
  destruct (start_loads (__init__ E st')) as [Hstart _]; [done..|].
  destruct (Hstart st'' (live_alarms s ++ [a])%list Hload) as (s2 & Hs2 & _ & _ & _ & Hk & Hl & _).
  { by rewrite Hids. }
  exists s2. split; [done|]. split; [done|]. by rewrite Hk, Hids.
Qed.

(** *** Pending timer tasks stand for enabled alarms *)

Lemma tracked_registered s : tasks_track_enabled s → registered s.
Proof. intros Hs task alarm_id pc Htask. by destruct (Hs task alarm_id pc Htask). Qed.

Lemma alarm_ok_same s s' alarm_id pc :
  live s' = live s → alarm_objs s' = alarm_objs s →
  alarm_ok s alarm_id pc → alarm_ok s' alarm_id pc.
Proof. intros Hlive Hobjs (alarm & a & ?). exists alarm, a. by rewrite Hlive, Hobjs. Qed.

Lemma tracked_same s s' :
  live s' = live s → alarm_objs s' = alarm_objs s →
  task_objs s' = task_objs s → _tasks s' = _tasks s → _started s' = _started s →
  tasks_track_enabled s → tasks_track_enabled s'.
Proof.
  intros Hlive Hobjs Htobjs Htasks Hstarted Hs task alarm_id pc.
  rewrite Htobjs, Htasks, Hstarted. intros Htask.
  destruct (Hs task alarm_id pc Htask) as [Hreg Hok].
  split; [done|]. by eapply alarm_ok_same.
Qed.

(** After [_cancel], no pending task is left for the id. *)
Lemma cancelled_in_tracked alarm_id s :
  registered s →
  (∀ task id pc, task_objs s !! task = Some (mk_task id (Pending pc)) →
                 id ≠ alarm_id → alarm_ok s id pc) →
  tasks_track_enabled (cancelled_in alarm_id s)
  ∧ ∀ task pc, task_objs (cancelled_in alarm_id s) !! task
               ≠ Some (mk_task alarm_id (Pending pc)).
Proof.
  intros Hreg Hok. unfold cancelled_in.
  destruct (dict_get alarm_id (_tasks s)) as [t|] eqn:Hentry.
  - assert (∀ task id pc,
              alter cancelled t (task_objs s) !! task = Some (mk_task id (Pending pc)) →
              task ≠ t ∧ task_objs s !! task = Some (mk_task id (Pending pc))
              ∧ id ≠ alarm_id) as Hpending.
    { intros task id pc. rewrite lookup_alter. case_decide as Ht.
      - subst task. destruct (task_objs s !! t) as [[id0 [pc0| |e]]|]; simpl; try done.
      - intros Htask. split; [by apply not_eq_sym|]. split; [done|].
        intros ->. destruct (Hreg task alarm_id pc Htask) as [_ Hget]. congruence. }
    split.
    + intros task id pc Htask. cbn [task_objs with_task_objs with_tasks] in Htask.
      apply Hpending in Htask as (Hne & Htask & Hid).
      destruct (Hreg task id pc Htask) as [Hstarted Hget].
      split; [split; [done|]|].
      * cbn [_tasks with_task_objs with_tasks]. rewrite dict_get_pop.
        by rewrite decide_False by (by apply not_eq_sym).
      * eapply alarm_ok_same; [..|by eapply Hok]; done.
    + intros task pc Htask. cbn [task_objs with_task_objs with_tasks] in Htask.
      apply Hpending in Htask as (_ & _ & Hid). done.
  - assert (∀ task pc, task_objs s !! task ≠ Some (mk_task alarm_id (Pending pc))) as Hnone.
    { intros task pc Htask. destruct (Hreg task alarm_id pc Htask) as [_ Hget]. congruence. }
    split; [|done].
    intros task id pc Htask. split; [by eapply Hreg|].
    apply (Hok task id pc Htask). intros ->. by eapply Hnone.
Qed.

Lemma spawned_tracked alarm_id s :
  tasks_track_enabled s →
  (∀ task pc, task_objs s !! task ≠ Some (mk_task alarm_id (Pending pc))) →
  _started s = true → alarm_ok s alarm_id LoopTop →
  tasks_track_enabled (spawned alarm_id s).
Proof.
  intros Hs Hnone Hstarted Hok task id pc.
  cbn [spawned spawn fst task_objs _tasks _started with_tasks with_task_objs].
  rewrite lookup_insert. case_decide as Htask.
  - intros [= <- <-]. subst task. split; [split; [done|apply dict_get_set_eq]|].
    by eapply alarm_ok_same.
  - intros Hpending. destruct (Hs task id pc Hpending) as [[_ Hget] Hok'].
    assert (id ≠ alarm_id) as Hid by (intros ->; by eapply Hnone).
    split; [split; [done|]|].
    + by rewrite dict_get_set_ne by (by apply not_eq_sym).
    + by eapply alarm_ok_same.
Qed.

Lemma wf_distinct s key key' alarm alarm' :
  wf s → dict_get key (live s) = Some alarm → dict_get key' (live s) = Some alarm' →
  key ≠ key' → alarm ≠ alarm'.
Proof.
  intros [_ Hwf] Hget%dict_get_elem Hget'%dict_get_elem Hne ->.
  destruct (Hwf key alarm' Hget) as (a & Ha & Hid).
  destruct (Hwf key' alarm' Hget') as (a' & Ha' & Hid').
  congruence.
Qed.

Lemma enable_eq s alarm_id alarm a :
  wf s → dict_get alarm_id (live s) = Some alarm → alarm_objs s !! alarm = Some a →
  Alarm.enabled a = false →
  enable alarm_id s
  = match save_result (with_alarm_objs (alter (Alarm.set_enabled true) alarm) s) with
    | Ok _ =>
        (if _started s
         then spawned alarm_id
                (saved (with_alarm_objs (alter (Alarm.set_enabled true) alarm) s))
         else saved (with_alarm_objs (alter (Alarm.set_enabled true) alarm) s), Ok ())
    | Raise e => (saved (with_alarm_objs (alter (Alarm.set_enabled true) alarm) s), Raise e)
    end.
Proof.
  intros Hwf Hget Ha Hoff. unfold enable. run. rewrite Hget.
  unfold deref at 1. rewrite Ha, Hoff. unfold assign_enabled. run.
  rewrite (store_save_saved _ (assign_enabled_wf s Hwf alarm true)).
  destruct (save_result _) as [[]|e]; [|done].
  change (_started (saved _)) with (_started s). by destruct (_started s).
Qed.

Lemma disable_eq s alarm_id alarm a :
  wf s → dict_get alarm_id (live s) = Some alarm → alarm_objs s !! alarm = Some a →
  Alarm.enabled a = true →
  disable alarm_id s
  = match save_result (with_alarm_objs (alter (Alarm.set_enabled false) alarm) s) with
    | Ok _ =>
        _cancel alarm_id (saved (with_alarm_objs (alter (Alarm.set_enabled false) alarm) s))
    | Raise e => (saved (with_alarm_objs (alter (Alarm.set_enabled false) alarm) s), Raise e)
    end.
Proof.
  intros Hwf Hget Ha Hon. unfold disable. run. rewrite Hget.
  unfold deref at 1. rewrite Ha, Hon. cbn [negb]. unfold assign_enabled. run.
  rewrite (store_save_saved _ (assign_enabled_wf s Hwf alarm false)).
  by destruct (save_result _) as [[]|e].
Qed.

Lemma add_alarm_Ok_inv s s' alarm :
  add_alarm alarm s = (s', Ok ()) →
  ∃ a, alarm_objs s !! alarm = Some a ∧ dict_get (Alarm.id a) (live s) = None.
Proof.
  unfold add_alarm. run. unfold deref at 1.
  destruct (alarm_objs s !! alarm) as [a|]; [|done].
  case_bool_decide as Hin; [done|]. intros _. exists a. split; [done|].
  destruct (dict_get (Alarm.id a) (live s)) eqn:Hget; [|done]. destruct Hin. eauto.
Qed.

Lemma update_alarm_Ok_inv s s' alarm :
  update_alarm alarm s = (s', Ok ()) →
  ∃ a, alarm_objs s !! alarm = Some a ∧ is_Some (dict_get (Alarm.id a) (live s)).
Proof.
  unfold update_alarm. run. unfold deref at 1.
  destruct (alarm_objs s !! alarm) as [a|]; [|done].
  case_bool_decide as Hin; [|done]. intros _. by exists a.
Qed.

Lemma remove_alarm_Ok_inv s s' alarm_id :
  remove_alarm alarm_id s = (s', Ok ()) → is_Some (dict_get alarm_id (live s)).
Proof. unfold remove_alarm. run. by case_bool_decide. Qed.

Section tracked.
Context (s s' : t E).
Hypothesis s_wf : wf s.
Hypothesis s_tracked : tasks_track_enabled s.

Lemma add_alarm_tracked alarm :
  add_alarm alarm s = (s', Ok ()) → tasks_track_enabled s'.
Proof.
  intros Hadd. destruct (add_alarm_Ok_inv _ _ _ Hadd) as (a & Ha & Hfree).
  rewrite (add_alarm_eq s alarm a s_wf Ha Hfree) in Hadd.
  destruct (save_result _) as [[]|e]; [|done]. injection Hadd as <-.
  set (s1 := saved (with_live (dict_set (Alarm.id a) alarm) s)).
  assert (live s1 = dict_set (Alarm.id a) alarm (live s)) as Hlive1
    by apply live_with_live.
  assert (∀ task id pc, task_objs s !! task = Some (mk_task id (Pending pc)) →
                        id ≠ Alarm.id a) as Hother.
  { intros task id pc Htask ->.
    destruct (s_tracked task _ pc Htask) as [_ (l & a' & Hget & _)]. congruence. }
  assert (tasks_track_enabled s1) as Hs1.
  { intros task id pc Htask. destruct (s_tracked task id pc Htask) as [Hreg Hok].
    split; [done|]. destruct Hok as (l & a' & Hget & Hrest).
    exists l, a'. rewrite Hlive1, dict_get_set_ne; [done|].
    apply not_eq_sym. by eapply Hother. }
  destruct (_started s) eqn:Hstarted; [|done].
  destruct (Alarm.enabled a) eqn:Hen; [|done]. simpl.
  apply spawned_tracked; [done| |done|].
  - intros task pc Htask. by eapply (Hother task).
  - exists alarm, a. rewrite Hlive1, dict_get_set_eq. done.
Qed.

Lemma update_alarm_tracked alarm :
  update_alarm alarm s = (s', Ok ()) → tasks_track_enabled s'.
Proof.
  intros Hupdate. destruct (update_alarm_Ok_inv _ _ _ Hupdate) as (a & Ha & Hin).
  rewrite (update_alarm_eq s alarm a s_wf Ha Hin) in Hupdate.
  destruct (save_result _) as [[]|e]; [|done].
  destruct (_cancel _ _).2 as [[]|e]; [|done]. injection Hupdate as <-.
  set (s1 := saved (with_live (dict_set (Alarm.id a) alarm) s)).
  assert (live s1 = dict_set (Alarm.id a) alarm (live s)) as Hlive1
    by apply live_with_live.
  destruct (cancelled_in_tracked (Alarm.id a) s1) as [Hs2 Hnone].
  { intros task id pc Htask. by destruct (s_tracked task id pc Htask). }
  { intros task id pc Htask Hid.
    destruct (s_tracked task id pc Htask) as [_ (l & a' & Hget & Hrest)].
    exists l, a'. by rewrite Hlive1, dict_get_set_ne by (by apply not_eq_sym). }
  assert (live (cancelled_in (Alarm.id a) s1) = live s1
          ∧ alarm_objs (cancelled_in (Alarm.id a) s1) = alarm_objs s
          ∧ _started (cancelled_in (Alarm.id a) s1) = _started s) as (Hlive2 & Hobjs2 & Hst2).
  { unfold cancelled_in. by destruct (dict_get _ (_tasks s1)). }
  destruct (_started s) eqn:Hstarted; [|done].
  destruct (Alarm.enabled a) eqn:Hen; [|done]. simpl.
  apply spawned_tracked; [done..|].
  exists alarm, a. rewrite Hlive2, Hlive1, dict_get_set_eq, Hobjs2. done.
Qed.

Lemma remove_alarm_tracked alarm_id :
  remove_alarm alarm_id s = (s', Ok ()) → tasks_track_enabled s'.
Proof.
  intros Hremove. pose proof (remove_alarm_Ok_inv _ _ _ Hremove) as Hin.
  rewrite (remove_alarm_eq s alarm_id s_wf Hin) in Hremove.
  destruct (save_result _) as [[]|e]; [|done].
  rewrite _cancel_eq in Hremove. injection Hremove as <- _.
  set (s1 := saved (with_live (dict_pop alarm_id) s)).
  apply cancelled_in_tracked.
  - intros task id pc Htask. by destruct (s_tracked task id pc Htask).
  - intros task id pc Htask Hid.
    destruct (s_tracked task id pc Htask) as [_ (l & a' & Hget & Hrest)].
    exists l, a'. split; [|done].
    change (live s1) with (live (with_live (dict_pop alarm_id) s)).
    by rewrite live_with_live, dict_get_pop, decide_False by (by apply not_eq_sym).
Qed.

Lemma enable_tracked alarm_id :
  enable alarm_id s = (s', Ok ()) → tasks_track_enabled s'.
Proof.
  intros Henable.
  destruct (dict_get alarm_id (live s)) as [alarm|] eqn:Hget.
  2:{ unfold enable in Henable. revert Henable. run. by rewrite Hget. }
  destruct (alarm_objs s !! alarm) as [a|] eqn:Ha.
  2:{ unfold enable in Henable. revert Henable. run. rewrite Hget. unfold deref.
      by rewrite Ha. }
  destruct (Alarm.enabled a) eqn:Hen.
  { unfold enable in Henable. revert Henable. run. rewrite Hget. unfold deref.
    rewrite Ha, Hen. by intros [= <-]. }
  rewrite (enable_eq s alarm_id alarm a s_wf Hget Ha Hen) in Henable.
  destruct (save_result _) as [[]|e]; [|done]. injection Henable as <-.
  set (s1 := saved (with_alarm_objs (alter (Alarm.set_enabled true) alarm) s)).
  assert (∀ task pc, task_objs s !! task ≠ Some (mk_task alarm_id (Pending pc))) as Hnone.
  { intros task pc Htask.
    destruct (s_tracked task _ pc Htask) as [_ (l & a' & Hget' & Ha' & Hen' & _)].
    congruence. }
  assert (tasks_track_enabled s1) as Hs1.
  { intros task id pc Htask. destruct (s_tracked task id pc Htask) as [Hreg Hok].
    split; [done|]. destruct Hok as (l & a' & Hget' & Ha' & Hen' & Hpc).
    exists l. unfold s1. cbn [alarm_objs live saved with_store with_alarm_objs].
    rewrite lookup_alter.
    case_decide.
    - subst l. rewrite Ha'. eexists. split; [done|]. split; [done|]. by split.
    - exists a'. by repeat split. }
  destruct (_started s) eqn:Hstarted; [|done].
  apply spawned_tracked; [done..|].
  exists alarm. unfold s1. cbn [alarm_objs live saved with_store with_alarm_objs].
  rewrite lookup_alter_eq, Ha. eexists. split; [done|]. split; [done|]. by split.
Qed.

Lemma disable_tracked alarm_id :
  disable alarm_id s = (s', Ok ()) → tasks_track_enabled s'.
Proof.
  intros Hdisable.
  destruct (dict_get alarm_id (live s)) as [alarm|] eqn:Hget.
  2:{ unfold disable in Hdisable. revert Hdisable. run. by rewrite Hget. }
  destruct (alarm_objs s !! alarm) as [a|] eqn:Ha.
  2:{ unfold disable in Hdisable. revert Hdisable. run. rewrite Hget. unfold deref.
      by rewrite Ha. }
  destruct (Alarm.enabled a) eqn:Hen.
  2:{ unfold disable in Hdisable. revert Hdisable. run. rewrite Hget. unfold deref.
      rewrite Ha, Hen. by intros [= <-]. }
  rewrite (disable_eq s alarm_id alarm a s_wf Hget Ha Hen) in Hdisable.
  destruct (save_result _) as [[]|e]; [|done].
  rewrite _cancel_eq in Hdisable. injection Hdisable as <- _.
  apply cancelled_in_tracked.
  - intros task id pc Htask. by destruct (s_tracked task id pc Htask).
  - intros task id pc Htask Hid.
    destruct (s_tracked task id pc Htask) as [_ (l & a' & Hget' & Ha' & Hen' & Hpc)].
    exists l, a'. split; [done|]. split; [|done].
    cbn [alarm_objs saved with_store with_alarm_objs].
    rewrite lookup_alter_ne; [done|].
    by apply (wf_distinct s alarm_id id).
Qed.

Lemma stop_tracked : stop s = (s', Ok ()) → tasks_track_enabled s'.
Proof.
  unfold stop. run. rewrite for_each_cancel_task_eq.
  set (s1 := with_task_objs _ s).
  pose proof (for_each_await_task_state (dict_values (_tasks s)) s1) as Hs2.
  change (dict_values (_tasks s1)) with (dict_values (_tasks s)).
  destruct (for_each await_task _ s1) as [s2 [[]|]]; [|done]. simpl in Hs2. subst s2.
  intros [= <-] task id pc. cbn [task_objs with_started with_tasks s1 with_task_objs].
  rewrite foldl_cancel_lookup.
  destruct (task_objs s !! task) as [k|] eqn:Hk; [|done]. simpl.
  case_bool_decide as Hin.
  - unfold cancelled. by destruct k as [kid [pc0| |e]].
  - intros [= ->]. destruct (s_tracked task id pc Hk) as [[_ Hget] _].
    destruct Hin. apply dict_get_elem in Hget.
    unfold dict_values. apply list_elem_of_fmap. by exists (id, task).
Qed.

Lemma snapshot_tracked : (snapshot s).1 = s' → tasks_track_enabled s'.
Proof.
  unfold snapshot, new_dict. run. simpl. intros <-.
  destruct s_wf as [Hsome _].
  eapply tracked_same; [by apply live_new_dict|done..].
Qed.

Lemma new_alarm_tracked a : (new_alarm a s).1 = s' → tasks_track_enabled s'.
Proof.
  unfold new_alarm. simpl. intros <- task id pc Htask.
  destruct (s_tracked task id pc Htask) as [Hreg (l & a' & Hget & Ha' & Hrest)].
  split; [done|]. exists l, a'. split; [done|]. split; [|done].
  simpl. rewrite lookup_insert_ne; [done|].
  intros Heq. apply (is_fresh (dom (alarm_objs s))). rewrite Heq.
  apply elem_of_dom. eauto.
Qed.
End tracked.

Lemma set_status_tracked task st s alarm_id pc :
  tasks_track_enabled s →
  task_objs s !! task = Some (mk_task alarm_id (Pending pc)) →
  match st with Pending pc' => alarm_ok s alarm_id pc' | _ => True end →
  tasks_track_enabled (set_status task st s).
Proof.
  intros Hs Htask Hst task' id' pc'. unfold set_status.
  cbn [task_objs _tasks _started with_task_objs]. rewrite lookup_alter.
  case_decide as Heq.
  - subst task'. rewrite Htask. simpl. intros [= <- ->].
    destruct (Hs task alarm_id pc Htask) as [Hreg _]. split; [done|].
    by eapply alarm_ok_same.
  - intros Htask'. destruct (Hs task' id' pc' Htask') as [Hreg Hok].
    split; [done|]. by eapply alarm_ok_same.
Qed.

(** The end of a task that disables its alarm. *)
Lemma disabled_done_tracked task st s alarm_id pc alarm :
  wf s → tasks_track_enabled s →
  task_objs s !! task = Some (mk_task alarm_id (Pending pc)) →
  dict_get alarm_id (live s) = Some alarm →
  (∀ pc', st ≠ Pending pc') →
  tasks_track_enabled
    (set_status task st (saved (with_alarm_objs (alter (Alarm.set_enabled false) alarm) s))).
Proof.
  intros Hwf Hs Htask Hget Hst task' id' pc'. unfold set_status.
  cbn [task_objs _tasks _started with_task_objs saved with_store with_alarm_objs].
  rewrite lookup_alter. case_decide as Heq.
  - subst task'. rewrite Htask. simpl. intros [= _ Hpending]. by destruct (Hst pc').
  - intros Htask'. destruct (Hs task' id' pc' Htask') as [Hreg Hok].
    split; [done|]. destruct Hok as (alarm' & a' & Hget' & Ha' & Hrest).
    exists alarm', a'. split; [done|]. split; [|done].
    cbn [alarm_objs with_task_objs saved with_store with_alarm_objs].
    rewrite lookup_alter_ne; [done|].
    apply (wf_distinct s alarm_id id'); [done..|].
    intros Hid. subst id'. destruct (Hs task alarm_id pc Htask) as [[_ Hentry] _].
    destruct Hreg as [_ Hentry']. congruence.
Qed.

Lemma task_step_tracked task now_utc s :
  wf s → tasks_track_enabled s → tasks_track_enabled (task_step task now_utc s).
Proof.
  intros Hwf Hs. unfold task_step.
  destruct (task_objs s !! task) as [[alarm_id [pc| |e]]|] eqn:Htask; try done.
  destruct (Hs task alarm_id pc Htask) as [Hreg (alarm & a & Hget & Ha & Hen & Hpc)].
  destruct pc as [|held next_time].
  - unfold _run_alarm_top. run. rewrite Hget. unfold deref at 1. rewrite Ha, Hen.
    cbn [negb].
    destruct (Alarm.next_occurrence (zones E) a now_utc) as [[next_time|]|e].
    + eapply set_status_tracked; [done..|]. by exists alarm, a.
    + unfold assign_enabled. run.
      rewrite (store_save_saved _ (assign_enabled_wf s Hwf alarm false)).
      destruct (save_result _) as [[]|e];
        by eapply disabled_done_tracked.
    + by eapply set_status_tracked.
  - subst held. unfold _run_alarm_fire, players_play. run.
    unfold deref at 1. rewrite Ha.
    destruct (play E a) as [[]|e]; [|by eapply set_status_tracked].
    unfold deref at 1. rewrite Ha.
    case_bool_decide as Honce.
    + unfold assign_enabled. run.
      rewrite (store_save_saved _ (assign_enabled_wf s Hwf alarm false)).
      destruct (save_result _) as [[]|e];
        by eapply disabled_done_tracked.
    + eapply set_status_tracked; [done..|]. by exists alarm, a.
Qed.

Lemma trigger_now_tracked alarm_id s s' :
  tasks_track_enabled s → (trigger_now alarm_id s).1 = s' → tasks_track_enabled s'.
Proof.
  intros Hs <-. unfold trigger_now. run.
  destruct (dict_get alarm_id (live s)) as [alarm|]; [|done].
  unfold players_play. run. unfold deref.
  by destruct (alarm_objs s !! alarm).
Qed.

(** The loop of [start] that creates the tasks. *)
Lemma for_each_spawn_tracked (alarms : list Alarm.t) (objs : list loc) s :
  _started s = true → tasks_track_enabled s →
  Forall2 (λ a l, alarm_objs s !! l = Some a
                  ∧ dict_get (Alarm.id a) (live s) = Some l) alarms objs →
  NoDup (Alarm.id <$> alarms) →
  (∀ task a pc, a ∈ alarms →
                task_objs s !! task ≠ Some (mk_task (Alarm.id a) (Pending pc))) →
  tasks_track_enabled (for_each spawn_if_enabled objs s).1.
Proof.
  revert s alarms.
  induction objs as [|l objs IH]; intros s alarms Hstarted Hs Hall Hnd Hnone; [done|].
  destruct alarms as [|a alarms]; [by apply Forall2_nil_cons_inv in Hall|].
  apply Forall2_cons_1 in Hall as [[Ha Hget] Hall].
  rewrite fmap_cons in Hnd. apply NoDup_cons in Hnd as [Hfirst Hnd].
  cbn [for_each]. unfold bind at 1, spawn_if_enabled at 1, mbind, prog_bind.
  unfold bind at 1, deref at 1. rewrite Ha.
  destruct (Alarm.enabled a) eqn:Hen.
  - change (spawn (Alarm.id a) s) with (spawned (Alarm.id a) s, Ok ()).
    apply (IH _ alarms); [done| |exact Hall|done|].
    + apply spawned_tracked; [done| |done|].
      * intros task pc. apply Hnone. left.
      * by exists l, a.
    + intros task a' pc Hin. cbn [spawned spawn fst task_objs with_tasks with_task_objs].
      rewrite lookup_insert. case_decide.
      * intros [= Hid]. apply Hfirst. rewrite Hid. apply list_elem_of_fmap. by exists a'.
      * apply Hnone. by right.
  - apply (IH _ alarms); [done..|]. intros task a' pc Hin. apply Hnone. by right.
Qed.

Lemma map_each_new_alarm_tasks (alarms : list Alarm.t) s :
  task_objs (map_each new_alarm alarms s).1 = task_objs s.
Proof.
  apply (preserves_map_each (λ s', task_objs s' = task_objs s) new_alarm alarms); [|done].
  by intros a s0 Hs0.
Qed.

Lemma start_tracked s s' :
  wf s → tasks_track_enabled s → unique_load s →
  start s = (s', Ok ()) → tasks_track_enabled s'.
Proof.
  intros Hwf Hs Hunique. unfold start. run.
  destruct (_started s) eqn:Hstarted; [by intros [= <-]|].
  assert (∀ task id pc, task_objs s !! task ≠ Some (mk_task id (Pending pc))) as Hidle.
  { intros task id pc Htask. destruct (Hs task id pc Htask) as [[? _] _]. congruence. }
  unfold store_load at 1.
  destruct (load E (_store s)) as [st [alarms|e]] eqn:Hload; [|done].
  pose proof (Hunique st alarms Hstarted Hload) as Hnd.
  set (s1 := with_store st None s).
  destruct (map_each_new_alarm alarms s1)
    as (s2 & objs & Hnew & Hd2 & Ha2 & Ht2 & Hs2 & Hmono2 & Hall2).
  pose proof (map_each_new_alarm_tasks alarms s1) as Htobjs2.
  rewrite Hnew in Htobjs2 |- *. cbn [fst] in Htobjs2.
  unfold rebind_alarms, new_dict. run. cbv zeta.
  set (d := foldl (λ d ao, dict_set (Alarm.id ao.1) ao.2 d) [] (zip alarms objs)).
  set (s4 := with_started true
               (with_alarms (fresh (dom (dict_objs s2)))
                  (with_dict_objs <[fresh (dom (dict_objs s2)) := d]> s2))).
  assert (live s4 = d) as Hlive4.
  { unfold live, s4. simpl. by rewrite lookup_insert_eq. }
  pose proof (Forall2_length _ _ _ Hall2) as Hlen.
  destruct (zip_fst_snd alarms objs Hlen) as [Hfst Hsnd].
  assert (d = prod_map Alarm.id id <$> zip alarms objs) as Hd.
  { unfold d. rewrite foldl_dict_set_new; [done|].
    simpl. rewrite list_fmap_compose, Hfst. done. }
  assert (dict_keys d = Alarm.id <$> alarms) as Hkeys.
  { rewrite Hd. unfold dict_keys. rewrite <- list_fmap_compose.
    rewrite (list_fmap_ext (fst ∘ prod_map Alarm.id id) (Alarm.id ∘ fst) (zip alarms objs))
      by (by intros ? []).
    by rewrite list_fmap_compose, Hfst. }
  assert (∀ task id pc, task_objs s4 !! task ≠ Some (mk_task id (Pending pc))) as Hidle4.
  { intros task id pc. change (task_objs s4) with (task_objs s2). rewrite Htobjs2.
    apply Hidle. }
  intros Hspawn.
  replace s' with (for_each spawn_if_enabled objs s4).1 by (by rewrite Hspawn).
  apply (for_each_spawn_tracked alarms); [done| | |done|].
  - intros task id pc Htask. by destruct (Hidle4 task id pc).
  - apply Forall2_same_length_lookup. split; [done|].
    intros i a l Hi Hl.
    pose proof (Forall2_lookup_lr _ _ _ _ _ _ Hall2 Hi Hl) as Hal.
    split; [done|]. rewrite Hlive4. apply dict_get_Some_NoDup; [by rewrite Hkeys|].
    rewrite Hd. apply list_elem_of_fmap. exists (a, l). split; [done|].
    apply list_elem_of_lookup. exists i. by apply lookup_zip_with_Some; eauto.
  - intros task a pc _. apply Hidle4.
Qed.

Lemma run_op_tracked (o : op) s s' :
  wf s → tasks_track_enabled s → (o = Start → unique_load s) →
  run_op o s = (s', Ok ()) → tasks_track_enabled s'.
Proof.
  intros Hwf Hs Hunique. destruct o; simpl.
  - apply start_tracked; auto.
  - by apply stop_tracked.
  - unfold mbind, prog_bind, bind. intros [= <-]. by eapply new_alarm_tracked.
  - by apply add_alarm_tracked.
  - by apply update_alarm_tracked.
  - by apply remove_alarm_tracked.
  - by apply enable_tracked.
  - by apply disable_tracked.
  - intros Hop. eapply trigger_now_tracked; [done|]. by rewrite Hop.
  - unfold mbind, prog_bind. unfold bind at 1.
    destruct (snapshot s) as [s1 [r|e]] eqn:Hsnap; [|done].
    intros [= <-]. eapply snapshot_tracked; [done..|]. by rewrite Hsnap.
  - intros [= <-]. by apply task_step_tracked.
Qed.

Lemma orderly_run_tracked (st : store E) s :
  orderly_run (__init__ E st) s → keyed_by_id s ∧ tasks_track_enabled s.
Proof.
  induction 1 as [|o s1 s2 _ [Hkeyed Hs] Hunique Hop].
  - split; [exact (keyed_exec st [])|]. by intros task alarm_id pc.
  - split; [|eapply run_op_tracked; [exact (proj1 Hkeyed)|done..]].
    pose proof (keyed_run_op o s1 Hkeyed) as Hkeyed2. by rewrite Hop in Hkeyed2.
Qed.

(** In a run from a new scheduler in which every operation returned
    normally and every [start] found alarms of distinct ids in the store,
    a timer task that has not ended is the task registered under its id
    in a started scheduler, and the alarm of that id is in the live
    mapping, enabled, and is the object the task holds while it waits. So
    no task is left that could ring an alarm that was removed, disabled or
    replaced, or an alarm of a stopped scheduler. *)
Theorem pending_tasks_have_enabled_alarms (st : store E) s :
  orderly_run (__init__ E st) s → tasks_track_enabled s.
Proof. intros Hrun. by destruct (orderly_run_tracked st s Hrun). Qed.
End scheduler_more.

(** *** On concrete states *)

Lemma unknown_id_raises_witness :
  Scheduler.remove_alarm "ghost" wake_waiting = (wake_waiting, Raise KeyError)
  ∧ Scheduler.enable "ghost" wake_waiting = (wake_waiting, Raise KeyError)
  ∧ Scheduler.disable "ghost" wake_waiting = (wake_waiting, Raise KeyError).
Proof.
  destruct (unknown_id_raises wake_waiting "ghost") as (Hremove & Henable & Hdisable & _).
  { vm_compute. reflexivity. }
  by repeat split.
Defined.

Lemma stop_cancels_every_task_witness :
  ∃ s', Scheduler.stop wake_waiting = (s', Ok ())
        ∧ Scheduler._tasks s' = [] ∧ Scheduler._started s' = false
        ∧ Scheduler.task_objs s' !! 0%nat = Some (mk_task "wake" Finished).
Proof.
  destruct wake_waiting_fields as (_ & _ & Htasks & _ & Htask).
  destruct (stop_cancels_every_task wake_waiting)
    as (s' & Hstop & Hno & Hoff & _ & _ & _ & _ & _ & Hdone).
  { intros task k. rewrite Htasks. intros ->%list_elem_of_singleton. cbn [snd].
    rewrite Htask. by intros [= <-]. }
  exists s'. split; [done|]. split; [done|]. split; [done|].
  assert (Scheduler.task_objs s' !! 0%nat = Some (mk_task "wake" Finished)) as Hfinished.
  { assert (s' = (Scheduler.stop wake_waiting).1) as -> by (by rewrite Hstop).
    vm_compute. reflexivity. }
  exact Hfinished.
Defined.

Lemma player_error_blocks_stop_witness :
  Scheduler.task_step 0%nat (datetime 2024 1 1 10 0 2 0) wake_waiting_silent
  = Scheduler.set_status 0%nat (Failed PlayerError) wake_waiting_silent
  ∧ ∃ s' e',
      Scheduler.stop
        (Scheduler.task_step 0%nat (datetime 2024 1 1 10 0 2 0) wake_waiting_silent)
      = (s', Raise e')
      ∧ Scheduler._started s' = Scheduler._started wake_waiting_silent
      ∧ Scheduler._tasks s' = Scheduler._tasks wake_waiting_silent
      ∧ Scheduler.alarm_objs s' = Scheduler.alarm_objs wake_waiting_silent.
Proof.
  apply (player_error_blocks_stop wake_waiting_silent 0%nat "wake" 0%nat
           (datetime 2024 1 1 10 0 2 0) wake PlayerError).
  - assert (Scheduler._tasks wake_waiting_silent = [("wake", 0%nat)]) as ->
      by (vm_compute; reflexivity).
    left.
  - vm_compute. reflexivity.
  - vm_compute. reflexivity.
  - reflexivity.
Defined.

Lemma woken_task_fires_witness :
  Scheduler.task_step 1%nat (datetime 2024 1 2 7 30 0 0) after_update
  = Scheduler.set_status 1%nat (Pending LoopTop) after_update
  ∧ ∃ s', Scheduler.task_step 0%nat (datetime 2024 1 1 10 0 2 0) wake_waiting = s'
          ∧ Scheduler.alarm_objs s' !! 0%nat = Some (Alarm.set_enabled false wake)
          ∧ Scheduler.task_objs s' !! 0%nat = Some (mk_task "wake" Finished)
          ∧ Scheduler.save_log s' = live_alarms s' :: Scheduler.save_log wake_waiting.
Proof.
  split.
  - apply (woken_task_fires after_update 1%nat "gym" 1%nat (datetime 2024 1 2 7 30 0 0)
             gym_tuesdays); vm_compute; (reflexivity || discriminate).
  - destruct (woken_task_fires wake_waiting 0%nat "wake" 0%nat (datetime 2024 1 1 10 0 2 0)
                wake (datetime 2024 1 1 10 0 2 0)) as [_ Honce];
      [vm_compute; reflexivity..|].
    destruct Honce as (s' & Hstep & Hobjs & Htask & Hlog & _);
      [reflexivity|exact (proj1 (keyed_exec (E:=memory_env) [] wake_run))|done|].
    exists s'. split; [done|]. split; [|by split].
    rewrite Hobjs. vm_compute. reflexivity.
Defined.


Lemma add_alarm_adds_witness :
  ∃ s', Scheduler.add_alarm 0%nat wake_ready = (s', Ok ())
        ∧ Scheduler.live s' = [("wake", 0%nat)]
        ∧ live_alarms s' = [wake]
        ∧ Scheduler.save_log s' = [[wake]].
Proof.
  destruct (add_alarm_adds wake_ready 0%nat wake)
    as (s' & Hadd & Hlive & _ & Halarms & Hlog & _).
  - exact (proj1 (keyed_exec (E:=memory_env) [] [Scheduler.Start; Scheduler.NewAlarm wake])).
  - vm_compute. reflexivity.
  - vm_compute. reflexivity.
  - done.
  - exists s'. split; [done|]. split; [by rewrite Hlive|]. split; [by rewrite Halarms|].
    by rewrite Hlog, Halarms.
Defined.

Lemma add_then_remove_witness :
  Scheduler.live (Scheduler.remove_alarm "wake" (Scheduler.add_alarm 0%nat wake_ready).1).1
  = Scheduler.live wake_ready
  ∧ Scheduler._tasks
      (Scheduler.remove_alarm "wake" (Scheduler.add_alarm 0%nat wake_ready).1).1
    = Scheduler._tasks wake_ready.
Proof.
  destruct (add_then_remove wake_ready (Scheduler.add_alarm 0%nat wake_ready).1
              (Scheduler.remove_alarm "wake" (Scheduler.add_alarm 0%nat wake_ready).1).1
              0%nat wake) as (Hlive & _ & Htasks & _).
  - exact (proj1 (keyed_exec (E:=memory_env) [] [Scheduler.Start; Scheduler.NewAlarm wake])).
  - apply (cover_exec (E:=memory_env) [] [Scheduler.Start; Scheduler.NewAlarm wake]).
    vm_compute. reflexivity.
  - vm_compute. reflexivity.
  - vm_compute. reflexivity.
  - vm_compute. reflexivity.
  - vm_compute. reflexivity.
  - by split.
Defined.

Lemma update_alarm_reschedules_witness :
  ∃ s', Scheduler.update_alarm 1%nat update_ready = (s', Ok ())
        ∧ dict_get "gym" (Scheduler.live s') = Some 1%nat
        ∧ Scheduler.task_objs s' !! 0%nat = Some (mk_task "gym" Finished)
        ∧ ∃ task', task' ≠ 0%nat
                   ∧ dict_get "gym" (Scheduler._tasks s') = Some task'
                   ∧ Scheduler.task_objs s' !! task' = Some (mk_task "gym" (Pending LoopTop)).
Proof.
  destruct (update_alarm_reschedules update_ready 1%nat gym_tuesdays 0%nat "gym"
              (Waiting 0%nat (datetime 2024 1 1 7 30 0 0)))
    as (s' & Hupdate & Hget & _ & _ & _ & Hold & Hnew).
  - exact (proj1 (keyed_exec (E:=memory_env) [] (take 5 update_run))).
  - vm_compute. reflexivity.
  - exists 0%nat. vm_compute. reflexivity.
  - vm_compute. reflexivity.
  - vm_compute. reflexivity.
  - done.
  - exists s'. split; [done|]. split; [done|]. split; [done|]. exact Hnew.
Defined.

Lemma enable_spawns_witness :
  ∃ s', Scheduler.enable "morning" holding_morning_off = (s', Ok ())
        ∧ Scheduler.alarm_objs s' !! 0%nat = Some morning
        ∧ Scheduler.save_log s' = [morning] :: Scheduler.save_log holding_morning_off
        ∧ ∃ task, Scheduler._tasks s' = [("morning", task)].
Proof.
  destruct (enable_spawns holding_morning_off "morning" 0%nat morning_off)
    as (s' & Henable & Hobjs & Hlive & Hlog & _ & task & _ & _ & Htasks).
  - exact holding_morning_off_wf.
  - vm_compute. reflexivity.
  - vm_compute. reflexivity.
  - reflexivity.
  - done.
  - exists s'. split; [done|].
    assert (Scheduler.alarm_objs s' !! 0%nat = Some morning) as Hmorning.
    { rewrite Hobjs. vm_compute. reflexivity. }
    split; [done|]. split.
    + rewrite Hlog. f_equal. unfold live_alarms. rewrite Hlive.
      assert (Scheduler.live holding_morning_off = [("morning", 0%nat)]) as ->
        by (vm_compute; reflexivity).
      simpl. by rewrite Hmorning.
    + exists task. rewrite Htasks. vm_compute. reflexivity.
Defined.

Lemma start_loads_the_store_witness :
  ∃ s', Scheduler.start (Scheduler.__init__ memory_env [morning_off; gym]) = (s', Ok ())
        ∧ dict_keys (Scheduler.live s') = ["morning"; "gym"]
        ∧ live_alarms s' = [morning_off; gym]
        ∧ is_Some (dict_get "gym" (Scheduler._tasks s'))
        ∧ dict_get "morning" (Scheduler._tasks s') = None.
Proof.
  destruct (start_loads_the_store (Scheduler.__init__ memory_env [morning_off; gym]))
    as [Hload _]; [reflexivity..|].
  destruct (Hload [morning_off; gym] [morning_off; gym])
    as (s' & Hstart & _ & _ & _ & Hkeys & Halarms & Htasks).
  - reflexivity.
  - apply (bool_decide_unpack _). vm_compute. exact I.
  - exists s'. split; [done|]. split; [done|]. split; [done|]. split.
    + apply Htasks. exists gym. split; [right; left|by split].
    + destruct (dict_get "morning" (Scheduler._tasks s')) as [task|] eqn:Hget; [|done].
      destruct (proj1 (Htasks "morning")) as (a & Hin & Hid & Hen); [eauto|].
      apply elem_of_cons in Hin as [->|Hin]; [done|].
      apply list_elem_of_singleton in Hin as ->. done.
Defined.

Lemma added_alarm_survives_restart_witness :
  ∃ s2, Scheduler.start
          (Scheduler.__init__ memory_env
             (Scheduler._store (Scheduler.add_alarm 0%nat wake_ready).1))
        = (s2, Ok ())
        ∧ live_alarms s2 = [wake]
        ∧ dict_keys (Scheduler.live s2) = ["wake"].
Proof.
  apply (added_alarm_survives_restart wake_ready (Scheduler.add_alarm 0%nat wake_ready).1
           0%nat wake).
  - intros st alarms st' [= <-]. by exists alarms.
  - exact (keyed_exec (E:=memory_env) [] [Scheduler.Start; Scheduler.NewAlarm wake]).
  - vm_compute. reflexivity.
  - vm_compute. reflexivity.
  - vm_compute. reflexivity.
Defined.

Lemma orderly_run_cons {E : environment} (o : Scheduler.op) (s s1 s2 : Scheduler.t E) :
  (o = Scheduler.Start → unique_load s) →
  Scheduler.run_op o s = (s1, Ok ()) → orderly_run s1 s2 → orderly_run s s2.
Proof.
  intros Hunique Hop. induction 1 as [|o' s2 s3 _ IH Hunique' Hop'].
  - eapply orderly_step; [apply orderly_nil|done..].
  - by eapply orderly_step.
Qed.

Lemma orderly_run_exec_cons {E : environment} (o : Scheduler.op) (ops : list Scheduler.op)
    (s : Scheduler.t E) :
  (o = Scheduler.Start → unique_load s) →
  (Scheduler.run_op o s).2 = Ok () →
  orderly_run (Scheduler.run_op o s).1 (Scheduler.exec ops (Scheduler.run_op o s).1) →
  orderly_run s (Scheduler.exec (o :: ops) s).
Proof.
  intros Hunique Hop Hrun. eapply orderly_run_cons; [done| |exact Hrun].
  destruct (Scheduler.run_op o s) as [s1 r]. simpl in Hop. by subst r.
Qed.

Lemma orderly_run_exec_nil {E : environment} (s : Scheduler.t E) :
  orderly_run s (Scheduler.exec [] s).
Proof. apply orderly_nil. Qed.

Lemma pending_tasks_have_enabled_alarms_witness :
  tasks_track_enabled after_update.
Proof.
  apply (pending_tasks_have_enabled_alarms (E:=memory_env) []).
  unfold after_update, update_run.
  apply orderly_run_exec_cons.
  { intros _ st alarms _ [= _ <-]. constructor. }
  { vm_compute. reflexivity. }
  apply orderly_run_exec_cons; [intros [=]|vm_compute; reflexivity|].
  apply orderly_run_exec_cons; [intros [=]|vm_compute; reflexivity|].
  apply orderly_run_exec_cons; [intros [=]|vm_compute; reflexivity|].
  apply orderly_run_exec_cons; [intros [=]|vm_compute; reflexivity|].
  apply orderly_run_exec_cons; [intros [=]|vm_compute; reflexivity|].
  apply orderly_run_exec_cons; [intros [=]|vm_compute; reflexivity|].
  apply orderly_run_exec_nil.
Defined.

(** ** The player registry and the command line *)

(** [register] puts a player under a source, replacing the one that was
    there, and [play] hands an alarm to the player under the source of its
    music settings; without such a player it raises [PlayerError] and
    leaves the world as it is. *)
Lemma registry_dispatches_by_source {W : Type} (self : PlayerRegistry.t W)
    (source : string) (player : PlayerRegistry.BasePlayer W) (alarm : Alarm.t) (w : W) :
  PlayerRegistry.play (PlayerRegistry.register source player self) alarm w
  = (if decide (source = MusicSettings.source (Alarm.music alarm))
     then player alarm (Alarm.music alarm) w
     else PlayerRegistry.play self alarm w)
  ∧ (dict_get (MusicSettings.source (Alarm.music alarm)) self = None →
     PlayerRegistry.play self alarm w = (w, Raise PlayerError)).
Proof.
  unfold PlayerRegistry.play, PlayerRegistry.register. cbv zeta. split.
  - rewrite dict_get_set. by case_decide.
  - by intros ->.
Qed.

Lemma dict_get_DAY_ALIASES (key : string) (day : Z) :
  dict_get key Cli.DAY_ALIASES = Some day → 0 ≤ day ≤ 6.
Proof.
  unfold Cli.DAY_ALIASES. simpl.
  repeat (case_decide; [intros [= <-]; lia|]). done.
Qed.

Section cli.
Context (T : Cli.text).

Lemma parse_repeat_days_Returns (values : list string) (days : list Z) :
  Cli.parse_repeat_days T values = Cli.Returns days →
  Forall2 (λ value day,
             dict_get (Cli.str_lower T (Cli.str_strip T value)) Cli.DAY_ALIASES = Some day
             ∧ 0 ≤ day ≤ 6) values days.
Proof.
  revert days. induction values as [|value values IH]; intros days;
    cbn [Cli.parse_repeat_days].
  { intros [= <-]. constructor. }
  destruct (dict_get _ Cli.DAY_ALIASES) as [day|] eqn:Hday; [|done].
  destruct (Cli.parse_repeat_days T values) as [rest| |];
    cbn [mbind Cli.result_bind]; [|done..].
  intros [= <-]. constructor; [|by apply IH].
  split; [done|]. by eapply dict_get_DAY_ALIASES.
Qed.

(** [parse_repeat_days] returns the weekday index of each name, in the
    order given; each is between 0 and 6, so that [_normalize_days] accepts
    the result. It raises nothing, and leaves the program exactly when a
    name is not a key of [DAY_ALIASES] once stripped and put in lower case,
    naming that value. *)
Theorem parse_repeat_days_weekdays (values : list string) :
  (∀ days, Cli.parse_repeat_days T values = Cli.Returns days →
     Forall2 (λ value day,
                dict_get (Cli.str_lower T (Cli.str_strip T value)) Cli.DAY_ALIASES
                = Some day) values days
     ∧ ∃ normalized, _normalize_days days = Ok normalized)
  ∧ (∀ message, Cli.parse_repeat_days T values = Cli.SystemExit message →
       ∃ value, value ∈ values
                ∧ dict_get (Cli.str_lower T (Cli.str_strip T value)) Cli.DAY_ALIASES = None
                ∧ message = "Unknown weekday: " +:+ value)
  ∧ (∀ e, Cli.parse_repeat_days T values ≠ Cli.Raises e).
Proof.
  split; [|split].
  - intros days Hparse%parse_repeat_days_Returns. split.
    + eapply Forall2_impl; [done|]. by intros value day [? _].
    + destruct (_normalize_days_Ok days) as (normalized & Hnorm & _); [|eauto].
      eapply Forall2_Forall_r; [done|]. apply Forall_forall. by intros value _ day [_ ?].
  - induction values as [|value values IH]; intros message;
      cbn [Cli.parse_repeat_days]; [done|].
    destruct (dict_get _ Cli.DAY_ALIASES) as [day|] eqn:Hday.
    + destruct (Cli.parse_repeat_days T values) as [rest|message'|];
        cbn [mbind Cli.result_bind]; [done| |done].
      intros [= <-]. destruct (IH message' eq_refl) as (value' & Hin & Hnone & Hmsg).
      exists value'. split; [by right|done].
    + intros [= <-]. exists value. split; [left|done].
  - induction values as [|value values IH]; intros e;
      cbn [Cli.parse_repeat_days]; [done|].
    destruct (dict_get _ Cli.DAY_ALIASES) as [day|]; [|done].
    destruct (Cli.parse_repeat_days T values) as [rest|message'|e'] eqn:Hrest;
      cbn [mbind Cli.result_bind]; [done..|]. by destruct (IH e').
Qed.

Lemma call_Returns {A : Type} (m : outcome A) (a : A) :
  Cli.call m = Cli.Returns a → m = Ok a.
Proof. destruct m; simpl; congruence. Qed.

Lemma result_bind_Returns {A B : Type} (m : Cli.result A) (f : A → Cli.result B) (b : B) :
  m ≫= f = Cli.Returns b → ∃ a, m = Cli.Returns a ∧ f a = Cli.Returns b.
Proof. destruct m as [a| |]; simpl; [eauto|done..]. Qed.

Lemma music_of_args_source (args : Cli.Namespace) (music : MusicSettings.t) :
  (if bool_decide (Cli.music_source args = "tone") then
     Cli.Returns (MusicSettings.tone (Cli.frequency args) (Cli.duration args))
   else if bool_decide (Cli.music_source args = "spotify") then
     if bool_decide (Cli.str_or (Cli.music_resource args) EmptyString = EmptyString)
     then Cli.SystemExit "--music-resource is required for Spotify alarms"
     else Cli.call (MusicSettings.spotify (Cli.str_or (Cli.music_resource args) EmptyString)
                      (Cli.duration args))
   else if bool_decide (Cli.music_source args = "app") then
     if bool_decide (Cli.str_or (Cli.music_resource args) EmptyString = EmptyString)
     then Cli.SystemExit "--music-resource must point to an application or URI"
     else Cli.call (MusicSettings.app (Cli.str_or (Cli.music_resource args) EmptyString)
                      (Cli.duration args) None)
   else Cli.call (MusicSettings.custom (Cli.music_source args)
                    (Cli.str_or (Cli.music_resource args) EmptyString)
                    (Cli.duration args) None)) = Cli.Returns music →
  MusicSettings.source music = Cli.music_source args.
Proof.
  case_bool_decide as Htone; [by intros [= <-]|].
  case_bool_decide as Hspotify.
  { case_bool_decide; [done|]. intros Hm%call_Returns.
    unfold MusicSettings.spotify in Hm. case_bool_decide; [done|]. by injection Hm as <-. }
  case_bool_decide as Happ.
  { case_bool_decide; [done|]. intros Hm%call_Returns.
    unfold MusicSettings.app in Hm. case_bool_decide; [done|]. by injection Hm as <-. }
  intros Hm%call_Returns.
  unfold MusicSettings.custom in Hm. case_bool_decide; [done|]. by injection Hm as <-.
Qed.


(** An alarm that [create_alarm_from_args] returns for a music source
    other than ["tone"], ["spotify"] and ["app"] cannot be played by the
    registry of the command line: [play] raises [PlayerError]. *)
Theorem custom_source_has_no_player {W : Type}
    (TonePlayer SpotifyPlayer AppLauncherPlayer : PlayerRegistry.BasePlayer W)
    (args : Cli.Namespace) (a : Alarm.t) (w : W) :
  Cli.create_alarm_from_args T args = Cli.Returns a →
  Cli.music_source args ∉ ["tone"; "spotify"; "app"] →
  PlayerRegistry.play (Cli.build_registry TonePlayer SpotifyPlayer AppLauncherPlayer) a w
  = (w, Raise PlayerError).
Proof.
  intros Hcreate Hsource.
  assert (MusicSettings.source (Alarm.music a) = Cli.music_source args) as Hmusic.
  { unfold Cli.create_alarm_from_args in Hcreate.
    apply result_bind_Returns in Hcreate as (days & Hdays & H).
    apply result_bind_Returns in H as (music & Hmusic & H).
    apply result_bind_Returns in H as (start & Hstart & H).
    apply call_Returns in H.
    unfold Alarm.new in H. apply post_init_fields in H as (_ & _ & _ & _ & _ & -> & _).
    simpl. by apply music_of_args_source. }
  unfold PlayerRegistry.play, Cli.build_registry, PlayerRegistry.register. cbv zeta.
  rewrite Hmusic, !dict_get_set.
  repeat (case_decide; [exfalso; apply Hsource; subst; set_solver|]).
  done.
Qed.
End cli.

Lemma parse_repeat_days_weekdays_witness :
  Cli.parse_repeat_days ascii_text ["Tue"; " thu "] = Cli.Returns [1; 3]
  ∧ ∃ normalized, _normalize_days [1; 3] = Ok normalized.
Proof.
  assert (Cli.parse_repeat_days ascii_text ["Tue"; " thu "] = Cli.Returns [1; 3])
    as Hparse by (vm_compute; reflexivity).
  split; [done|].
  exact (proj2 (proj1 (parse_repeat_days_weekdays ascii_text ["Tue"; " thu "]) _ Hparse)).
Defined.


Lemma custom_source_has_no_player_witness :
  PlayerRegistry.play (Cli.build_registry counting_player counting_player counting_player)
    gym_radio 0%nat
  = (0%nat, Raise PlayerError).
Proof.
  apply (custom_source_has_no_player ascii_text counting_player counting_player
           counting_player gym_args gym_radio 0%nat).
  - vm_compute. reflexivity.
  - apply (bool_decide_unpack _). vm_compute. exact I.
Defined.
